(** * TODO-to-issue reconciliation pipeline

    A shallow embedding of the two pipeline scripts of the repository:
    the script that talks to the tracker through raw HTTPS requests
    (module [Https]) and the one that uses the Octokit client (module
    [Octo]).  Strings are sequences of UTF-16 code units, regular
    expressions are run by a backtracking matcher written after the
    ECMAScript matcher semantics, and the remote tracker is an explicit
    state threaded through a small state/exception/trace monad. *)

From Stdlib Require Import String Ascii Sorted.
From stdpp Require Import gmap list.

Set Warnings "-register-all".
Local Open Scope N_scope.

(** ** JavaScript strings *)

Module JS.

(** A string is a sequence of UTF-16 code units. *)
Definition char := N.
Definition jsstr := list char.

(** An ASCII literal of the source, as code units. *)
Fixpoint lit (s : string) : jsstr :=
  match s with
  | EmptyString => []
  | String a s' => N_of_ascii a :: lit s'
  end.

(** LineTerminator: LF, CR, LS, PS. *)
Definition isLineTerminator (c : char) : bool :=
  (c =? 10) || (c =? 13) || (c =? 8232) || (c =? 8233).

(** WhiteSpace and LineTerminator together: what [\s] matches and what
    [String.prototype.trim] strips. *)
Definition isWhiteSpace (c : char) : bool :=
  (c =? 9) || (c =? 11) || (c =? 12) || (c =? 32) || (c =? 160)
  || (c =? 5760) || ((8192 <=? c) && (c <=? 8202))
  || (c =? 8239) || (c =? 8287) || (c =? 12288) || (c =? 65279)
  || isLineTerminator c.

Fixpoint trimStart (s : jsstr) : jsstr :=
  match s with
  | c :: s' => if isWhiteSpace c then trimStart s' else s
  | [] => []
  end.

Definition trimEnd (s : jsstr) : jsstr := rev (trimStart (rev s)).

(** [s.trim()] *)
Definition trim (s : jsstr) : jsstr := trimEnd (trimStart s).

(** [s.split('\n')]: always at least one piece. *)
Fixpoint split_lines (s : jsstr) : list jsstr :=
  match s with
  | [] => [[]]
  | c :: s' =>
      if c =? 10 then [] :: split_lines s'
      else match split_lines s' with
           | l :: ls => (c :: l) :: ls
           | [] => [[c]]
           end
  end.

(** Truthiness of a string value: the empty string is falsy. *)
Definition truthy (s : jsstr) : bool :=
  match s with [] => false | _ => true end.

End JS.
Import JS.

(** ** Regular expressions *)

Module RegExp.

Inductive cclass :=
| Dot      (* [.] without the s flag: anything but a LineTerminator *)
| Space.   (* [\s] *)

Inductive regex :=
| Empty
| Lit (c : char)
| Cls (k : cclass)
| Seq (r1 r2 : regex)
| Alt (r1 r2 : regex)
| Star (greedy : bool) (r : regex)
| Plus (greedy : bool) (r : regex)
| Group (n : nat) (r : regex)
| Ahead (r : regex)
| Eoi.     (* [$] without the m flag *)

(** A literal string is the sequence of its characters. *)
Fixpoint lits (s : jsstr) : regex :=
  match s with
  | [] => Empty
  | c :: s' => Seq (Lit c) (lits s')
  end.

Definition inClass (k : cclass) (c : char) : bool :=
  match k with
  | Dot => negb (isLineTerminator c)
  | Space => isWhiteSpace c
  end.

(** Canonicalize of the non-Unicode mode: with the i flag a code unit is
    replaced by its upper case.  ASCII letters are folded here; a code
    unit from 128 up is left alone, since the standard never lets such
    a unit fold to one below 128 and the patterns of this program
    contain ASCII only. *)
Definition canonicalize (ignoreCase : bool) (c : char) : char :=
  if ignoreCase && (97 <=? c) && (c <=? 122) then c - 32 else c.

(** The match state: what is left of the input, and the captures. *)
Record mstate := MState { rest : jsstr; caps : gmap nat jsstr }.

Definition cont := mstate -> option mstate.
Definition matcher := mstate -> cont -> option mstate.

Definition orElse (a : option mstate) (b : option mstate) : option mstate :=
  match a with Some z => Some z | None => b end.

(** RepeatMatcher with max = infinity.  An iteration that consumes
    nothing once the minimum is reached fails, so every further
    iteration shortens the input and [fuel] above its length is never
    used up.  The patterns here have no capture group under a
    quantifier, so the reset of the captures of the body is omitted. *)
Fixpoint repeatMatcher (fuel : nat) (m : matcher) (min : nat) (greedy : bool)
    (x : mstate) (c : cont) : option mstate :=
  match fuel with
  | O => None
  | S fuel' =>
      let d : cont := fun y =>
        if Nat.eqb min 0 && Nat.eqb (length (rest y)) (length (rest x))
        then None
        else repeatMatcher fuel' m (Nat.pred min) greedy y c in
      if negb (Nat.eqb min 0) then m x d
      else if greedy then orElse (m x d) (c x)
      else orElse (c x) (m x d)
  end.

Fixpoint compile (ignoreCase : bool) (r : regex) : matcher :=
  match r with
  | Empty => fun x c => c x
  | Lit ch => fun x c =>
      match rest x with
      | a :: s =>
          if canonicalize ignoreCase a =? canonicalize ignoreCase ch
          then c (MState s (caps x)) else None
      | [] => None
      end
  | Cls k => fun x c =>
      match rest x with
      | a :: s => if inClass k a then c (MState s (caps x)) else None
      | [] => None
      end
  | Seq r1 r2 => fun x c =>
      compile ignoreCase r1 x (fun y => compile ignoreCase r2 y c)
  | Alt r1 r2 => fun x c =>
      orElse (compile ignoreCase r1 x c) (compile ignoreCase r2 x c)
  | Star greedy r => fun x c =>
      repeatMatcher (2 + length (rest x)) (compile ignoreCase r) 0 greedy x c
  | Plus greedy r => fun x c =>
      repeatMatcher (2 + length (rest x)) (compile ignoreCase r) 1 greedy x c
  | Group n r => fun x c =>
      compile ignoreCase r x (fun y =>
        c (MState (rest y)
             (<[n := take (length (rest x) - length (rest y)) (rest x)]> (caps y))))
  | Ahead r => fun x c =>
      match compile ignoreCase r x Some with
      | Some y => c (MState (rest x) (caps y))
      | None => None
      end
  | Eoi => fun x c =>
      match rest x with
      | [] => c x
      | _ :: _ => None
      end
  end.

(** [RegExpBuiltinExec] for a regex without the g and y flags: the
    match is tried at index 0, 1, ... up to the length of the input. *)
Fixpoint exec (ignoreCase : bool) (r : regex) (s : jsstr) : option mstate :=
  match compile ignoreCase r (MState s ∅) Some with
  | Some y => Some y
  | None =>
      match s with
      | [] => None
      | _ :: s' => exec ignoreCase r s'
      end
  end.

(** [s.match(re)[n]] when there is a match: the n-th capture. *)
Definition capture (n : nat) (y : mstate) : option jsstr := caps y !! n.

End RegExp.
Import RegExp.

(** The pattern "/fingerprint=(.+)/" of both scripts. *)
Definition fingerprintRe : regex :=
  Seq (lits (lit "fingerprint=")) (Group 1 (Plus true (Cls Dot))).

(** The pattern "/TODO:\s*(.+)/" of the Octokit script. *)
Definition todoReOcto : regex :=
  Seq (lits (lit "TODO:"))
      (Seq (Star true (Cls Space)) (Group 1 (Plus true (Cls Dot)))).

(** The pattern of the HTTPS script, with the i flag: one of the four
    comment openers (two slashes, a hash, the markup opener, the block
    opener), then "\s*TODO:\s*(.+?)" and a lookahead for the markup
    closer, the block closer or "$". *)
Definition todoReHttps : regex :=
  Seq (Alt (lits (lit "//"))
        (Alt (lits (lit "#")) (Alt (lits (lit "<!--")) (lits (lit "/*")))))
   (Seq (Star true (Cls Space))
    (Seq (lits (lit "TODO:"))
     (Seq (Star true (Cls Space))
      (Seq (Group 1 (Plus false (Cls Dot)))
           (Ahead (Alt (lits (lit "-->")) (Alt (lits (lit "*/")) Eoi))))))).

(** ** The world outside the scripts *)

(** A template literal or console line: literal text and interpolated
    values, kept apart so that no number formatting is modelled. *)
Inductive piece :=
| T (s : string)
| V (s : jsstr)
| I (n : Z).

(** An [Error] object is its message. *)
Definition error := list piece.

Inductive level := Log | Warn | Err.

Inductive ownerKind := User | Organization | Viewer.

(** What a run does that can be observed from outside: console lines and
    remote calls, each with its outcome. *)
Inductive event :=
| Console (l : level) (msg : list piece)
| ListIssues (page : nat) (ok : bool)
| CreateIssue (title body : jsstr) (labels : list jsstr) (ok : bool)
| ProjectQuery (k : ownerKind) (ok : bool)
| AddItem (projectId contentId : jsstr) (ok : bool)
| Sleep (ms : Z).

(** A tracked record of the remote tracker. *)
Record issue := Issue {
  number : N;
  node_id : jsstr;
  title : jsstr;
  body : option jsstr;
  labels : list jsstr;
  is_open : bool
}.

(** What becomes of a remote call.  [Fails msg]: the request fails
    (no connection, an error status, a body that is no JSON), and both
    clients throw.  [Refused msg]: the service refuses the call; a REST
    call then gets an error status, and a GraphQL call an answer with
    status 200 that carries errors and no data, on which
    [octokit.graphql] throws and [makeRequest] resolves. *)
Inductive reply :=
| Fine
| Fails (msg : jsstr)
| Refused (msg : jsstr).

(** The remote service: the tracker's issues (newest first, the order
    of the list endpoint), the project each owner kind resolves the
    configured number to, the items attached to projects, the node id
    the service gives to the issue of a number, and what becomes of the
    successive remote calls (once the list is used up every call goes
    through). *)
Record world := World {
  issues : list issue;
  userProject : option jsstr;
  orgProject : option jsstr;
  viewerProject : option jsstr;
  items : list (jsstr * jsstr);
  nodeIdOf : N -> jsstr;
  faults : list reply
}.

(** The environment of the process. *)
Record config := Config {
  GITHUB_TOKEN : option jsstr;
  GITHUB_REPOSITORY : option jsstr;
  PROJECT_NUMBER : Z
}.

(** The first piece of [GITHUB_REPOSITORY.split('/')]. *)
Fixpoint ownerOf (repository : jsstr) : jsstr :=
  match repository with
  | [] => []
  | c :: s => if c =? 47 then [] else c :: ownerOf s
  end.

(** [!v] for an environment variable. *)
Definition unset (v : option jsstr) : bool :=
  match v with
  | Some s => negb (truthy s)
  | None => true
  end.

(** The outcome of [fs.readFileSync]. *)
Inductive readResult :=
| Content (s : jsstr)
| ReadError (code : jsstr) (message : jsstr).

(** A directory entry: [isFile()], [isDirectory()] (with the outcome of
    [fs.readdirSync] on it), or neither. *)
Inductive entry :=
| File (name : jsstr) (r : readResult)
| Dir (name : jsstr) (readable : bool) (entries : list entry)
| Other (name : jsstr).

(** [path.relative(root, path.join(dir, name))] for a directory whose
    own relative path is [rel] (empty for the root). *)
Definition relJoin (rel name : jsstr) : jsstr :=
  match rel with
  | [] => name
  | _ => rel ++ lit "/" ++ name
  end.

(** ** State, exceptions and trace *)

Inductive result (A : Type) :=
| Ret (a : A)
| Throw (e : error)
| Exit (code : Z).
Arguments Ret {A} a.
Arguments Throw {A} e.
Arguments Exit {A} code.

Definition M (A : Type) : Type := world -> world * list event * result A.

Definition ret {A} (a : A) : M A := fun w => (w, [], Ret a).

Definition bind {A B} (m : M A) (f : A -> M B) : M B := fun w =>
  match m w with
  | (w1, t1, Ret a) =>
      match f a w1 with
      | (w2, t2, r) => (w2, t1 ++ t2, r)
      end
  | (w1, t1, Throw e) => (w1, t1, Throw e)
  | (w1, t1, Exit c) => (w1, t1, Exit c)
  end.

Notation "'let*' x := m 'in' k" := (bind m (fun x => k))
  (at level 10, x name, m at level 100, k at level 200).
Notation "m ;; k" := (bind m (fun _ => k))
  (at level 100, k at level 200, right associativity).

Definition throw {A} (e : error) : M A := fun w => (w, [], Throw e).

(** [process.exit(code)] *)
Definition exit {A} (code : Z) : M A := fun w => (w, [], Exit code).

(** [try { m } catch (error) { h error }] *)
Definition tryCatch {A} (m : M A) (h : error -> M A) : M A := fun w =>
  match m w with
  | (w1, t1, Throw e) =>
      match h e w1 with
      | (w2, t2, r) => (w2, t1 ++ t2, r)
      end
  | other => other
  end.

Definition emit (e : event) : M unit := fun w => (w, [e], Ret tt).

Definition console (l : level) (msg : list piece) : M unit :=
  emit (Console l msg).

Definition nl : piece := V [10].
Definition quote : piece := V [34].

(** Every remote call first consumes one outcome of the world. *)
Definition nextReply : M reply := fun w =>
  match faults w with
  | [] => (w, [], Ret Fine)
  | f :: fs =>
      (World (issues w) (userProject w) (orgProject w) (viewerProject w)
         (items w) (nodeIdOf w) fs, [], Ret f)
  end.

(** The same for a call that throws whenever it does not go through (a
    REST call, a call of the Octokit client): the message of the error,
    if any. *)
Definition nextFault : M (option jsstr) := fun w =>
  match faults w with
  | [] => (w, [], Ret None)
  | f :: fs =>
      (World (issues w) (userProject w) (orgProject w) (viewerProject w)
         (items w) (nodeIdOf w) fs, [],
       Ret (match f with
            | Fine => None
            | Fails msg | Refused msg => Some msg
            end))
  end.

Definition hasLabel (l : jsstr) (i : issue) : bool :=
  bool_decide (l ∈ labels i).

(** What "list open issues labelled todo" ranges over. *)
Definition openTodoIssues (w : world) : list issue :=
  filter (fun i => is_open i && hasLabel (lit "todo") i = true) (issues w).

(** The list endpoint with [per_page=100]: the issues of page [page]
    (from 1), and whether the response links to a next page. *)
Definition remoteList (page : nat) : M (list issue * bool) := fun w =>
  match nextFault w with
  | (w1, _, Ret (Some msg)) => (w1, [ListIssues page false], Throw [V msg])
  | (w1, _, _) =>
      let l := drop (100 * (page - 1))%nat (openTodoIssues w1) in
      (w1, [ListIssues page true],
       Ret (take 100 l, bool_decide (100 < length l)%nat))
  end.

(** The create endpoint: the new issue is open, gets the next number
    and becomes the newest of the tracker. *)
Definition remoteCreate (ttl bdy : jsstr) (lbls : list jsstr) : M issue := fun w =>
  match nextFault w with
  | (w1, _, Ret (Some msg)) =>
      (w1, [CreateIssue ttl bdy lbls false], Throw [V msg])
  | (w1, _, _) =>
      let n := N.of_nat (S (length (issues w1))) in
      let i := Issue n (nodeIdOf w1 n) ttl (Some bdy) lbls true in
      (World (i :: issues w1) (userProject w1) (orgProject w1)
         (viewerProject w1) (items w1) (nodeIdOf w1) (faults w1),
       [CreateIssue ttl bdy lbls true], Ret i)
  end.

(** The GraphQL query [projectV2(number)] under an owner kind. *)
Definition remoteProject (k : ownerKind) : M (option jsstr) := fun w =>
  match nextFault w with
  | (w1, _, Ret (Some msg)) => (w1, [ProjectQuery k false], Throw [V msg])
  | (w1, _, _) =>
      (w1, [ProjectQuery k true],
       Ret (match k with
            | User => userProject w1
            | Organization => orgProject w1
            | Viewer => viewerProject w1
            end))
  end.

(** The GraphQL mutation [addProjectV2ItemById]. *)
Definition remoteAddItem (projectId contentId : jsstr) : M unit := fun w =>
  match nextFault w with
  | (w1, _, Ret (Some msg)) =>
      (w1, [AddItem projectId contentId false], Throw [V msg])
  | (w1, _, _) =>
      (World (issues w1) (userProject w1) (orgProject w1) (viewerProject w1)
         (items w1 ++ [(projectId, contentId)]) (nodeIdOf w1) (faults w1),
       [AddItem projectId contentId true], Ret tt)
  end.

(** The two GraphQL calls as [makeRequest] of the HTTPS script sees
    them: it resolves on every answer with status 200, so a refused
    query resolves to an answer without project id and a refused
    mutation to an answer without item, and nothing is attached.
    [remoteAddItemRaw] returns whether the answer holds the id of an
    item. *)
Definition remoteProjectRaw (k : ownerKind) : M (option jsstr) := fun w =>
  match nextReply w with
  | (w1, _, Ret (Fails msg)) => (w1, [ProjectQuery k false], Throw [V msg])
  | (w1, _, Ret (Refused _)) => (w1, [ProjectQuery k false], Ret None)
  | (w1, _, _) =>
      (w1, [ProjectQuery k true],
       Ret (match k with
            | User => userProject w1
            | Organization => orgProject w1
            | Viewer => viewerProject w1
            end))
  end.

Definition remoteAddItemRaw (projectId contentId : jsstr) : M bool := fun w =>
  match nextReply w with
  | (w1, _, Ret (Fails msg)) =>
      (w1, [AddItem projectId contentId false], Throw [V msg])
  | (w1, _, Ret (Refused _)) =>
      (w1, [AddItem projectId contentId false], Ret false)
  | (w1, _, _) =>
      (World (issues w1) (userProject w1) (orgProject w1) (viewerProject w1)
         (items w1 ++ [(projectId, contentId)]) (nodeIdOf w1) (faults w1),
       [AddItem projectId contentId true], Ret true)
  end.

(** [issue.body?.match(/fingerprint=(.+)/)] and, on a match,
    [match[1].trim()]: the same two lines in both scripts. *)
Definition extractFingerprint (b : option jsstr) : option jsstr :=
  s ← b; y ← exec false fingerprintRe s; cap ← capture 1 y; Some (trim cap).

(** The loop that fills the set of fingerprints from a page of issues. *)
Definition addFingerprints (l : list issue) (acc : gset jsstr) : gset jsstr :=
  foldl (fun acc i =>
           match extractFingerprint (body i) with
           | Some fp => {[fp]} ∪ acc
           | None => acc
           end) acc l.

Definition ISSUE_LABELS : list jsstr := [lit "engineering"; lit "todo"].

(** The last lines of both scripts,
    [main().catch(error => { console.error('Fatal error:', error); process.exit(1); })],
    and the exit code of the process: 0 when [main] returns. *)
Definition catchFatal (x : world * list event * result unit)
    : world * list event * Z :=
  match x with
  | (w1, t1, Ret _) => (w1, t1, 0%Z)
  | (w1, t1, Throw e) =>
      (w1, t1 ++ [Console Err (T "Fatal error:" :: e)], 1%Z)
  | (w1, t1, Exit c) => (w1, t1, c)
  end.

(** ** The script on raw HTTPS requests *)

Module Https.

Definition EXCLUDED_DIRS : list jsstr :=
  [lit ".git"; lit "node_modules"; lit "vendor"; lit "build"; lit "dist";
   lit "out"; lit "coverage"; lit ".next"; lit ".idea"; lit ".vscode"].

Record todo := Todo {
  text : jsstr;
  filePath : jsstr;
  fingerprint : jsstr
}.

(** The body of the loop over the lines in [extractTodos]. *)
Definition todoOfLine (relativePath line : jsstr) : option todo :=
  y ← exec true todoReHttps line;
  cap ← capture 1 y;
  let todoText := trim cap in
  Some (Todo todoText relativePath (relativePath ++ lit "|" ++ todoText)).

(** The lines of a file that was read, in order. *)
Definition todosOfContent (relativePath content : jsstr) : list todo :=
  omap (todoOfLine relativePath) (split_lines content).

Definition extractTodos (relativePath : jsstr) (r : readResult) : M (list todo) :=
  match r with
  | Content content => ret (todosOfContent relativePath content)
  | ReadError code message =>
      (if bool_decide (code = lit "EISDIR") then ret tt
       else console Warn [T "Warning: Could not read "; V relativePath;
                          T ": "; V message]);;
      ret []
  end.

(** [scanDirectory] together with the loop of [main] that consumes it:
    the generator is lazy, so each file it yields is handed to
    [extractTodos] before the walk goes on, and a directory that cannot
    be listed throws at the point the walk reaches it. *)
Fixpoint scanEntry (rel : jsstr) (e : entry) : M (list todo) :=
  match e with
  | File name r => extractTodos (relJoin rel name) r
  | Dir name readable entries =>
      if bool_decide (name ∈ EXCLUDED_DIRS) then ret []
      else if readable then
        (fix scanEntries (es : list entry) : M (list todo) :=
           match es with
           | [] => ret []
           | e' :: es' =>
               let* a := scanEntry (relJoin rel name) e' in
               let* b := scanEntries es' in
               ret (a ++ b)
           end) entries
      else throw [T "ENOENT: scandir "; V (relJoin rel name)]
  | Other _ => ret []
  end.

Fixpoint scanDirectory (entries : list entry) : M (list todo) :=
  match entries with
  | [] => ret []
  | e :: es =>
      let* a := scanEntry [] e in
      let* b := scanDirectory es in
      ret (a ++ b)
  end.

(** A single request, with [per_page=100] and no page parameter. *)
Definition fetchExistingTodoIssues : M (gset jsstr) :=
  console Log [T "Fetching existing TODO issues..."];;
  let* resp := remoteList 1 in
  let fingerprints := addFingerprints (fst resp) ∅ in
  console Log [T "Found "; I (Z.of_nat (size fingerprints));
               T " existing TODO issues"];;
  ret fingerprints.

Definition issueBody (filePath fingerprint : jsstr) : jsstr :=
  lit "**File:** `" ++ filePath ++ lit "`" ++ [10; 10]
  ++ lit "---" ++ [10]
  ++ lit "**CI_METADATA**" ++ [10]
  ++ lit "fingerprint=" ++ fingerprint ++ [10].

Definition createIssue (todoText filePath fingerprint : jsstr) : M issue :=
  console Log [T "Creating issue: TODO: "; V todoText];;
  let* i := remoteCreate (lit "TODO: " ++ todoText)
              (issueBody filePath fingerprint) [lit "engineering"; lit "todo"] in
  console Log [T "Created issue #"; I (Z.of_N (number i))];;
  ret i.

Definition addItemToProject (projectId issueNodeId : jsstr) : M unit :=
  console Log [T "Adding issue to project..."];;
  let* hasItem := remoteAddItemRaw projectId issueNodeId in
  if hasItem : bool then console Log [T "Successfully added issue to project"]
  else ret tt.

(** One of the two [try] blocks of [addIssueToProject]: [true] when the
    block returned from the function. *)
Definition tryOwner (k : ownerKind) (found : list piece)
    (handler : M unit) (issueNodeId : jsstr) : M bool :=
  tryCatch
    (let* projectId := remoteProjectRaw k in
     match projectId with
     | Some id =>
         if truthy id then
           console Log found;; addItemToProject id issueNodeId;; ret true
         else ret false
     | None => ret false
     end)
    (fun _ => handler;; ret false).

Definition addIssueToProject (owner issueNodeId : jsstr) (projectNumber : Z)
    : M unit :=
  console Log [T "Fetching project ID for project number "; I projectNumber;
               T "..."];;
  let* viaUser := tryOwner User [T "Found user project"]
      (console Log [T "User project not found, trying organization..."])
      issueNodeId in
  if viaUser : bool then ret tt
  else
    let* viaOrg := tryOwner Organization [T "Found organization project"]
        (console Err [T "Organization project not found"])
        issueNodeId in
    if viaOrg : bool then ret tt
    else throw [T "Could not find project #"; I projectNumber;
                T " for owner "; quote; V owner; quote].

(** The loop of [main] over [allTodos], with [createdCount]. *)
Fixpoint createLoop (owner : jsstr) (projectNumber : Z) (existingFingerprints : gset jsstr)
    (allTodos : list todo) (createdCount : nat) : M nat :=
  match allTodos with
  | [] => ret createdCount
  | t :: rest =>
      let* createdCount' :=
        if bool_decide (fingerprint t ∈ existingFingerprints) then
          console Log [T "Skipping duplicate: "; V (text t)];;
          ret createdCount
        else
          tryCatch
            (let* i := createIssue (text t) (filePath t) (fingerprint t) in
             (if truthy (node_id i)
              then addIssueToProject owner (node_id i) projectNumber
              else ret tt);;
             emit (Sleep 1000);;
             ret (S createdCount))
            (fun e =>
               console Err ([T "Error creating issue for "; quote; V (text t);
                             quote; T ": "] ++ e);;
               ret createdCount) in
      createLoop owner projectNumber existingFingerprints rest createdCount'
  end.

Definition main (cfg : config) (tree : list entry) : M unit :=
  console Log [T "=== TODO to GitHub Issue Automation ==="; nl];;
  (if unset (GITHUB_TOKEN cfg) || unset (GITHUB_REPOSITORY cfg) then
     console Err [T "Error: GITHUB_TOKEN and GITHUB_REPOSITORY must be set"];;
     exit 1%Z
   else ret tt);;
  console Log [T "Repository: "; V (default [] (GITHUB_REPOSITORY cfg))];;
  console Log [T "Project Number: "; I (PROJECT_NUMBER cfg); nl];;
  let* existingFingerprints := fetchExistingTodoIssues in
  console Log [nl; T "Scanning repository for TODO comments..."];;
  let* allTodos := scanDirectory tree in
  console Log [T "Found "; I (Z.of_nat (length allTodos));
               T " TODO comments in total"; nl];;
  let* createdCount :=
    createLoop (ownerOf (default [] (GITHUB_REPOSITORY cfg)))
      (PROJECT_NUMBER cfg) existingFingerprints allTodos 0 in
  console Log [nl; T "=== Summary ==="];;
  console Log [T "Total TODOs found: "; I (Z.of_nat (length allTodos))];;
  console Log [T "New issues created: "; I (Z.of_nat createdCount)];;
  console Log [T "Skipped (already exist): ";
               I (Z.of_nat (length allTodos) - Z.of_nat createdCount)].

(** The script as a process: [main().catch(...)]. *)
Definition run (cfg : config) (tree : list entry) (w : world)
    : world * list event * Z :=
  catchFatal (main cfg tree w).

End Https.

(** ** The script on the Octokit client *)

Module Octo.

Definition EXCLUDED_DIRS : list jsstr :=
  [lit ".git"; lit ".github"; lit ".circleci"; lit ".cursor"; lit ".vscode";
   lit ".idea"; lit ".wrangler"; lit "node_modules"; lit "vendor";
   lit "build"; lit "dist"; lit "out"; lit "coverage"; lit ".next";
   lit "bin"; lit "git_hooks"; lit "infra"].

Record todo := Todo {
  filePath : jsstr;
  text : jsstr;
  lineNumber : nat
}.

(** The callback of [lines.forEach] in [scanForTodos]. *)
Definition todoOfLine (relativePath : jsstr) (index : nat) (line : jsstr)
    : option todo :=
  y ← exec false todoReOcto line;
  cap ← capture 1 y;
  Some (Todo relativePath (trim cap) (index + 1)).

Definition todosOfContent (relativePath content : jsstr) : list todo :=
  omap (fun il => todoOfLine relativePath (fst il) (snd il))
       (imap pair (split_lines content)).

Definition readTodos (relativePath : jsstr) (r : readResult) : M (list todo) :=
  match r with
  | Content content => ret (todosOfContent relativePath content)
  | ReadError code message =>
      (if bool_decide (code = lit "EISDIR") then ret tt
       else console Warn [T "Warning: Could not read file "; V relativePath;
                          T ": "; V message]);;
      ret []
  end.

(** One entry of the listing of a directory whose relative path is
    [rel]; a directory that cannot be listed is logged and contributes
    nothing. *)
Fixpoint scanEntry (rel : jsstr) (e : entry) : M (list todo) :=
  match e with
  | File name r => readTodos (relJoin rel name) r
  | Dir name readable entries =>
      if bool_decide (name ∈ EXCLUDED_DIRS) then ret []
      else if readable then
        (fix scanEntries (es : list entry) : M (list todo) :=
           match es with
           | [] => ret []
           | e' :: es' =>
               let* a := scanEntry (relJoin rel name) e' in
               let* b := scanEntries es' in
               ret (a ++ b)
           end) entries
      else
        console Err [T "Error scanning directory "; V (relJoin rel name)];;
        ret []
  | Other _ => ret []
  end.

Fixpoint scanForTodos (entries : list entry) : M (list todo) :=
  match entries with
  | [] => ret []
  | e :: es =>
      let* a := scanEntry [] e in
      let* b := scanForTodos es in
      ret (a ++ b)
  end.

Definition generateFingerprint (filePath todoText : jsstr) : jsstr :=
  filePath ++ lit "|" ++ todoText.

(** The [for await] loop over the pages of [octokit.paginate.iterator]:
    one request per page, as long as the response links to a next
    page. *)
Fixpoint pagesLoop (fuel : nat) (page : nat) (acc : gset jsstr)
    : M (gset jsstr) :=
  match fuel with
  | O => ret acc
  | S fuel' =>
      let* resp := remoteList page in
      let acc' := addFingerprints (fst resp) acc in
      if snd resp : bool then pagesLoop fuel' (S page) acc' else ret acc'
  end.

(** The iterator stops by itself; the number of issues of the tracker
    bounds the number of pages it can be asked for. *)
Definition fetchExistingTodoIssues : M (gset jsstr) := fun w =>
  tryCatch (pagesLoop (S (length (issues w))) 1 ∅)
    (fun e =>
       console Err (T "Error fetching existing issues: " :: e);;
       throw e) w.

Definition issueBody (t : todo) (fingerprint : jsstr) : jsstr :=
  lit "**File:** `" ++ filePath t ++ lit "`" ++ [10; 10]
  ++ lit "**TODO:**" ++ [10]
  ++ text t ++ [10; 10]
  ++ lit "---" ++ [10]
  ++ lit "**CI_METADATA**" ++ [10]
  ++ lit "```" ++ [10]
  ++ lit "fingerprint=" ++ fingerprint ++ [10]
  ++ lit "```" ++ [10].

Definition createIssue (t : todo) (fingerprint : jsstr) : M issue :=
  let title := lit "TODO: " ++ text t in
  tryCatch
    (let* i := remoteCreate title (issueBody t fingerprint) ISSUE_LABELS in
     console Log [T "Created issue #"; I (Z.of_N (number i)); T ": "; V title];;
     ret i)
    (fun e =>
       console Err ([T "Error creating issue for TODO "; quote; V (text t);
                     quote; T ": "] ++ e);;
       throw e).

Definition getProjectId : M jsstr :=
  tryCatch
    (let* p := remoteProject Viewer in
     match p with
     | Some id => ret id
     | None => throw [T "Cannot read properties of null (reading 'id')"]
     end)
    (fun e =>
       console Err (T "Error fetching project ID: " :: e);;
       throw e).

Definition addIssueToProject (projectNumber : Z) (projectId issueNodeId : jsstr)
    : M unit :=
  tryCatch
    (remoteAddItem projectId issueNodeId;;
     console Log [T "  Added to project #"; I projectNumber])
    (fun e => console Err (T "Error adding issue to project: " :: e)).

(** Step 3 of [main]: [todos.filter(...)]. *)
Definition newTodosOf (existingFingerprints : gset jsstr) (todos : list todo)
    : list todo :=
  List.filter
    (fun t => negb (bool_decide
       (generateFingerprint (filePath t) (text t) ∈ existingFingerprints)))
    todos.

(** Step 5 of [main]: the loop over [newTodos], with [createdCount]. *)
Fixpoint createLoop (projectNumber : Z) (projectId : option jsstr)
    (newTodos : list todo) (createdCount : nat) : M nat :=
  match newTodos with
  | [] => ret createdCount
  | t :: rest =>
      let fingerprint := generateFingerprint (filePath t) (text t) in
      let* createdCount' :=
        tryCatch
          (let* i := createIssue t fingerprint in
           (match projectId with
            | Some id =>
                if truthy id && truthy (node_id i)
                then addIssueToProject projectNumber id (node_id i)
                else ret tt
            | None => ret tt
            end);;
           ret (S createdCount))
          (fun _ =>
             console Err [T "Failed to process TODO: "; V (text t)];;
             ret createdCount) in
      createLoop projectNumber projectId rest createdCount'
  end.

(** The [try] block of step 4 of [main]: [projectId] stays undefined
    when the project cannot be resolved. *)
Definition resolveProject : M (option jsstr) :=
  tryCatch
    (let* id := getProjectId in
     console Log [T "Project ID: "; V id; nl];;
     ret (Some id))
    (fun _ =>
       console Warn [T "Warning: Could not fetch project ID. Issues will be created but not added to project."; nl];;
       ret None).

Definition main (cfg : config) (tree : list entry) : M unit :=
  console Log [T "TODO to GitHub Issues CI Bot"];;
  console Log [T "================================"; nl];;
  (if unset (GITHUB_TOKEN cfg) then
     console Err [T "Error: GITHUB_TOKEN environment variable is required"];;
     exit 1%Z
   else ret tt);;
  (if unset (GITHUB_REPOSITORY cfg) then
     console Err [T "Error: GITHUB_REPOSITORY environment variable is required"];;
     exit 1%Z
   else ret tt);;
  console Log [T "Scanning repository"; nl];;
  console Log [T "Step 1: Scanning for TODO comments..."];;
  let* todos := scanForTodos tree in
  console Log [T "Found "; I (Z.of_nat (length todos)); T " TODO(s)"; nl];;
  if Nat.eqb (length todos) 0 then
    console Log [T "No TODOs found. Exiting."]
  else
    console Log [T "Step 2: Fetching existing TODO issues from GitHub..."];;
    let* existingFingerprints := fetchExistingTodoIssues in
    console Log [T "Found "; I (Z.of_nat (size existingFingerprints));
                 T " existing TODO issue(s)"; nl];;
    console Log [T "Step 3: Identifying new TODOs..."];;
    let newTodos := newTodosOf existingFingerprints todos in
    console Log [T "Found "; I (Z.of_nat (length newTodos));
                 T " new TODO(s) to create"; nl];;
    if Nat.eqb (length newTodos) 0 then
      console Log [T "No new TODOs to create. Exiting."]
    else
      console Log [T "Step 4: Fetching GitHub Project information..."];;
      let* projectId := resolveProject in
      console Log [T "Step 5: Creating GitHub issues..."];;
      let* createdCount :=
        createLoop (PROJECT_NUMBER cfg) projectId newTodos 0 in
      console Log [nl; T "Complete! Created "; I (Z.of_nat createdCount);
                   T " new issue(s)"].

(** The script as a process: [main().catch(...)]. *)
Definition run (cfg : config) (tree : list entry) (w : world)
    : world * list event * Z :=
  catchFatal (main cfg tree w).

End Octo.

(** ** Reading a trace *)

Definition trace {A} (x : world * list event * A) : list event := snd (fst x).
Definition final {A} (x : world * list event * A) : world := fst (fst x).
Definition outcome {A} (x : world * list event * A) : A := snd x.

(** The record-creation calls of a trace: title, body and outcome. *)
Definition createCalls (tr : list event) : list (jsstr * jsstr * bool) :=
  omap (fun e => match e with
                 | CreateIssue ttl bdy _ ok => Some (ttl, bdy, ok)
                 | _ => None
                 end) tr.

Definition isCreate (e : event) : bool :=
  match e with CreateIssue _ _ _ _ => true | _ => false end.

Definition isList (e : event) : bool :=
  match e with ListIssues _ _ => true | _ => false end.

Definition isFailedList (e : event) : bool :=
  match e with ListIssues _ false => true | _ => false end.

Definition isConsole (e : event) : bool :=
  match e with Console _ _ => true | _ => false end.

(** Every event a computation emits, from any world, is of kind [P]. *)
Definition emits {A} (P : event -> bool) (m : M A) : Prop :=
  forall w, Forall (fun e => P e = true) (trace (m w)).

(** The computation never leaves through [process.exit]. *)
Definition noExit {A} (m : M A) : Prop :=
  forall w c, outcome (m w) <> Exit c.

(** The computation always returns normally. *)
Definition returns {A} (m : M A) : Prop :=
  forall w, exists a, outcome (m w) = Ret a.

(** The texts named by the per-item error lines of [main], per script. *)
Definition Octo_failedItems (tr : list event) : list jsstr :=
  omap (fun e => match e with
                 | Console Err [T s; V x] =>
                     if String.eqb s "Failed to process TODO: " then Some x
                     else None
                 | _ => None
                 end) tr.

Definition Https_failedItems (tr : list event) : list jsstr :=
  omap (fun e => match e with
                 | Console Err (T s :: V _ :: V x :: V _ :: T _ :: _) =>
                     if String.eqb s "Error creating issue for " then Some x
                     else None
                 | _ => None
                 end) tr.

(** Title and body of the creation call each script makes for a todo. *)
Definition Octo_call (t : Octo.todo) : jsstr * jsstr :=
  (lit "TODO: " ++ Octo.text t,
   Octo.issueBody t (Octo.generateFingerprint (Octo.filePath t) (Octo.text t))).

Definition Https_call (t : Https.todo) : jsstr * jsstr :=
  (lit "TODO: " ++ Https.text t,
   Https.issueBody (Https.filePath t) (Https.fingerprint t)).

Definition succeeded (call : jsstr * jsstr * bool) : bool := snd call.

(** The elements of [l] whose flag in [oks] is [false]. *)
Definition failedOf {A} (l : list A) (oks : list bool) : list A :=
  omap (fun p => if snd p : bool then None else Some (fst p)) (zip l oks).

Definition countTrue (oks : list bool) : nat :=
  length (List.filter (fun b => b) oks).

(** An event that is neither a listing, nor a creation call, nor a
    per-item error line of the HTTPS script. *)
Definition quiet (e : event) : bool :=
  match createCalls [e], Https_failedItems [e], isList e with
  | [], [], false => true
  | _, _, _ => false
  end.

(** The todos the loop of the HTTPS script does not skip. *)
Definition Https_newTodosOf (existingFingerprints : gset jsstr)
    (allTodos : list Https.todo) : list Https.todo :=
  List.filter
    (fun t => negb (bool_decide (Https.fingerprint t ∈ existingFingerprints)))
    allTodos.

(** ** The stages of a run

    [L lt n] says that [lt] is the trace of the creation loop and [n]
    the counts of the run; [S n] is the summary printed for them. *)

Section Stages.
Variable C : Type.
Variable L : list event -> C -> Prop.
Variable S : C -> list event.

(** The run stopped before the creation loop. *)
Definition earlyStop (tr : list event) (r : result unit) : Prop :=
  Forall (fun e => isCreate e = false) tr
  /\ (Exists (fun e => isFailedList e = true) tr -> exists e, r = Throw e)
  /\ (forall c, r = Exit c -> c = 1%Z).

(** The run went through the creation loop and printed its summary;
    what precedes the loop holds a successful listing, no failed one
    and no creation call. *)
Definition creationStage (tr : list event) (r : result unit) : Prop :=
  exists pre lt count,
    tr = pre ++ lt ++ S count
    /\ r = Ret tt
    /\ L lt count
    /\ Forall (fun e => isCreate e = false) pre
    /\ Forall (fun e => isFailedList e = false) pre
    /\ (exists p, ListIssues p true ∈ pre).

Definition runStage (tr : list event) (r : result unit) : Prop :=
  earlyStop tr r \/ creationStage tr r.

(** The same for what follows a successful read of the remote state. *)
Definition afterFetch (tr : list event) (r : result unit) : Prop :=
  (Forall (fun e => isCreate e = false) tr
   /\ Forall (fun e => isList e = false) tr
   /\ (forall c, r <> Exit c))
  \/ (exists pre lt count,
        tr = pre ++ lt ++ S count
        /\ r = Ret tt
        /\ L lt count
        /\ Forall (fun e => isCreate e = false) pre
        /\ Forall (fun e => isList e = false) pre).

End Stages.
Arguments earlyStop : clear implicits.
Arguments creationStage {C} L S tr r.
Arguments runStage {C} L S tr r.
Arguments afterFetch {C} L S tr r.

(** Neither a creation call nor a listing. *)
Definition silent (e : event) : bool := negb (isCreate e) && negb (isList e).

Definition Octo_summary (count : nat) : list event :=
  [Console Log [nl; T "Complete! Created "; I (Z.of_nat count);
                T " new issue(s)"]].

Definition Https_summary (counts : nat * nat) : list event :=
  [Console Log [nl; T "=== Summary ==="];
   Console Log [T "Total TODOs found: "; I (Z.of_nat (fst counts))];
   Console Log [T "New issues created: "; I (Z.of_nat (snd counts))];
   Console Log [T "Skipped (already exist): ";
                I (Z.of_nat (fst counts) - Z.of_nat (snd counts))]].

(** The trace and count of the loop of each script, on the todos the
    reconciliation leaves. *)
Definition Octo_loop (cfg : config) (lt : list event) (count : nat) : Prop :=
  exists pid E todos w,
    lt = trace (Octo.createLoop (PROJECT_NUMBER cfg) pid
                  (Octo.newTodosOf E todos) 0 w)
    /\ outcome (Octo.createLoop (PROJECT_NUMBER cfg) pid
                  (Octo.newTodosOf E todos) 0 w) = Ret count.

Definition Https_loop (cfg : config) (lt : list event) (counts : nat * nat)
    : Prop :=
  exists E allTodos w,
    fst counts = length allTodos
    /\ lt = trace (Https.createLoop (ownerOf (default [] (GITHUB_REPOSITORY cfg)))
                  (PROJECT_NUMBER cfg) E allTodos 0 w)
    /\ outcome (Https.createLoop (ownerOf (default [] (GITHUB_REPOSITORY cfg)))
                  (PROJECT_NUMBER cfg) E allTodos 0 w) = Ret (snd counts).

(** Every creation call of the trace comes after a successful listing,
    with no failed listing before it and no listing after it; and a
    trace with a failed listing has no creation call and ends with a
    non-zero exit code. *)
Definition readBeforeCreate (tr : list event) (code : Z) : Prop :=
  (forall pre e post, tr = pre ++ e :: post -> isCreate e = true ->
     (exists p, ListIssues p true ∈ pre)
     /\ Forall (fun e' => isFailedList e' = false) pre
     /\ Forall (fun e' => isList e' = false) post)
  /\ (Exists (fun e => isFailedList e = true) tr ->
      code <> 0%Z /\ Forall (fun e => isCreate e = false) tr).

(** ** Sample inputs *)

Definition sampleConfig : config :=
  Config (Some (lit "token")) (Some (lit "octocat/hello")) 15.

(** A tracker with no issue and no project, where every call succeeds. *)
Definition emptyWorld : world :=
  World [] None None None [] (fun n => lit "I_node") [].

(** The same tracker when the third remote call fails. *)
Definition thirdCallFails : world :=
  World [] None None None [] (fun n => lit "I_node")
    [Fine; Fine; Fails (lit "Validation Failed")].

(** The same tracker when the first remote call fails. *)
Definition firstCallFails : world :=
  World [] None None None [] (fun n => lit "I_node")
    [Fails (lit "Bad credentials")].

(** The source tree of the example scenario of the specification. *)
Definition twoFiles : list entry :=
  [File (lit "a.txt") (Content (lit "one" ++ [10] ++ lit "two" ++ [10]
                                  ++ lit "// TODO: fix auth"));
   File (lit "b.txt") (Content (lit "# TODO: fix auth"))].

(** One file with the same annotation on two lines. *)
Definition repeatedTodo : list entry :=
  [File (lit "a.js") (Content (lit "// TODO: fix" ++ [10] ++ lit "// TODO: fix"))].

(** The open records of a tracker whose marker reads as a given identity. *)
Definition recordsBearing (i : jsstr) (w : world) : list issue :=
  filter (fun r => extractFingerprint (body r) = Some i) (openTodoIssues w).

(** A file whose annotation quotes the marker key. *)
Definition markerInText : list entry :=
  [File (lit "a.js") (Content (lit "// TODO: see fingerprint=abc"))].

(** A file whose name contains the marker key. *)
Definition markerInPath : list entry :=
  [File (lit "fingerprint=1.txt") (Content (lit "// TODO: fix"))].

(** A file whose name starts with a space. *)
Definition spaceInPath : list entry :=
  [File (lit " a.js") (Content (lit "// TODO: fix"))].

(** A single annotation. *)
Definition oneTodo : list entry :=
  [File (lit "a.js") (Content (lit "// TODO: fix"))].

(** The marked record number [n]: its identity ends with the code unit
    [1000 + n]. *)
Definition markedIdentity (n : nat) : jsstr :=
  lit "f.js|item " ++ [1000 + N.of_nat n].

Definition markedRecord (n : nat) : issue :=
  Issue (N.of_nat n) (lit "I_node") (lit "TODO: item")
    (Some (lit "**CI_METADATA**" ++ [10] ++ lit "fingerprint="
           ++ markedIdentity n ++ [10]))
    [lit "engineering"; lit "todo"] true.

(** A tracker with 101 open marked records. *)
Definition crowdedWorld : world :=
  World (map markedRecord (seq 0 101)) None None None []
    (fun n => lit "I_node") [].

(** The set a computation returned, empty when it did not return. *)
Definition returned (x : world * list event * result (gset jsstr)) : gset jsstr :=
  match outcome x with
  | Ret E => E
  | _ => ∅
  end.

(** ** What a pattern matches

    Two readings of a pattern that ignore the order in which the
    matcher tries the alternatives: [accepts] relates an input to what
    a match leaves of it, [sem] does the same on match states and
    follows the captures. *)

(** Zero or more steps of [R], each of which shortens its subject. *)
Inductive iter {X : Type} (R : X -> X -> Prop) (size : X -> nat) : X -> X -> Prop :=
| iter_stop x : iter R size x x
| iter_more x y z :
    R x y -> (size y < size x)%nat -> iter R size y z -> iter R size x z.

Fixpoint accepts (ignoreCase : bool) (r : regex) (s s' : jsstr) : Prop :=
  match r with
  | Empty => s' = s
  | Lit ch =>
      exists a, s = a :: s'
                /\ canonicalize ignoreCase a = canonicalize ignoreCase ch
  | Cls k => exists a, s = a :: s' /\ inClass k a = true
  | Seq r1 r2 =>
      exists s1, accepts ignoreCase r1 s s1 /\ accepts ignoreCase r2 s1 s'
  | Alt r1 r2 => accepts ignoreCase r1 s s' \/ accepts ignoreCase r2 s s'
  | Star _ r => iter (accepts ignoreCase r) length s s'
  | Plus _ r =>
      exists s1, accepts ignoreCase r s s1
                 /\ iter (accepts ignoreCase r) length s1 s'
  | Group _ r => accepts ignoreCase r s s'
  | Ahead r => s' = s /\ exists s2, accepts ignoreCase r s s2
  | Eoi => s = [] /\ s' = []
  end.

Fixpoint sem (ignoreCase : bool) (r : regex) (x y : mstate) : Prop :=
  match r with
  | Empty => y = x
  | Lit ch =>
      exists a, rest x = a :: rest y
                /\ canonicalize ignoreCase a = canonicalize ignoreCase ch
                /\ caps y = caps x
  | Cls k =>
      exists a, rest x = a :: rest y /\ inClass k a = true /\ caps y = caps x
  | Seq r1 r2 => exists y1, sem ignoreCase r1 x y1 /\ sem ignoreCase r2 y1 y
  | Alt r1 r2 => sem ignoreCase r1 x y \/ sem ignoreCase r2 x y
  | Star _ r => iter (sem ignoreCase r) (fun z => length (rest z)) x y
  | Plus _ r =>
      exists y1, sem ignoreCase r x y1
                 /\ iter (sem ignoreCase r) (fun z => length (rest z)) y1 y
  | Group n r =>
      exists y0, sem ignoreCase r x y0
                 /\ y = MState (rest y0)
                        (<[n := take (length (rest x) - length (rest y0)) (rest x)]>
                           (caps y0))
  | Ahead r => exists y0, sem ignoreCase r x y0 /\ y = MState (rest x) (caps y0)
  | Eoi => rest x = [] /\ y = x
  end.

(** A continuation that succeeds on every state whose rest is in [c']. *)
Definition succeedsOn (c : cont) (c' : jsstr -> Prop) : Prop :=
  forall y, c' (rest y) -> is_Some (c y).

(** ** TODO markers, in words *)

(** The four comment openers. *)
Definition isOpener (d : jsstr) : Prop :=
  d = lit "//" \/ d = lit "#" \/ d = lit "<!--" \/ d = lit "/*".

(** What may follow the captured text: the end of the line, or a markup
    or block comment closer. *)
Definition closes (post : jsstr) : Prop :=
  post = [] \/ (exists q, post = lit "-->" ++ q) \/ (exists q, post = lit "*/" ++ q).

Definition asciiUpper (c : char) : char :=
  if (97 <=? c) && (c <=? 122) then c - 32 else c.

Definition sameIgnoringCase (a b : jsstr) : Prop :=
  map asciiUpper a = map asciiUpper b.

Definition blank (ws : jsstr) : Prop :=
  Forall (fun c => isWhiteSpace c = true) ws.

(** A non-empty run of characters none of which ends a line. *)
Definition oneLine (cap : jsstr) : Prop :=
  cap <> [] /\ Forall (fun c => isLineTerminator c = false) cap.

(** [line] holds a marker of the HTTPS script that captures [cap]: a
    comment opener, optional white space, "TODO:" in any case, optional
    white space, then [cap] up to a closer or the end of the line. *)
Definition marksHttps (line cap : jsstr) : Prop :=
  exists pre d ws1 kw ws2 post,
    line = pre ++ d ++ ws1 ++ kw ++ ws2 ++ cap ++ post
    /\ isOpener d /\ blank ws1 /\ sameIgnoringCase kw (lit "TODO:")
    /\ blank ws2 /\ oneLine cap /\ closes post.

(** [line] holds a marker of the Octokit script that captures [cap]:
    "TODO:" as written, optional white space, then [cap]. *)
Definition marksOcto (line cap : jsstr) : Prop :=
  exists pre ws post,
    line = pre ++ lit "TODO:" ++ ws ++ cap ++ post
    /\ blank ws /\ oneLine cap.

(** Neither the first nor the last character is white space. *)
Definition trimmed (s : jsstr) : Prop :=
  (forall c, head s = Some c -> isWhiteSpace c = false)
  /\ (forall c, last s = Some c -> isWhiteSpace c = false).

(** ** Records on the tracker *)

(** Title and body of the records of a tracker, newest first. *)
Definition records (w : world) : list (jsstr * option jsstr) :=
  map (fun i => (title i, body i)) (issues w).

(** Title and body of the records the successful creation calls of a
    trace made, in the order of the calls. *)
Definition created (tr : list event) : list (jsstr * option jsstr) :=
  omap (fun e => match e with
                 | CreateIssue ttl bdy _ true => Some (ttl, Some bdy)
                 | _ => None
                 end) tr.

(** The computation leaves on the tracker what was there, under the
    records its successful creation calls made: nothing is retracted. *)
Definition tracks {A} (m : M A) : Prop :=
  forall w, records (final (m w)) = rev (created (trace (m w))) ++ records w.

(** The tracker of the example scenario: one open record for the
    annotation of [a.txt]. *)
Definition oneRecord : world :=
  World [Issue 1 (lit "I_node") (lit "TODO: fix auth")
           (Some (Https.issueBody (lit "a.txt") (lit "a.txt|fix auth")))
           [lit "engineering"; lit "todo"] true]
    None None None [] (fun n => lit "I_node") [].

(** The same tracker with a project under the user. *)
Definition oneRecordWithProject : world :=
  World [Issue 1 (lit "I_node") (lit "TODO: fix auth")
           (Some (Https.issueBody (lit "a.txt") (lit "a.txt|fix auth")))
           [lit "engineering"; lit "todo"] true]
    (Some (lit "PVT_1")) None (Some (lit "PVT_1")) [] (fun n => lit "I_node") [].

(** ** The walk, in words *)

(** [located excluded rel e p r]: below the entry [e] of a directory
    whose relative path is [rel], the walk reaches a file of relative
    path [p] whose reading gives [r], through directories that can be
    listed and whose names are not in [excluded]. *)
Inductive located (excluded : list jsstr) : jsstr -> entry -> jsstr -> readResult -> Prop :=
| located_file rel name r :
    located excluded rel (File name r) (relJoin rel name) r
| located_dir rel name entries e p r :
    name ∉ excluded -> e ∈ entries ->
    located excluded (relJoin rel name) e p r ->
    located excluded rel (Dir name true entries) p r.

(** The same from the root of the tree. *)
Definition locatedIn (excluded : list jsstr) (tree : list entry)
    (p : jsstr) (r : readResult) : Prop :=
  exists e, e ∈ tree /\ located excluded [] e p r.

(** Every directory the walk enters below [e] can be listed. *)
Fixpoint walkable (excluded : list jsstr) (e : entry) : bool :=
  match e with
  | File _ _ => true
  | Dir name readable entries =>
      bool_decide (name ∈ excluded)
      || (readable && forallb (walkable excluded) entries)
  | Other _ => true
  end.

(** The value a computation returned, [d] when it did not return. *)
Definition valueOr {A} (d : A) (x : world * list event * result A) : A :=
  match outcome x with
  | Ret a => a
  | _ => d
  end.

(** The annotation [t] comes from a line of a readable file that the
    walk reaches below [e]. *)
Definition OctoFound (rel : jsstr) (e : entry) (t : Octo.todo) : Prop :=
  exists p content,
    located Octo.EXCLUDED_DIRS rel e p (Content content)
    /\ t ∈ Octo.todosOfContent p content.

Definition HttpsFound (rel : jsstr) (e : entry) (t : Https.todo) : Prop :=
  exists p content,
    located Https.EXCLUDED_DIRS rel e p (Content content)
    /\ t ∈ Https.todosOfContent p content.

(** The outcome of a walk of the HTTPS script: the annotations found,
    or an exception when a directory on the way cannot be listed. *)
Definition HttpsWalk (ok : bool) (found : Https.todo -> Prop)
    (x : world * list event * result (list Https.todo)) : Prop :=
  if ok then exists l, outcome x = Ret l /\ forall t, t ∈ l <-> found t
  else exists err, outcome x = Throw err.

(** A tree with an excluded directory, a directory that cannot be
    listed inside it, and a file that cannot be read. *)
Definition mixedTree : list entry :=
  [File (lit "a.txt") (Content (lit "// TODO: fix auth"));
   File (lit "logo.png") (ReadError (lit "EACCES") (lit "permission denied"));
   Dir (lit "src") true
     [Dir (lit "node_modules") true
        [Dir (lit "dep") false [];
         File (lit "index.js") (Content (lit "// TODO: upstream"))];
      File (lit "main.js") (Content (lit "run()" ++ [10] ++ lit "// TODO: tidy"))]].

(** A tree with a directory that cannot be listed on the way. *)
Definition lockedTree : list entry :=
  [File (lit "a.txt") (Content (lit "// TODO: fix auth"));
   Dir (lit "src") true [Dir (lit "secret") false []]].

(** [s] holds the marker key followed by the text [cap] on one line. *)
Definition marked (s cap : jsstr) : Prop :=
  exists pre post, s = pre ++ lit "fingerprint=" ++ cap ++ post /\ oneLine cap.

(** Two worlds with the same tracker and projects: they differ at most
    in the outcomes left for the coming calls. *)
Definition sameRemote (w w' : world) : Prop :=
  issues w' = issues w /\ items w' = items w
  /\ userProject w' = userProject w /\ orgProject w' = orgProject w
  /\ viewerProject w' = viewerProject w.

(** The computation changes nothing on the remote side. *)
Definition readOnly {A} (m : M A) : Prop :=
  forall w, sameRemote w (final (m w)).

Definition isRemote (e : event) : bool :=
  match e with
  | Console _ _ | Sleep _ => false
  | _ => true
  end.

(** What [main] of the Octokit script does after the scan, from the
    test on the number of annotations on, and what it does after the
    read of the tracker. *)
Definition Octo_afterFetch (cfg : config) (todos : list Octo.todo)
    (existingFingerprints : gset jsstr) : M unit :=
  console Log [T "Found "; I (Z.of_nat (size existingFingerprints));
               T " existing TODO issue(s)"; nl];;
  console Log [T "Step 3: Identifying new TODOs..."];;
  let newTodos := Octo.newTodosOf existingFingerprints todos in
  console Log [T "Found "; I (Z.of_nat (length newTodos));
               T " new TODO(s) to create"; nl];;
  if Nat.eqb (length newTodos) 0 then
    console Log [T "No new TODOs to create. Exiting."]
  else
    console Log [T "Step 4: Fetching GitHub Project information..."];;
    let* projectId := Octo.resolveProject in
    console Log [T "Step 5: Creating GitHub issues..."];;
    let* createdCount :=
      Octo.createLoop (PROJECT_NUMBER cfg) projectId newTodos 0 in
    console Log [nl; T "Complete! Created "; I (Z.of_nat createdCount);
                 T " new issue(s)"].

Definition Octo_afterScan (cfg : config) (todos : list Octo.todo) : M unit :=
  if Nat.eqb (length todos) 0 then
    console Log [T "No TODOs found. Exiting."]
  else
    console Log [T "Step 2: Fetching existing TODO issues from GitHub..."];;
    let* existingFingerprints := Octo.fetchExistingTodoIssues in
    Octo_afterFetch cfg todos existingFingerprints.


(** ** Attaching a record to a project *)

(** The pairs (project, record) that the successful attachment calls of
    a trace added, in the order of the calls. *)
Definition attached (tr : list event) : list (jsstr * jsstr) :=
  omap (fun e => match e with
                 | AddItem p c true => Some (p, c)
                 | _ => None
                 end) tr.

(** The project an owner kind resolves to, when its id is a non-empty
    string. *)
Definition usable (p : option jsstr) : option jsstr :=
  match p with
  | Some id => if truthy id then Some id else None
  | None => None
  end.

Definition projectOf (k : ownerKind) (w : world) : option jsstr :=
  match k with
  | User => userProject w
  | Organization => orgProject w
  | Viewer => viewerProject w
  end.

(** The world once [n] more remote calls have used up their outcomes. *)
Definition laterCalls (n : nat) (w : world) : world :=
  World (issues w) (userProject w) (orgProject w) (viewerProject w)
    (items w) (nodeIdOf w) (drop n (faults w)).

(** ** Reading an identity back *)

(** [s] starts with the key of the marker. *)
Definition keyAt (s : jsstr) : Prop :=
  exists r, s = lit "fingerprint=" ++ r.

(** [s] holds the key of the marker somewhere. *)
Definition holdsKey (s : jsstr) : Prop :=
  exists a b, s = a ++ lit "fingerprint=" ++ b.

(** No position of [pre], in front of [post], starts with the key. *)
Definition free (pre post : jsstr) : Prop :=
  forall p1 p2, pre = p1 ++ p2 -> p2 <> [] -> ~ keyAt (p2 ++ post).

(** What follows a captured run of characters: the end of the input or
    a line terminator. *)
Definition lineEnds (post : jsstr) : Prop :=
  match post with
  | [] => True
  | c :: _ => isLineTerminator c = true
  end.

(** A path [p] and a text [t] whose identity keeps its shape on a
    marker line: neither holds a line terminator, the path does not
    start and the text does not end with white space. *)
Definition fitsLine (p t : jsstr) : Prop :=
  Forall (fun c => isLineTerminator c = false) p
  /\ Forall (fun c => isLineTerminator c = false) t
  /\ (forall c, head p = Some c -> isWhiteSpace c = false)
  /\ (forall c, last t = Some c -> isWhiteSpace c = false).

(** A path whose annotations are found again on a later run: it does
    not hold the key of the marker nor a line terminator, and does not
    start with white space. *)
Definition plainPath (p : jsstr) : Prop :=
  ~ holdsKey p
  /\ Forall (fun c => isLineTerminator c = false) p
  /\ (forall c, head p = Some c -> isWhiteSpace c = false).

(** An open record labelled as the scripts label theirs, whose body
    is [b]. *)
Definition tracksBody (b : jsstr) (r : issue) : Prop :=
  body r = Some b /\ labels r = ISSUE_LABELS /\ is_open r = true.

(** An event that is no request, or a listing. *)
Definition listing (e : event) : bool := negb (isRemote e) || isList e.

(** What [main] of the HTTPS script does after the read of the
    tracker. *)
Definition Https_afterFetch (cfg : config) (tree : list entry)
    (existingFingerprints : gset jsstr) : M unit :=
  console Log [nl; T "Scanning repository for TODO comments..."];;
  let* allTodos := Https.scanDirectory tree in
  console Log [T "Found "; I (Z.of_nat (length allTodos));
               T " TODO comments in total"; nl];;
  let* createdCount :=
    Https.createLoop (ownerOf (default [] (GITHUB_REPOSITORY cfg)))
      (PROJECT_NUMBER cfg) existingFingerprints allTodos 0 in
  console Log [nl; T "=== Summary ==="];;
  console Log [T "Total TODOs found: "; I (Z.of_nat (length allTodos))];;
  console Log [T "New issues created: "; I (Z.of_nat createdCount)];;
  console Log [T "Skipped (already exist): ";
               I (Z.of_nat (length allTodos) - Z.of_nat createdCount)].

(** ** The counts of a run *)

(** The todos the loop of the HTTPS script skips as duplicates. *)
Definition Https_duplicates (existingFingerprints : gset jsstr)
    (allTodos : list Https.todo) : list Https.todo :=
  List.filter
    (fun t => bool_decide (Https.fingerprint t ∈ existingFingerprints))
    allTodos.

(** The number of creation calls of a trace that went through. *)
Definition recordsMade (tr : list event) : nat :=
  length (List.filter succeeded (createCalls tr)).

(** ** Requests *)

(** The number of requests of a trace. *)
Definition requests (tr : list event) : nat :=
  length (List.filter isRemote tr).

Definition isSleep (e : event) : bool :=
  match e with Sleep _ => true | _ => false end.

(** The number of pauses of a trace. *)
Definition pauses (tr : list event) : nat :=
  length (List.filter isSleep tr).

(** The computation makes at most [n] requests, from any world. *)
Definition within (n : nat) {A} (m : M A) : Prop :=
  forall w, (requests (trace (m w)) <= n)%nat.

(** The error [addIssueToProject] of the HTTPS script throws. *)
Definition couldNotFind (projectNumber : Z) (owner : jsstr) : error :=
  [T "Could not find project #"; I projectNumber; T " for owner "; quote;
   V owner; quote].

(** A world with a project under the user, in which the query for it
    goes through and the attachment is refused. *)
Definition attachRefused : world :=
  World [] (Some (lit "PVT_1")) None None [] (fun n => lit "I_node")
    [Fine; Refused (lit "Resource not accessible by integration")].

(** A computation that does the same in every world and leaves it as
    it is: it neither reads nor changes the remote state. *)
Definition steady {A} (m : M A) : Prop :=
  exists t r, forall w, m w = (w, t, r).

(** ** The lines of a run *)

(** An event that is no per-item error line of either script. *)
Definition plainEvent (e : event) : bool :=
  match Octo_failedItems [e], Https_failedItems [e] with
  | [], [] => true
  | _, _ => false
  end.

(** What a run of the Octokit script does up to the scan, with its
    result, the list [todos]. *)
Definition Octo_opening (tree : list entry) (w : world)
    (todos : list Octo.todo) : list event :=
  [Console Log [T "TODO to GitHub Issues CI Bot"];
   Console Log [T "================================"; nl];
   Console Log [T "Scanning repository"; nl];
   Console Log [T "Step 1: Scanning for TODO comments..."]]
  ++ trace (Octo.scanForTodos tree w)
  ++ [Console Log [T "Found "; I (Z.of_nat (length todos)); T " TODO(s)"; nl]].

(** What a run of the HTTPS script does up to the read of the tracker. *)
Definition Https_opening (cfg : config) (w : world) : list event :=
  [Console Log [T "=== TODO to GitHub Issue Automation ==="; nl];
   Console Log [T "Repository: "; V (default [] (GITHUB_REPOSITORY cfg))];
   Console Log [T "Project Number: "; I (PROJECT_NUMBER cfg); nl]]
  ++ trace (Https.fetchExistingTodoIssues w).

(** ** The leftmost marker of a line *)

(** No position of [pre], in front of [z], satisfies [P]: in
    [pre ++ z] the leftmost place where [P] holds, if it holds at [z],
    is [z]. *)
Definition leftmost (P : jsstr -> Prop) (pre z : jsstr) : Prop :=
  forall p1 p2, pre = p1 ++ p2 -> p2 <> [] -> ~ P (p2 ++ z).

(** [z] starts with the key of the marker and a character of the same
    line. *)
Definition keyedAt (z : jsstr) : Prop :=
  exists c r, z = lit "fingerprint=" ++ c :: r /\ isLineTerminator c = false.

(** [z] starts with "TODO:" as written, and a character that is no
    line terminator comes after it. *)
Definition Octo_markerAt (z : jsstr) : Prop :=
  exists r, z = lit "TODO:" ++ r
            /\ Exists (fun c => isLineTerminator c = false) r.

(** [z] starts with a comment opener, optional white space and "TODO:"
    in any case, and does not end there. *)
Definition Https_markerAt (z : jsstr) : Prop :=
  exists d ws kw r,
    z = d ++ ws ++ kw ++ r
    /\ isOpener d /\ blank ws /\ sameIgnoringCase kw (lit "TODO:")
    /\ r <> [].

(** The characters of [s] up to its first line terminator. *)
Fixpoint upToLineEnd (s : jsstr) : jsstr :=
  match s with
  | [] => []
  | c :: s' => if isLineTerminator c then [] else c :: upToLineEnd s'
  end.

Definition startsWith (k s : jsstr) : bool :=
  bool_decide (take (length k) s = k).

(** [s] is empty or starts with a markup or block closer. *)
Definition atCloser (s : jsstr) : bool :=
  bool_decide (s = []) || startsWith (lit "-->") s || startsWith (lit "*/") s.

(** The characters of [s] up to its first closer. *)
Fixpoint upToCloser (s : jsstr) : jsstr :=
  match s with
  | [] => []
  | c :: s' => if atCloser s then [] else c :: upToCloser s'
  end.

(** The text of a marker of the Octokit script with [r] after "TODO:":
    from the first character that is no white space to the end of the
    line, trimmed. *)
Definition Octo_textOf (r : jsstr) : jsstr :=
  trim (upToLineEnd (trimStart r)).

(** The text of a marker of the HTTPS script with [r] after "TODO:":
    from the first character that is no white space up to the first
    closer that comes after that character, or to the end, trimmed. *)
Definition Https_textOf (r : jsstr) : jsstr :=
  match trimStart r with
  | [] => []
  | c :: s => trim (c :: upToCloser s)
  end.
(** * Identity *)

(** The fingerprint stored by the HTTPS script is the one the Octokit
    script computes with [generateFingerprint]. *)
Lemma fingerprint_of_line p line t :
  Https.todoOfLine p line = Some t ->
  Https.fingerprint t = Octo.generateFingerprint (Https.filePath t) (Https.text t).
Proof.
  unfold Https.todoOfLine. intros H.
  destruct (exec true todoReHttps line) as [y|]; simpl in H; [|discriminate].
  destruct (capture 1 y) as [cap|]; simpl in H; [|discriminate].
  injection H as <-. reflexivity.
Qed.

(** C3: the identity is a function of path and text, it separates two
    paths under one text and two texts under one path, and the
    fingerprint the HTTPS script stores with an annotation is that
    function of its path and text. *)
Theorem C3_identity_stability :
  (forall p t, Octo.generateFingerprint p t = Octo.generateFingerprint p t)
  /\ (forall p1 p2 t, p1 <> p2 ->
        Octo.generateFingerprint p1 t <> Octo.generateFingerprint p2 t)
  /\ (forall p t1 t2, t1 <> t2 ->
        Octo.generateFingerprint p t1 <> Octo.generateFingerprint p t2)
  /\ (forall p line t,
        Https.todoOfLine p line = Some t ->
        Https.fingerprint t
        = Octo.generateFingerprint (Https.filePath t) (Https.text t)).
Proof.
  unfold Octo.generateFingerprint. split; [reflexivity|]. split; [|split].
  - intros p1 p2 t Hne Heq. apply Hne.
    eapply app_inv_tail, Heq.
  - intros p t1 t2 Hne Heq. apply Hne.
    apply app_inv_head in Heq. simpl in Heq. congruence.
  - apply fingerprint_of_line.
Qed.

Lemma C3_identity_stability_witness :
  Octo.generateFingerprint (lit "a.txt") (lit "fix auth")
    <> Octo.generateFingerprint (lit "b.txt") (lit "fix auth")
  /\ Octo.generateFingerprint (lit "a.txt") (lit "fix auth")
    <> Octo.generateFingerprint (lit "a.txt") (lit "fix it")
  /\ Https.fingerprint
       (Https.Todo (lit "fix auth") (lit "a.txt") (lit "a.txt|fix auth"))
     = Octo.generateFingerprint (lit "a.txt") (lit "fix auth").
Proof.
  destruct C3_identity_stability as (_ & Hp & Ht & Hf). split; [|split].
  - apply Hp. discriminate.
  - apply Ht. discriminate.
  - apply (Hf (lit "a.txt") (lit "// TODO: fix auth")).
    vm_compute. reflexivity.
Defined.

(** * The monad *)

Section Monad.
Context {A B : Type}.

Lemma bind_ret_inv (m : M A) (f : A -> M B) w w' t b :
  bind m f w = (w', t, Ret b) ->
  exists w1 t1 a t2, m w = (w1, t1, Ret a) /\ f a w1 = (w', t2, Ret b)
                     /\ t = t1 ++ t2.
Proof.
  unfold bind. destruct (m w) as [[w1 t1] [a|e|c]]; try discriminate.
  destruct (f a w1) as [[w2 t2] r] eqn:Hf. intros [= -> <- ->].
  exists w1, t1, a, t2. auto.
Qed.

Lemma bind_run (m : M A) (f : A -> M B) w w1 t1 a :
  m w = (w1, t1, Ret a) ->
  bind m f w = (final (f a w1), t1 ++ trace (f a w1), outcome (f a w1)).
Proof.
  unfold bind. intros ->. destruct (f a w1) as [[w2 t2] r]. reflexivity.
Qed.

Lemma bind_throw (m : M A) (f : A -> M B) w w1 t1 e :
  m w = (w1, t1, Throw e) -> bind m f w = (w1, t1, Throw e).
Proof. unfold bind. intros ->. reflexivity. Qed.

Lemma bind_exit (m : M A) (f : A -> M B) w w1 t1 c :
  m w = (w1, t1, Exit c) -> bind m f w = (w1, t1, Exit c).
Proof. unfold bind. intros ->. reflexivity. Qed.

Lemma tryCatch_ret (m : M A) h w w1 t1 a :
  m w = (w1, t1, Ret a) -> tryCatch m h w = (w1, t1, Ret a).
Proof. unfold tryCatch. intros ->. reflexivity. Qed.

Lemma tryCatch_throw (m : M A) h w w1 t1 e :
  m w = (w1, t1, Throw e) ->
  tryCatch m h w = (final (h e w1), t1 ++ trace (h e w1), outcome (h e w1)).
Proof.
  unfold tryCatch. intros ->. destruct (h e w1) as [[w2 t2] r]. reflexivity.
Qed.

Lemma tryCatch_exit (m : M A) h w w1 t1 c :
  m w = (w1, t1, Exit c) -> tryCatch m h w = (w1, t1, Exit c).
Proof. unfold tryCatch. intros ->. reflexivity. Qed.

Variable P : event -> bool.

Lemma emits_ret (a : A) : emits P (ret a).
Proof. intros w. constructor. Qed.

Lemma emits_throw e : emits P (@throw A e).
Proof. intros w. constructor. Qed.

Lemma emits_exit c : emits P (@exit A c).
Proof. intros w. constructor. Qed.

Lemma emits_bind (m : M A) (f : A -> M B) :
  emits P m -> (forall a, emits P (f a)) -> emits P (bind m f).
Proof.
  intros Hm Hf w. specialize (Hm w). unfold bind, trace in *.
  destruct (m w) as [[w1 t1] [a|e|c]]; simpl in *; auto.
  specialize (Hf a w1). unfold trace in Hf.
  destruct (f a w1) as [[w2 t2] r]. simpl in *. apply Forall_app; auto.
Qed.

Lemma emits_tryCatch (m : M A) h :
  emits P m -> (forall e, emits P (h e)) -> emits P (tryCatch m h).
Proof.
  intros Hm Hh w. specialize (Hm w). unfold tryCatch, trace in *.
  destruct (m w) as [[w1 t1] [a|e|c]]; simpl in *; auto.
  specialize (Hh e w1). unfold trace in Hh.
  destruct (h e w1) as [[w2 t2] r]. simpl in *. apply Forall_app; auto.
Qed.

Lemma noExit_bind (m : M A) (f : A -> M B) :
  noExit m -> (forall a, noExit (f a)) -> noExit (bind m f).
Proof.
  intros Hm Hf w c. specialize (Hm w). unfold bind, outcome in *.
  destruct (m w) as [[w1 t1] [a|e|c']]; simpl in *; try congruence.
  - specialize (Hf a w1 c). unfold outcome in Hf.
    destruct (f a w1) as [[w2 t2] r]. simpl in *. exact Hf.
  - exfalso. eapply Hm. reflexivity.
Qed.

Lemma noExit_tryCatch (m : M A) h :
  noExit m -> (forall e, noExit (h e)) -> noExit (tryCatch m h).
Proof.
  intros Hm Hh w c. specialize (Hm w). unfold tryCatch, outcome in *.
  destruct (m w) as [[w1 t1] [a|e|c']]; simpl in *; try congruence.
  specialize (Hh e w1 c). unfold outcome in Hh.
  destruct (h e w1) as [[w2 t2] r]. simpl in *. exact Hh.
Qed.

End Monad.

Lemma emits_emit P e : P e = true -> emits P (emit e).
Proof. intros H w. repeat constructor. exact H. Qed.

Lemma emits_console P l msg : P (Console l msg) = true -> emits P (console l msg).
Proof. apply emits_emit. Qed.

Lemma nextFault_run w :
  exists w1 f, nextFault w = (w1, [], Ret f) /\ issues w1 = issues w
    /\ userProject w1 = userProject w /\ orgProject w1 = orgProject w
    /\ viewerProject w1 = viewerProject w /\ items w1 = items w.
Proof.
  unfold nextFault. destruct (faults w) as [|f fs]; eauto 10.
Qed.

Lemma nextReply_run w :
  exists w1 f, nextReply w = (w1, [], Ret f) /\ issues w1 = issues w
    /\ userProject w1 = userProject w /\ orgProject w1 = orgProject w
    /\ viewerProject w1 = viewerProject w /\ items w1 = items w.
Proof.
  unfold nextReply. destruct (faults w) as [|f fs]; eauto 10.
Qed.

Lemma emits_remoteList P page :
  (forall ok, P (ListIssues page ok) = true) -> emits P (remoteList page).
Proof.
  intros H w. unfold remoteList, trace.
  destruct (nextFault_run w) as (w1 & f & -> & _).
  destruct f; simpl; repeat constructor; apply H.
Qed.

Lemma emits_remoteCreate P ttl bdy lbls :
  (forall ok, P (CreateIssue ttl bdy lbls ok) = true) ->
  emits P (remoteCreate ttl bdy lbls).
Proof.
  intros H w. unfold remoteCreate, trace.
  destruct (nextFault_run w) as (w1 & f & -> & _).
  destruct f; simpl; repeat constructor; apply H.
Qed.

Lemma emits_remoteProject P k :
  (forall ok, P (ProjectQuery k ok) = true) -> emits P (remoteProject k).
Proof.
  intros H w. unfold remoteProject, trace.
  destruct (nextFault_run w) as (w1 & f & -> & _).
  destruct f; simpl; repeat constructor; apply H.
Qed.

Lemma emits_remoteAddItem P p c :
  (forall ok, P (AddItem p c ok) = true) -> emits P (remoteAddItem p c).
Proof.
  intros H w. unfold remoteAddItem, trace.
  destruct (nextFault_run w) as (w1 & f & -> & _).
  destruct f; simpl; repeat constructor; apply H.
Qed.

Lemma emits_remoteProjectRaw P k :
  (forall ok, P (ProjectQuery k ok) = true) -> emits P (remoteProjectRaw k).
Proof.
  intros H w. unfold remoteProjectRaw, trace.
  destruct (nextReply_run w) as (w1 & f & -> & _).
  destruct f; simpl; repeat constructor; apply H.
Qed.

Lemma emits_remoteAddItemRaw P p c :
  (forall ok, P (AddItem p c ok) = true) -> emits P (remoteAddItemRaw p c).
Proof.
  intros H w. unfold remoteAddItemRaw, trace.
  destruct (nextReply_run w) as (w1 & f & -> & _).
  destruct f; simpl; repeat constructor; apply H.
Qed.

(** Decomposes a goal [emits P m] along the structure of [m]. *)
Ltac emits_step :=
  first
    [ apply emits_ret | apply emits_throw | apply emits_exit
    | apply emits_console; reflexivity
    | apply emits_emit; reflexivity
    | apply emits_remoteList; intros; reflexivity
    | apply emits_remoteCreate; intros; reflexivity
    | apply emits_remoteProject; intros; reflexivity
    | apply emits_remoteAddItem; intros; reflexivity
    | apply emits_remoteProjectRaw; intros; reflexivity
    | apply emits_remoteAddItemRaw; intros; reflexivity
    | apply emits_bind; [|intros]
    | apply emits_tryCatch; [|intros]
    | match goal with
      | |- emits _ (if ?b then _ else _) => destruct b
      | |- emits _ (match ?x with _ => _ end) => destruct x
      end
    | assumption ].

Ltac emits_auto := repeat emits_step.

Section Projections.
Context {A B : Type}.

Lemma trace_bind (m : M A) (f : A -> M B) w :
  trace (bind m f w) =
  match outcome (m w) with
  | Ret a => trace (m w) ++ trace (f a (final (m w)))
  | _ => trace (m w)
  end.
Proof.
  unfold bind, trace, outcome, final.
  destruct (m w) as [[w1 t1] [a|e|c]]; simpl; auto.
  destruct (f a w1) as [[w2 t2] r]; reflexivity.
Qed.

Lemma outcome_bind (m : M A) (f : A -> M B) w :
  outcome (bind m f w) =
  match outcome (m w) with
  | Ret a => outcome (f a (final (m w)))
  | Throw e => Throw e
  | Exit c => Exit c
  end.
Proof.
  unfold bind, trace, outcome, final.
  destruct (m w) as [[w1 t1] [a|e|c]]; simpl; auto.
  destruct (f a w1) as [[w2 t2] r]; reflexivity.
Qed.

Lemma final_bind (m : M A) (f : A -> M B) w :
  final (bind m f w) =
  match outcome (m w) with
  | Ret a => final (f a (final (m w)))
  | _ => final (m w)
  end.
Proof.
  unfold bind, trace, outcome, final.
  destruct (m w) as [[w1 t1] [a|e|c]]; simpl; auto.
  destruct (f a w1) as [[w2 t2] r]; reflexivity.
Qed.

Lemma trace_tryCatch (m : M A) h w :
  trace (tryCatch m h w) =
  match outcome (m w) with
  | Throw e => trace (m w) ++ trace (h e (final (m w)))
  | _ => trace (m w)
  end.
Proof.
  unfold tryCatch, trace, outcome, final.
  destruct (m w) as [[w1 t1] [a|e|c]]; simpl; auto.
  destruct (h e w1) as [[w2 t2] r]; reflexivity.
Qed.

Lemma outcome_tryCatch (m : M A) h w :
  outcome (tryCatch m h w) =
  match outcome (m w) with
  | Throw e => outcome (h e (final (m w)))
  | other => other
  end.
Proof.
  unfold tryCatch, trace, outcome, final.
  destruct (m w) as [[w1 t1] [a|e|c]]; simpl; auto.
  destruct (h e w1) as [[w2 t2] r]; reflexivity.
Qed.

Lemma final_tryCatch (m : M A) h w :
  final (tryCatch m h w) =
  match outcome (m w) with
  | Throw e => final (h e (final (m w)))
  | _ => final (m w)
  end.
Proof.
  unfold tryCatch, trace, outcome, final.
  destruct (m w) as [[w1 t1] [a|e|c]]; simpl; auto.
  destruct (h e w1) as [[w2 t2] r]; reflexivity.
Qed.

End Projections.

Lemma surjective_run {A} (x : world * list event * A) :
  x = (final x, trace x, outcome x).
Proof. destruct x as [[? ?] ?]. reflexivity. Qed.

(** Rewrites the three projections of a run through binds and handlers. *)
Ltac run_step :=
  repeat (progress (rewrite ?trace_bind, ?outcome_bind, ?final_bind,
                      ?trace_tryCatch, ?outcome_tryCatch, ?final_tryCatch;
                    cbn [console emit ret throw exit trace outcome final
                         fst snd app])).

(** * The walk over the source tree *)

Lemma entry_nested_ind (P : entry -> Prop) :
  (forall n r, P (File n r)) ->
  (forall n b es, Forall P es -> P (Dir n b es)) ->
  (forall n, P (Other n)) ->
  forall e, P e.
Proof.
  intros HF HD HO. fix IH 1. intros [n r|n b es|n]; [apply HF| |apply HO].
  apply HD. induction es as [|e es IHes]; constructor; [apply IH|exact IHes].
Qed.

Lemma Https_scanEntry_emits P :
  (forall l m, P (Console l m) = true) ->
  forall e rel, emits P (Https.scanEntry rel e).
Proof.
  intros HP e. induction e as [n r|n b es IH|n] using entry_nested_ind;
    intros rel; simpl.
  - destruct r; simpl; [apply emits_ret|].
    apply emits_bind; [|intros; apply emits_ret].
    destruct (bool_decide _); [apply emits_ret|apply emits_console, HP].
  - destruct (bool_decide _); [apply emits_ret|].
    destruct b; [|apply emits_throw].
    induction IH as [|e es He _ IHes]; [apply emits_ret|].
    apply emits_bind; [apply He|intros a].
    apply emits_bind; [apply IHes|intros; apply emits_ret].
  - apply emits_ret.
Qed.

Lemma Https_scanDirectory_emits P :
  (forall l m, P (Console l m) = true) ->
  forall es, emits P (Https.scanDirectory es).
Proof.
  intros HP es. induction es as [|e es IH]; simpl; [apply emits_ret|].
  apply emits_bind; [apply Https_scanEntry_emits, HP|intros a].
  apply emits_bind; [apply IH|intros; apply emits_ret].
Qed.

Lemma Octo_scanEntry_emits P :
  (forall l m, P (Console l m) = true) ->
  forall e rel, emits P (Octo.scanEntry rel e).
Proof.
  intros HP e. induction e as [n r|n b es IH|n] using entry_nested_ind;
    intros rel; simpl.
  - destruct r; simpl; [apply emits_ret|].
    apply emits_bind; [|intros; apply emits_ret].
    destruct (bool_decide _); [apply emits_ret|apply emits_console, HP].
  - destruct (bool_decide _); [apply emits_ret|].
    destruct b.
    + induction IH as [|e es He _ IHes]; [apply emits_ret|].
      apply emits_bind; [apply He|intros a].
      apply emits_bind; [apply IHes|intros; apply emits_ret].
    + apply emits_bind; [apply emits_console, HP|intros; apply emits_ret].
  - apply emits_ret.
Qed.

Lemma Octo_scanForTodos_emits P :
  (forall l m, P (Console l m) = true) ->
  forall es, emits P (Octo.scanForTodos es).
Proof.
  intros HP es. induction es as [|e es IH]; simpl; [apply emits_ret|].
  apply emits_bind; [apply Octo_scanEntry_emits, HP|intros a].
  apply emits_bind; [apply IH|intros; apply emits_ret].
Qed.

(** * Record creation and linking *)

Lemma remoteCreate_cases ttl bdy lbls w :
  (exists w1 e, remoteCreate ttl bdy lbls w
                = (w1, [CreateIssue ttl bdy lbls false], Throw e)
                /\ issues w1 = issues w)
  \/ (exists w1 i, remoteCreate ttl bdy lbls w
                   = (w1, [CreateIssue ttl bdy lbls true], Ret i)
                   /\ issues w1 = i :: issues w
                   /\ title i = ttl /\ body i = Some bdy /\ labels i = lbls
                   /\ is_open i = true).
Proof.
  unfold remoteCreate.
  destruct (nextFault_run w) as (w1 & f & -> & Hi & _).
  destruct f as [msg|]; [left|right].
  - eexists _, _. split; [reflexivity|]. exact Hi.
  - eexists _, _. split; [reflexivity|]. simpl. rewrite Hi. auto 10.
Qed.

Lemma Octo_createIssue_cases t fp w :
  (exists e, trace (Octo.createIssue t fp w)
             = [CreateIssue (lit "TODO: " ++ Octo.text t) (Octo.issueBody t fp)
                  ISSUE_LABELS false;
                Console Err ([T "Error creating issue for TODO "; quote;
                              V (Octo.text t); quote; T ": "] ++ e)]
             /\ outcome (Octo.createIssue t fp w) = Throw e)
  \/ (exists i l, trace (Octo.createIssue t fp w)
             = [CreateIssue (lit "TODO: " ++ Octo.text t) (Octo.issueBody t fp)
                  ISSUE_LABELS true; Console Log l]
             /\ outcome (Octo.createIssue t fp w) = Ret i).
Proof.
  unfold Octo.createIssue.
  destruct (remoteCreate_cases (lit "TODO: " ++ Octo.text t)
              (Octo.issueBody t fp) ISSUE_LABELS w)
    as [(w1 & e & H & _)|(w1 & i & H & _)]; [left|right].
  - exists e. unfold tryCatch, bind. rewrite H. simpl. auto.
  - exists i. eexists. unfold tryCatch, bind. rewrite H. simpl. auto.
Qed.

Lemma Octo_addIssueToProject_returns pn p c w :
  outcome (Octo.addIssueToProject pn p c w) = Ret tt.
Proof.
  unfold Octo.addIssueToProject, remoteAddItem, tryCatch, bind.
  destruct (nextFault_run w) as (w1 & f & -> & _).
  destruct f; reflexivity.
Qed.

Lemma Octo_addIssueToProject_emits P pn p c :
  (forall l m, P (Console l m) = true) ->
  (forall a b ok, P (AddItem a b ok) = true) ->
  emits P (Octo.addIssueToProject pn p c).
Proof.
  intros HC HA. unfold Octo.addIssueToProject.
  apply emits_tryCatch; [|intros; apply emits_console, HC].
  apply emits_bind; [apply emits_remoteAddItem, HA|intros; apply emits_console, HC].
Qed.

Lemma Octo_addIssueToProject_cases pn p c w :
  outcome (Octo.addIssueToProject pn p c w) = Ret tt
  /\ (trace (Octo.addIssueToProject pn p c w)
      = [AddItem p c true; Console Log [T "  Added to project #"; I pn]]
      \/ exists msg, trace (Octo.addIssueToProject pn p c w)
      = [AddItem p c false;
         Console Err [T "Error adding issue to project: "; V msg]]).
Proof.
  unfold Octo.addIssueToProject, remoteAddItem, tryCatch, bind.
  destruct (nextFault_run w) as (w1 & f & -> & _).
  destruct f; simpl; eauto.
Qed.

(** One turn of the loop of the Octokit script: the creation call is
    made, the turn ends normally whatever its outcome, and a failed
    call leaves the count alone and logs the text. *)
Lemma Octo_createLoop_turn pn pid t c w :
  let x := (tryCatch
          (let* i := Octo.createIssue t
                       (Octo.generateFingerprint (Octo.filePath t) (Octo.text t)) in
           (match pid with
            | Some id =>
                if truthy id && truthy (node_id i)
                then Octo.addIssueToProject pn id (node_id i)
                else ret tt
            | None => ret tt
            end);;
           ret (S c))
          (fun _ =>
             console Err [T "Failed to process TODO: "; V (Octo.text t)];;
             ret c)) w in
  exists ok : bool,
    outcome x = Ret (if ok then S c else c)
    /\ createCalls (trace x) = [(Octo_call t, ok)]
    /\ Octo_failedItems (trace x) = (if ok then [] else [Octo.text t])
    /\ Forall (fun e => isList e = false) (trace x).
Proof.
  intros x. subst x. run_step.
  destruct (Octo_createIssue_cases t
              (Octo.generateFingerprint (Octo.filePath t) (Octo.text t)) w)
    as [(e & Ht & Ho)|(i & l & Ht & Ho)]; rewrite Ho, Ht.
  - exists false. simpl. repeat split; repeat constructor.
  - exists true. run_step.
    set (w1 := final (Octo.createIssue _ _ w)). clearbody w1.
    destruct pid as [id|]; [destruct (truthy id && truthy (node_id i))|].
    + destruct (Octo_addIssueToProject_cases pn id (node_id i) w1)
        as [Hr [Hl|[msg Hl]]]; rewrite ?Hr, Hl; simpl;
        repeat split; repeat constructor.
    + simpl. repeat split; repeat constructor.
    + simpl. repeat split; repeat constructor.
Qed.

Lemma createCalls_app t1 t2 :
  createCalls (t1 ++ t2) = createCalls t1 ++ createCalls t2.
Proof. apply omap_app. Qed.

Lemma Octo_failedItems_app t1 t2 :
  Octo_failedItems (t1 ++ t2) = Octo_failedItems t1 ++ Octo_failedItems t2.
Proof. apply omap_app. Qed.

Lemma Https_failedItems_app t1 t2 :
  Https_failedItems (t1 ++ t2) = Https_failedItems t1 ++ Https_failedItems t2.
Proof. apply omap_app. Qed.

(** The whole loop of the Octokit script: it returns, it makes one
    creation call per todo, in order, and it tallies every todo either
    as created or as failed. *)
Lemma Octo_createLoop_spec pn pid todos : forall c w,
  exists oks : list bool,
    length oks = length todos
    /\ outcome (Octo.createLoop pn pid todos c w) = Ret (c + countTrue oks)%nat
    /\ createCalls (trace (Octo.createLoop pn pid todos c w))
       = zip (map Octo_call todos) oks
    /\ Octo_failedItems (trace (Octo.createLoop pn pid todos c w))
       = map Octo.text (failedOf todos oks)
    /\ Forall (fun e => isList e = false)
         (trace (Octo.createLoop pn pid todos c w)).
Proof.
  induction todos as [|t todos IH]; intros c w.
  - exists []. simpl. rewrite Nat.add_0_r. repeat split. constructor.
  - cbn [Octo.createLoop].
    pose proof (Octo_createLoop_turn pn pid t c w) as (ok & Ho & Hc & Hf & Hl).
    cbv zeta in Ho, Hc, Hf, Hl.
    match goal with |- context [bind ?m _ w] => set (turn := m) in * end.
    destruct (turn w) as [[w1 t1] r1] eqn:Hturn.
    cbn [trace outcome fst snd] in Ho, Hc, Hf, Hl. subst r1.
    unfold bind at 1 2 3 4. rewrite Hturn.
    set (c' := if ok then S c else c).
    destruct (IH c' w1) as (oks & Hlen & Ho' & Hc' & Hf' & Hl').
    destruct (Octo.createLoop pn pid todos c' w1) as [[w2 t2] r2].
    cbn [trace outcome fst snd] in *. subst r2.
    exists (ok :: oks). rewrite createCalls_app, Octo_failedItems_app.
    rewrite Hc, Hf, Hc', Hf'. simpl. rewrite Hlen.
    repeat split.
    + f_equal. unfold countTrue, c'. destruct ok; simpl; lia.
    + destruct ok; reflexivity.
    + apply Forall_app; auto.
Qed.

Lemma quiet_trace tr :
  Forall (fun e => quiet e = true) tr ->
  createCalls tr = [] /\ Https_failedItems tr = []
  /\ Forall (fun e => isList e = false) tr.
Proof.
  induction 1 as [|e tr He _ (IH1 & IH2 & IH3)]; [repeat split; constructor|].
  change (e :: tr) with ([e] ++ tr).
  rewrite createCalls_app, Https_failedItems_app, IH1, IH2.
  unfold quiet in He.
  destruct (createCalls [e]); [|discriminate].
  destruct (Https_failedItems [e]); [|discriminate].
  destruct (isList e) eqn:Hl; [discriminate|].
  repeat split. constructor; auto.
Qed.

Lemma Https_createIssue_cases txt fp p w :
  (exists e l, trace (Https.createIssue txt p fp w)
             = [Console Log l;
                CreateIssue (lit "TODO: " ++ txt) (Https.issueBody p fp)
                  [lit "engineering"; lit "todo"] false]
             /\ outcome (Https.createIssue txt p fp w) = Throw e)
  \/ (exists i l l', trace (Https.createIssue txt p fp w)
             = [Console Log l;
                CreateIssue (lit "TODO: " ++ txt) (Https.issueBody p fp)
                  [lit "engineering"; lit "todo"] true; Console Log l']
             /\ outcome (Https.createIssue txt p fp w) = Ret i).
Proof.
  unfold Https.createIssue.
  destruct (remoteCreate_cases (lit "TODO: " ++ txt)
              (Https.issueBody p fp) [lit "engineering"; lit "todo"] w)
    as [(w1 & e & H & _)|(w1 & i & H & _)]; [left|right].
  - exists e. eexists. unfold bind, console, emit. cbv beta iota.
    rewrite H. simpl. auto.
  - exists i. eexists _, _. unfold bind, console, emit. cbv beta iota.
    rewrite H. simpl. auto.
Qed.

Lemma Https_addIssueToProject_quiet owner nid pn :
  emits quiet (Https.addIssueToProject owner nid pn).
Proof.
  unfold Https.addIssueToProject, Https.tryOwner, Https.addItemToProject.
  emits_auto.
Qed.

Lemma noExit_ret {A} (a : A) : noExit (ret a).
Proof. intros w c. discriminate. Qed.

Lemma noExit_throw {A} e : noExit (@throw A e).
Proof. intros w c. discriminate. Qed.

Lemma noExit_console l msg : noExit (console l msg).
Proof. intros w c. discriminate. Qed.

Lemma noExit_emit e : noExit (emit e).
Proof. intros w c. discriminate. Qed.

Lemma noExit_remoteList page : noExit (remoteList page).
Proof.
  intros w c. unfold remoteList.
  destruct (nextFault_run w) as (w1 & f & -> & _). destruct f; discriminate.
Qed.

Lemma noExit_remoteCreate ttl bdy lbls : noExit (remoteCreate ttl bdy lbls).
Proof.
  intros w c. unfold remoteCreate.
  destruct (nextFault_run w) as (w1 & f & -> & _). destruct f; discriminate.
Qed.

Lemma noExit_remoteProject k : noExit (remoteProject k).
Proof.
  intros w c. unfold remoteProject.
  destruct (nextFault_run w) as (w1 & f & -> & _). destruct f; discriminate.
Qed.

Lemma noExit_remoteAddItem p c : noExit (remoteAddItem p c).
Proof.
  intros w c'. unfold remoteAddItem.
  destruct (nextFault_run w) as (w1 & f & -> & _). destruct f; discriminate.
Qed.

Lemma noExit_remoteProjectRaw k : noExit (remoteProjectRaw k).
Proof.
  intros w c. unfold remoteProjectRaw.
  destruct (nextReply_run w) as (w1 & f & -> & _). destruct f; discriminate.
Qed.

Lemma noExit_remoteAddItemRaw p c : noExit (remoteAddItemRaw p c).
Proof.
  intros w c'. unfold remoteAddItemRaw.
  destruct (nextReply_run w) as (w1 & f & -> & _). destruct f; discriminate.
Qed.

(** Decomposes a goal [noExit m] along the structure of [m]. *)
Ltac noExit_step :=
  first
    [ apply noExit_ret | apply noExit_throw | apply noExit_console
    | apply noExit_emit | apply noExit_remoteList | apply noExit_remoteCreate
    | apply noExit_remoteProject | apply noExit_remoteAddItem
    | apply noExit_remoteProjectRaw | apply noExit_remoteAddItemRaw
    | apply noExit_bind; [|intros]
    | apply noExit_tryCatch; [|intros]
    | match goal with
      | |- noExit (if ?b then _ else _) => destruct b
      | |- noExit (match ?x with _ => _ end) => destruct x
      end
    | assumption ].

Ltac noExit_auto := repeat noExit_step.

Lemma Https_addIssueToProject_noExit owner nid pn :
  noExit (Https.addIssueToProject owner nid pn).
Proof.
  unfold Https.addIssueToProject, Https.tryOwner, Https.addItemToProject.
  noExit_auto.
Qed.

Lemma Https_createIssue_noExit txt p fp : noExit (Https.createIssue txt p fp).
Proof. unfold Https.createIssue. noExit_auto. Qed.

(** One turn of the loop of the HTTPS script on a todo that is not in
    the set: the creation call is made and the turn ends normally; the
    todo is counted when neither the creation nor the linking threw. *)
Lemma Https_createLoop_turn owner pn t c w :
  let x := (tryCatch
            (let* i := Https.createIssue (Https.text t) (Https.filePath t)
                         (Https.fingerprint t) in
             (if truthy (node_id i)
              then Https.addIssueToProject owner (node_id i) pn
              else ret tt);;
             emit (Sleep 1000);;
             ret (S c))
            (fun e =>
               console Err ([T "Error creating issue for "; quote;
                             V (Https.text t); quote; T ": "] ++ e);;
               ret c)) w in
  exists ok done : bool,
    outcome x = Ret (if done then S c else c)
    /\ createCalls (trace x) = [(Https_call t, ok)]
    /\ Https_failedItems (trace x) = (if done then [] else [Https.text t])
    /\ (done = true -> ok = true)
    /\ Forall (fun e => isList e = false) (trace x).
Proof.
  intros x. subst x.
  destruct (Https.createIssue (Https.text t) (Https.filePath t)
              (Https.fingerprint t) w) as [[w1 t1] r1] eqn:Hc.
  pose proof (Https_createIssue_cases (Https.text t) (Https.fingerprint t)
                (Https.filePath t) w) as Hcases.
  rewrite Hc in Hcases. cbn [trace outcome fst snd] in Hcases.
  unfold tryCatch at 1 2 3 4, bind at 1 5 9 13. rewrite Hc.
  destruct Hcases as [(e & l & -> & ->)|(i & l & l' & -> & ->)].
  - exists false, false. simpl. repeat split; try discriminate.
    repeat constructor.
  - exists true.
    set (link := if truthy (node_id i)
                 then Https.addIssueToProject owner (node_id i) pn
                 else ret tt).
    assert (Hq : Forall (fun e => quiet e = true) (trace (link w1))).
    { subst link. destruct (truthy (node_id i));
        [apply Https_addIssueToProject_quiet|constructor]. }
    assert (Hx : forall k, outcome (link w1) <> Exit k).
    { subst link. destruct (truthy (node_id i));
        [apply Https_addIssueToProject_noExit|discriminate]. }
    apply quiet_trace in Hq as (Hq1 & Hq2 & Hq3).
    unfold bind. destruct (link w1) as [[w2 t2] [[]|e2|k]];
      cbn [trace outcome fst snd] in *.
    + exists true. simpl. rewrite !createCalls_app, !Https_failedItems_app, Hq1, Hq2.
      simpl. repeat split. repeat constructor.
      apply Forall_app. split; [exact Hq3|repeat constructor].
    + exists false. simpl.
      rewrite !createCalls_app, !Https_failedItems_app, Hq1, Hq2.
      simpl. repeat split; try discriminate.
      repeat constructor. apply Forall_app. split; [exact Hq3|repeat constructor].
    + exfalso. eapply Hx. reflexivity.
Qed.

(** The whole loop of the HTTPS script: it returns, it makes one
    creation call per todo that is not in the set, in order, and it
    tallies each of them either as created or as failed. *)
Lemma Https_createLoop_spec owner pn E allTodos : forall c w,
  exists oks dones : list bool,
    length oks = length (Https_newTodosOf E allTodos)
    /\ length dones = length (Https_newTodosOf E allTodos)
    /\ outcome (Https.createLoop owner pn E allTodos c w)
       = Ret (c + countTrue dones)%nat
    /\ createCalls (trace (Https.createLoop owner pn E allTodos c w))
       = zip (map Https_call (Https_newTodosOf E allTodos)) oks
    /\ Https_failedItems (trace (Https.createLoop owner pn E allTodos c w))
       = map Https.text (failedOf (Https_newTodosOf E allTodos) dones)
    /\ (forall k, dones !! k = Some true -> oks !! k = Some true)
    /\ Forall (fun e => isList e = false)
         (trace (Https.createLoop owner pn E allTodos c w)).
Proof.
  induction allTodos as [|t todos IH]; intros c w.
  - exists [], []. simpl. rewrite Nat.add_0_r. repeat split.
    + intros k Hk. destruct k; discriminate.
    + constructor.
  - cbn [Https.createLoop Https_newTodosOf List.filter].
    destruct (bool_decide (Https.fingerprint t ∈ E)) eqn:Hin; cbn [negb].
    + destruct (IH c w) as (oks & dones & H1 & H2 & H3 & H4 & H5 & H6 & H7).
      exists oks, dones. fold (Https_newTodosOf E todos).
      unfold bind at 1 3 5 7. unfold bind at 1 2 3 4. cbn [console emit ret].
      destruct (Https.createLoop owner pn E todos c w) as [[w2 t2] r2].
      cbn [trace outcome fst snd app] in *.
      repeat split; auto.
    + pose proof (Https_createLoop_turn owner pn t c w)
        as (ok & done & Ho & Hc & Hf & Hd & Hl).
      cbv zeta in Ho, Hc, Hf, Hl.
      match goal with |- context [bind ?m _ w] => set (turn := m) in * end.
      destruct (turn w) as [[w1 t1] r1] eqn:Hturn.
      cbn [trace outcome fst snd] in Ho, Hc, Hf, Hl. subst r1.
      unfold bind at 1 2 3 4. rewrite Hturn.
      set (c' := if done then S c else c).
      destruct (IH c' w1) as (oks & dones & H1 & H2 & H3 & H4 & H5 & H6 & H7).
      fold (Https_newTodosOf E todos).
      destruct (Https.createLoop owner pn E todos c' w1) as [[w2 t2] r2].
      cbn [trace outcome fst snd] in *. subst r2.
      exists (ok :: oks), (done :: dones).
      rewrite createCalls_app, Https_failedItems_app.
      rewrite Hc, Hf, H4, H5. simpl. rewrite H1, H2.
      repeat split.
      * f_equal. unfold countTrue, c'. destruct done; simpl; lia.
      * destruct done; reflexivity.
      * intros [|k] Hk; simpl in *; [|auto].
        injection Hk as ->. rewrite Hd; auto.
      * apply Forall_app; auto.
Qed.

(** * Reading the remote state *)

Lemma remoteList_cases page w :
  (exists w1 e, remoteList page w = (w1, [ListIssues page false], Throw e)
                /\ issues w1 = issues w)
  \/ (exists w1, remoteList page w
        = (w1, [ListIssues page true],
           Ret (take 100 (drop (100 * (page - 1)) (openTodoIssues w)),
                bool_decide (100 < length (drop (100 * (page - 1))
                                             (openTodoIssues w)))%nat))
        /\ issues w1 = issues w).
Proof.
  unfold remoteList.
  destruct (nextFault_run w) as (w1 & f & -> & Hi & _).
  assert (Ho : openTodoIssues w1 = openTodoIssues w)
    by (unfold openTodoIssues; rewrite Hi; reflexivity).
  destruct f as [msg|]; [left|right]; rewrite ?Ho; eauto.
Qed.

Lemma Octo_pagesLoop_spec fuel : forall page acc w,
  Forall (fun e => isCreate e = false) (trace (Octo.pagesLoop fuel page acc w))
  /\ ((exists E, outcome (Octo.pagesLoop fuel page acc w) = Ret E
        /\ Forall (fun e => isFailedList e = false)
             (trace (Octo.pagesLoop fuel page acc w))
        /\ (fuel <> 0%nat ->
            exists p, ListIssues p true ∈ trace (Octo.pagesLoop fuel page acc w)))
      \/ (exists e, outcome (Octo.pagesLoop fuel page acc w) = Throw e)).
Proof.
  induction fuel as [|fuel IH]; intros page acc w.
  - simpl. split; [constructor|]. left. exists acc.
    repeat split; [constructor|congruence].
  - cbn [Octo.pagesLoop]. unfold bind.
    destruct (remoteList_cases page w) as [(w1 & e & -> & _)|(w1 & -> & _)].
    + simpl. split; [repeat constructor|]. right. eauto.
    + cbn [fst snd].
      destruct (bool_decide _).
      * match goal with |- context [Octo.pagesLoop fuel ?p ?a ?w'] =>
          destruct (IH p a w') as (Hc & Hr);
          destruct (Octo.pagesLoop fuel p a w') as [[w2 t2] r2] end.
        cbn [trace outcome fst snd] in *. split; [repeat constructor; auto|].
        destruct Hr as [(E & -> & Hf & _)|(e & ->)]; [left|right; eauto].
        exists E. repeat split; [repeat constructor; auto|].
        intros _. exists page. constructor.
      * simpl. split; [repeat constructor|]. left. eexists.
        repeat split; [repeat constructor|]. intros _. exists page. constructor.
Qed.

Lemma Octo_fetch_spec w :
  Forall (fun e => isCreate e = false) (trace (Octo.fetchExistingTodoIssues w))
  /\ ((exists E, outcome (Octo.fetchExistingTodoIssues w) = Ret E
        /\ Forall (fun e => isFailedList e = false)
             (trace (Octo.fetchExistingTodoIssues w))
        /\ exists p, ListIssues p true ∈ trace (Octo.fetchExistingTodoIssues w))
      \/ (exists e, outcome (Octo.fetchExistingTodoIssues w) = Throw e)).
Proof.
  unfold Octo.fetchExistingTodoIssues, tryCatch.
  destruct (Octo_pagesLoop_spec (S (length (issues w))) 1 ∅ w) as (Hc & Hr).
  destruct (Octo.pagesLoop _ 1 ∅ w) as [[w1 t1] r1].
  cbn [trace outcome fst snd] in *.
  destruct Hr as [(E & -> & Hf & Hp)|(e & ->)].
  - split; [exact Hc|]. left. exists E. repeat split; auto.
  - simpl. split; [|right; eauto].
    apply Forall_app. split; [exact Hc|repeat constructor].
Qed.

Lemma Https_fetch_spec w :
  Forall (fun e => isCreate e = false) (trace (Https.fetchExistingTodoIssues w))
  /\ ((exists E, outcome (Https.fetchExistingTodoIssues w) = Ret E
        /\ Forall (fun e => isFailedList e = false)
             (trace (Https.fetchExistingTodoIssues w))
        /\ exists p, ListIssues p true ∈ trace (Https.fetchExistingTodoIssues w))
      \/ (exists e, outcome (Https.fetchExistingTodoIssues w) = Throw e)).
Proof.
  unfold Https.fetchExistingTodoIssues, bind, console, emit.
  destruct (remoteList_cases 1 w) as [(w1 & e & -> & _)|(w1 & -> & _)]; simpl.
  - split; [repeat constructor|]. right. eauto.
  - split; [repeat constructor|]. left. eexists. repeat split.
    + repeat constructor.
    + exists 1%nat. apply list_elem_of_In. simpl. auto.
Qed.

(** * The runs *)

Lemma console_bind {B} l msg (k : M B) w :
  (console l msg ;; k) w
  = (final (k w), Console l msg :: trace (k w), outcome (k w)).
Proof.
  unfold bind, console, emit. destruct (k w) as [[w2 t2] r]. reflexivity.
Qed.

Lemma ret_bind {A B} (a : A) (f : A -> M B) w : bind (ret a) f w = f a w.
Proof.
  unfold bind, ret. destruct (f a w) as [[w2 t2] r]. reflexivity.
Qed.

Lemma returns_ret {A} (a : A) : returns (ret a).
Proof. intros w. eexists. reflexivity. Qed.

Lemma returns_console l msg : returns (console l msg).
Proof. intros w. eexists. reflexivity. Qed.

Lemma returns_bind {A B} (m : M A) (f : A -> M B) :
  returns m -> (forall a, returns (f a)) -> returns (bind m f).
Proof.
  intros Hm Hf w. destruct (Hm w) as [a Ha]. unfold bind, outcome in *.
  destruct (m w) as [[w1 t1] r1]. simpl in Ha. subst r1.
  destruct (Hf a w1) as [b Hb]. unfold outcome in Hb.
  destruct (f a w1) as [[w2 t2] r2]. simpl in *. eauto.
Qed.

Lemma Octo_scanEntry_returns e : forall rel, returns (Octo.scanEntry rel e).
Proof.
  induction e as [n r|n b es IH|n] using entry_nested_ind; intros rel; simpl.
  - destruct r; simpl; [apply returns_ret|].
    apply returns_bind; [|intros; apply returns_ret].
    destruct (bool_decide _); [apply returns_ret|apply returns_console].
  - destruct (bool_decide _); [apply returns_ret|].
    destruct b.
    + induction IH as [|e es He _ IHes]; [apply returns_ret|].
      apply returns_bind; [apply He|intros a].
      apply returns_bind; [apply IHes|intros; apply returns_ret].
    + apply returns_bind; [apply returns_console|intros; apply returns_ret].
  - apply returns_ret.
Qed.

Lemma Octo_scanForTodos_returns es : returns (Octo.scanForTodos es).
Proof.
  induction es as [|e es IH]; simpl; [apply returns_ret|].
  apply returns_bind; [apply Octo_scanEntry_returns|intros a].
  apply returns_bind; [apply IH|intros; apply returns_ret].
Qed.

Lemma Https_scanEntry_noExit e : forall rel, noExit (Https.scanEntry rel e).
Proof.
  induction e as [n r|n b es IH|n] using entry_nested_ind; intros rel; simpl.
  - destruct r; simpl; noExit_auto.
  - destruct (bool_decide _); [apply noExit_ret|].
    destruct b; [|apply noExit_throw].
    induction IH as [|e es He _ IHes]; [apply noExit_ret|].
    apply noExit_bind; [apply He|intros a].
    apply noExit_bind; [apply IHes|intros; apply noExit_ret].
  - apply noExit_ret.
Qed.

Lemma Https_scanDirectory_noExit es : noExit (Https.scanDirectory es).
Proof.
  induction es as [|e es IH]; simpl; [apply noExit_ret|].
  apply noExit_bind; [apply Https_scanEntry_noExit|intros a].
  apply noExit_bind; [apply IH|intros; apply noExit_ret].
Qed.

Lemma Octo_projectId_spec w :
  (exists pid, outcome (Octo.resolveProject w) = Ret pid)
  /\ Forall (fun e => isCreate e = false) (trace (Octo.resolveProject w))
  /\ Forall (fun e => isList e = false) (trace (Octo.resolveProject w)).
Proof.
  unfold Octo.resolveProject, Octo.getProjectId, remoteProject, tryCatch,
    bind, console, emit, ret, throw.
  destruct (nextFault_run w) as (w1 & f & -> & _).
  destruct f; simpl.
  - split; [eauto|]. split; repeat constructor.
  - destruct (viewerProject w1); simpl; (split; [eauto|]);
      split; repeat constructor.
Qed.

Lemma silent_trace tr :
  Forall (fun e => silent e = true) tr ->
  Forall (fun e => isCreate e = false) tr
  /\ Forall (fun e => isList e = false) tr.
Proof.
  induction 1 as [|e tr He _ [IH1 IH2]]; [split; constructor|].
  unfold silent in He. apply andb_true_iff in He as [H1 H2].
  apply negb_true_iff in H1, H2. split; constructor; auto.
Qed.

Lemma not_list_not_failed tr :
  Forall (fun e => isList e = false) tr ->
  Forall (fun e => isFailedList e = false) tr.
Proof.
  intros H. eapply Forall_impl; [exact H|].
  intros [| ? []| | | |]; simpl; congruence.
Qed.

Lemma no_failed_Exists tr :
  Forall (fun e => isFailedList e = false) tr ->
  ~ Exists (fun e => isFailedList e = true) tr.
Proof.
  intros HF HE. apply Exists_exists in HE as (e & Hin & He).
  rewrite Forall_forall in HF. specialize (HF e Hin). congruence.
Qed.

Section StageLemmas.
Context {C : Type}.
Variable L : list event -> C -> Prop.
Variable S : C -> list event.

Lemma afterFetch_prefix p tr r :
  Forall (fun e => silent e = true) p ->
  afterFetch L S tr r -> afterFetch L S (p ++ tr) r.
Proof.
  intros Hp%silent_trace. destruct Hp as [Hc Hl].
  intros [(H1 & H2 & H3)|(pre & lt & count & -> & -> & HL & H1 & H2)].
  - left. repeat split; auto; apply Forall_app; auto.
  - right. exists (p ++ pre), lt, count. rewrite app_assoc.
    repeat split; auto; apply Forall_app; auto.
Qed.

Lemma afterFetch_bind {A} (m : M A) (k : A -> M unit) w :
  emits silent m -> noExit m ->
  (forall a w1, afterFetch L S (trace (k a w1)) (outcome (k a w1))) ->
  afterFetch L S (trace (bind m k w)) (outcome (bind m k w)).
Proof.
  intros Hm Hx Hk. rewrite trace_bind, outcome_bind.
  specialize (Hm w). specialize (Hx w).
  destruct (outcome (m w)) as [a|e|c].
  - apply afterFetch_prefix; auto.
  - left. apply silent_trace in Hm as [H1 H2]. repeat split; auto; discriminate.
  - exfalso. eapply Hx. reflexivity.
Qed.

Lemma runStage_prefix p tr r :
  Forall (fun e => silent e = true) p ->
  runStage L S tr r -> runStage L S (p ++ tr) r.
Proof.
  intros Hp%silent_trace. destruct Hp as [Hc Hl].
  pose proof (not_list_not_failed _ Hl) as Hf.
  intros [(H1 & H2 & H3)|(pre & lt & count & -> & -> & HL & H1 & H2 & (q & H3))].
  - left. repeat split; auto; [apply Forall_app; auto|].
    intros HE. apply Exists_app in HE as [HE|HE]; auto.
    exfalso. eapply no_failed_Exists; eauto.
  - right. exists (p ++ pre), lt, count. rewrite app_assoc.
    repeat split; auto; try (apply Forall_app; auto).
    exists q. apply elem_of_app. auto.
Qed.

Lemma runStage_bind {A} (m : M A) (k : A -> M unit) w :
  emits silent m -> noExit m ->
  (forall a w1, runStage L S (trace (k a w1)) (outcome (k a w1))) ->
  runStage L S (trace (bind m k w)) (outcome (bind m k w)).
Proof.
  intros Hm Hx Hk. rewrite trace_bind, outcome_bind.
  specialize (Hm w). specialize (Hx w).
  destruct (outcome (m w)) as [a|e|c].
  - apply runStage_prefix; auto.
  - left. apply silent_trace in Hm as [H1 H2]. repeat split; eauto; discriminate.
  - exfalso. eapply Hx. reflexivity.
Qed.

(** The read of the remote state, followed by the rest of the run. *)
Lemma runStage_fetch {A} (m : M A) (k : A -> M unit) w :
  Forall (fun e => isCreate e = false) (trace (m w)) ->
  ((exists E, outcome (m w) = Ret E
      /\ Forall (fun e => isFailedList e = false) (trace (m w))
      /\ exists p, ListIssues p true ∈ trace (m w))
   \/ (exists e, outcome (m w) = Throw e)) ->
  (forall a w1, afterFetch L S (trace (k a w1)) (outcome (k a w1))) ->
  runStage L S (trace (bind m k w)) (outcome (bind m k w)).
Proof.
  intros Hc Hr Hk. rewrite trace_bind, outcome_bind.
  destruct Hr as [(E & -> & Hf & (q & Hq))|(e & ->)].
  - destruct (Hk E (final (m w)))
      as [(H1 & H2 & H3)|(pre & lt & count & -> & -> & HL & H1 & H2)].
    + left. split; [apply Forall_app; auto|]. split.
      * intros HE. exfalso. apply Exists_app in HE as [HE|HE].
        -- eapply no_failed_Exists; [exact Hf|exact HE].
        -- eapply no_failed_Exists; [apply not_list_not_failed, H2|exact HE].
      * intros c Hc'. exfalso. eapply H3. exact Hc'.
    + right. exists (trace (m w) ++ pre), lt, count. rewrite app_assoc.
      repeat split; auto.
      * apply Forall_app; auto.
      * apply Forall_app; auto using not_list_not_failed.
      * exists q. apply elem_of_app. auto.
  - left. repeat split; eauto; discriminate.
Qed.

End StageLemmas.

Lemma returns_noExit {A} (m : M A) : returns m -> noExit m.
Proof. intros H w c. destruct (H w) as [a Ha]. congruence. Qed.

(** Steps over a console line in front of the rest of a run. *)
Ltac stage_console :=
  first
    [ apply runStage_bind;
      [apply emits_console; reflexivity|apply noExit_console|intros [] ?]
    | apply afterFetch_bind;
      [apply emits_console; reflexivity|apply noExit_console|intros [] ?] ].

Ltac early_exit :=
  left; rewrite trace_bind, outcome_bind; unfold bind, console, emit, exit;
  cbn; split; [repeat constructor|]; split;
  [ intros H; repeat (apply Exists_cons in H as [H|H]; [discriminate|]);
    inversion H
  | congruence ].

Lemma Octo_main_stage cfg tree w :
  runStage (Octo_loop cfg) Octo_summary
    (trace (Octo.main cfg tree w)) (outcome (Octo.main cfg tree w)).
Proof.
  unfold Octo.main. do 2 stage_console.
  destruct (unset (GITHUB_TOKEN cfg)); [early_exit|].
  rewrite ret_bind.
  destruct (unset (GITHUB_REPOSITORY cfg)); [early_exit|].
  rewrite ret_bind. do 2 stage_console.
  apply runStage_bind;
    [apply Octo_scanForTodos_emits; reflexivity
    |apply returns_noExit, Octo_scanForTodos_returns|intros todos ?].
  stage_console.
  destruct (length todos =? 0)%nat.
  { left. cbn. split; [repeat constructor|]. split; [|congruence].
    intros H. apply Exists_cons in H as [H|H]; [discriminate|inversion H]. }
  stage_console.
  match goal with |- runStage _ _ (trace (bind _ _ ?w')) _ =>
    destruct (Octo_fetch_spec w') as [Hc Hr] end.
  apply runStage_fetch; [exact Hc|exact Hr|intros E ?].
  do 3 stage_console.
  destruct (length (Octo.newTodosOf E todos) =? 0)%nat.
  { left. cbn. repeat split; repeat constructor. discriminate. }
  stage_console.
  apply afterFetch_bind.
  { unfold Octo.resolveProject, Octo.getProjectId. emits_auto. }
  { unfold Octo.resolveProject, Octo.getProjectId. noExit_auto. }
  intros pid ?. stage_console.
  right. rewrite trace_bind, outcome_bind.
  match goal with |- context [Octo.createLoop _ _ _ _ ?w'] =>
    rename w' into wl end.
  destruct (Octo_createLoop_spec (PROJECT_NUMBER cfg) pid
              (Octo.newTodosOf E todos) 0 wl) as (oks & _ & Ho & _).
  rewrite Ho. cbn [console emit trace outcome fst snd].
  exists [], (trace (Octo.createLoop (PROJECT_NUMBER cfg) pid
                       (Octo.newTodosOf E todos) 0 wl)), (0 + countTrue oks)%nat.
  repeat split; try constructor.
  exists pid, E, todos, wl. split; [reflexivity|exact Ho].
Qed.

Lemma Https_main_stage cfg tree w :
  runStage (Https_loop cfg) Https_summary
    (trace (Https.main cfg tree w)) (outcome (Https.main cfg tree w)).
Proof.
  unfold Https.main. stage_console.
  destruct (unset (GITHUB_TOKEN cfg) || unset (GITHUB_REPOSITORY cfg));
    [early_exit|].
  rewrite ret_bind. do 2 stage_console.
  match goal with |- runStage _ _ (trace (bind _ _ ?w')) _ =>
    destruct (Https_fetch_spec w') as [Hc Hr] end.
  apply runStage_fetch; [exact Hc|exact Hr|intros E ?].
  stage_console.
  apply afterFetch_bind;
    [apply Https_scanDirectory_emits; reflexivity
    |apply Https_scanDirectory_noExit|intros allTodos ?].
  stage_console.
  right. rewrite trace_bind, outcome_bind.
  match goal with |- context [Https.createLoop _ _ _ _ _ ?w'] =>
    rename w' into wl end.
  destruct (Https_createLoop_spec (ownerOf (default [] (GITHUB_REPOSITORY cfg)))
              (PROJECT_NUMBER cfg) E allTodos 0 wl)
    as (oks & dones & _ & _ & Ho & _).
  rewrite Ho. unfold bind, console, emit.
  cbn [trace outcome fst snd app].
  eexists [], _, (length allTodos, (0 + countTrue dones)%nat).
  split; [reflexivity|].
  repeat split; try constructor.
  exists E, allTodos, wl. repeat split. exact Ho.
Qed.

Lemma app_split_first {A} (P : A -> bool) l1 : forall l2 pre e post,
  l1 ++ l2 = pre ++ e :: post ->
  Forall (fun x => P x = false) l1 -> P e = true ->
  exists mid, pre = l1 ++ mid /\ l2 = mid ++ e :: post.
Proof.
  induction l1 as [|a l1 IH]; intros l2 pre e post Heq Hl He.
  - exists pre. auto.
  - apply Forall_cons in Hl as [Ha Hl]. destruct pre as [|b pre]; simpl in Heq.
    + injection Heq as -> _. congruence.
    + injection Heq as <- Heq.
      destruct (IH _ _ _ _ Heq Hl He) as (mid & -> & ->). eauto.
Qed.

Lemma no_create_split tr pre e post :
  Forall (fun e => isCreate e = false) tr ->
  tr = pre ++ e :: post -> isCreate e = true -> False.
Proof.
  intros HF -> He. apply Forall_app in HF as [_ HF].
  apply Forall_cons in HF as [HF _]. simpl in HF. congruence.
Qed.

Section ReadBeforeCreate.
Context {C : Type}.
Variable L : list event -> C -> Prop.
Variable S : C -> list event.
Hypothesis L_no_list : forall lt c, L lt c -> Forall (fun e => isList e = false) lt.
Hypothesis S_silent : forall c, Forall (fun e => silent e = true) (S c).

Lemma runStage_readBeforeCreate tr r code :
  runStage L S tr r ->
  (r = Ret tt -> code = 0%Z) ->
  (forall e, r = Throw e -> code = 1%Z) ->
  (forall c, r = Exit c -> code = c) ->
  forall extra, Forall (fun e => isConsole e = true) extra ->
  (r = Ret tt -> extra = []) ->
  readBeforeCreate (tr ++ extra) code.
Proof.
  intros Hs Hret Hthrow Hexit extra Hextra Hnil.
  assert (Hxc : Forall (fun e => isCreate e = false) extra).
  { eapply Forall_impl; [exact Hextra|]. intros []; simpl; congruence. }
  assert (Hxf : Forall (fun e => isFailedList e = false) extra).
  { eapply Forall_impl; [exact Hextra|]. intros []; simpl; congruence. }
  destruct Hs as [(H1 & H2 & H3)|(pre0 & lt & c & -> & -> & HL & H1 & H2 & (q & H3))].
  - split.
    + intros pre e post Heq He. exfalso.
      eapply (no_create_split (tr ++ extra)); eauto. apply Forall_app; auto.
    + intros HE. apply Exists_app in HE as [HE|HE];
        [|exfalso; eapply no_failed_Exists; [exact Hxf|exact HE]].
      destruct (H2 HE) as [e ->]. split; [|apply Forall_app; auto].
      rewrite (Hthrow e eq_refl). discriminate.
  - rewrite (Hnil eq_refl), app_nil_r.
    pose proof (L_no_list _ _ HL) as Hlt.
    destruct (silent_trace _ (S_silent c)) as [HSc HSl].
    split.
    + intros pre e post Heq He.
      destruct (app_split_first isCreate _ _ _ _ _ Heq H1 He) as (mid & -> & Hmid).
      assert (Hall : Forall (fun e => isList e = false) (mid ++ e :: post)).
      { rewrite <- Hmid. apply Forall_app; auto. }
      apply Forall_app in Hall as [Hm Hp]. apply Forall_cons in Hp as [_ Hp].
      repeat split; auto.
      * exists q. apply elem_of_app. auto.
      * apply Forall_app. split; [exact H2|apply not_list_not_failed, Hm].
    + intros HE. exfalso.
      apply Exists_app in HE as [HE|HE];
        [eapply no_failed_Exists; [exact H2|exact HE]|].
      apply Exists_app in HE as [HE|HE].
      * eapply no_failed_Exists; [apply not_list_not_failed, Hlt|exact HE].
      * eapply no_failed_Exists; [apply not_list_not_failed, HSl|exact HE].
Qed.

End ReadBeforeCreate.

Lemma Octo_loop_no_list cfg lt c :
  Octo_loop cfg lt c -> Forall (fun e => isList e = false) lt.
Proof.
  intros (pid & E & todos & w & -> & _).
  destruct (Octo_createLoop_spec (PROJECT_NUMBER cfg) pid
              (Octo.newTodosOf E todos) 0 w) as (oks & _ & _ & _ & _ & H).
  exact H.
Qed.

Lemma Https_loop_no_list cfg lt c :
  Https_loop cfg lt c -> Forall (fun e => isList e = false) lt.
Proof.
  intros (E & allTodos & w & _ & -> & _).
  destruct (Https_createLoop_spec (ownerOf (default [] (GITHUB_REPOSITORY cfg)))
              (PROJECT_NUMBER cfg) E allTodos 0 w)
    as (oks & dones & _ & _ & _ & _ & _ & _ & H).
  exact H.
Qed.

Lemma catchFatal_readBeforeCreate {C} (L : list event -> C -> Prop) S x :
  (forall lt c, L lt c -> Forall (fun e => isList e = false) lt) ->
  (forall c, Forall (fun e => silent e = true) (S c)) ->
  runStage L S (trace x) (outcome x) ->
  readBeforeCreate (trace (catchFatal x)) (outcome (catchFatal x)).
Proof.
  intros HL HS Hs. destruct x as [[w1 t1] [[]|e|k]];
    cbn [catchFatal trace outcome fst snd] in *.
  - rewrite <- (app_nil_r t1).
    eapply runStage_readBeforeCreate; eauto; try discriminate; constructor.
  - eapply runStage_readBeforeCreate; eauto; discriminate.
  - rewrite <- (app_nil_r t1).
    eapply runStage_readBeforeCreate; eauto; try discriminate.
    intros ? [= <-]. reflexivity.
Qed.

Lemma Octo_summary_silent c : Forall (fun e => silent e = true) (Octo_summary c).
Proof. repeat constructor. Qed.

Lemma Https_summary_silent c : Forall (fun e => silent e = true) (Https_summary c).
Proof. repeat constructor. Qed.

(** C9: in both scripts every record-creation call of a run follows a
    successful read of the existing records, and a run whose read fails
    ends with a non-zero exit code without any creation call. *)
Theorem C9_read_before_create cfg tree w :
  readBeforeCreate (trace (Https.run cfg tree w)) (outcome (Https.run cfg tree w))
  /\ readBeforeCreate (trace (Octo.run cfg tree w)) (outcome (Octo.run cfg tree w)).
Proof.
  split.
  - eapply catchFatal_readBeforeCreate;
      [apply Https_loop_no_list|apply Https_summary_silent
      |apply Https_main_stage].
  - eapply catchFatal_readBeforeCreate;
      [apply Octo_loop_no_list|apply Octo_summary_silent
      |apply Octo_main_stage].
Qed.

Lemma no_create_calls tr :
  Forall (fun e => isCreate e = false) tr -> createCalls tr = [].
Proof.
  induction 1 as [|e tr He _ IH]; [reflexivity|].
  change (e :: tr) with ([e] ++ tr). rewrite createCalls_app, IH, app_nil_r.
  destruct e; simpl in *; congruence.
Qed.

(** A run that made a creation call went through the whole loop, ended
    with exit code 0 and printed the summary last. *)
Lemma catchFatal_completes {C} (L : list event -> C -> Prop) S x :
  runStage L S (trace x) (outcome x) ->
  createCalls (trace (catchFatal x)) <> [] ->
  outcome (catchFatal x) = 0%Z
  /\ exists pre lt count, trace (catchFatal x) = pre ++ lt ++ S count /\ L lt count.
Proof.
  intros [(H1 & _)|(pre & lt & c & Ht & Hr & HL & _)] Hne.
  - exfalso. apply Hne. destruct x as [[w1 t1] [[]|e|k]];
      cbn [catchFatal trace outcome fst snd] in *;
      rewrite ?createCalls_app, no_create_calls; auto.
  - destruct x as [[w1 t1] r]. cbn [trace outcome fst snd] in *. subst.
    simpl. eauto 10.
Qed.

Lemma C9_read_before_create_witness :
  outcome (Octo.run sampleConfig twoFiles firstCallFails) <> 0%Z
  /\ Forall (fun e => isCreate e = false)
       (trace (Octo.run sampleConfig twoFiles firstCallFails)).
Proof.
  destruct (C9_read_before_create sampleConfig twoFiles firstCallFails)
    as [_ [_ H]].
  apply H. apply Exists_exists. exists (ListIssues 1 false).
  split; [|reflexivity]. apply list_elem_of_In. vm_compute.
  repeat (first [left; reflexivity|right]).
Defined.

(** * Reconciliation *)

Lemma Https_createLoop_calls (owner : jsstr) (pn : Z) (E : gset jsstr)
    (S : list Https.todo) (c : nat) (w : world) :
  map fst (createCalls (trace (Https.createLoop owner pn E S c w)))
  = map Https_call (filter (fun a => Https.fingerprint a ∉ E) S).
Proof.
  destruct (Https_createLoop_spec owner pn E S c w)
    as (oks & dones & H1 & _ & _ & H4 & _).
  rewrite H4, fst_zip by (rewrite length_map; lia).
  f_equal. unfold Https_newTodosOf. clear.
  induction S as [|a S IH]; [reflexivity|]. simpl.
  rewrite filter_cons. destruct (decide (Https.fingerprint a ∉ E)) as [Hn|Hn].
  - rewrite bool_decide_eq_false_2 by exact Hn. simpl. f_equal. exact IH.
  - rewrite bool_decide_eq_true_2; [exact IH|].
    destruct (decide (Https.fingerprint a ∈ E)); [assumption|contradiction].
Qed.

(** C2: the reconciler keeps an annotation exactly when its identity is
    not in the set of existing identities, and keeps the scan order.
    In the Octokit script this is the filter of step 3; in the HTTPS
    script it is the test at the head of the loop, and the creation
    calls are those of the annotations whose identity is not in the
    set, in scan order. *)
Theorem C2_reconciliation :
  (forall (E : gset jsstr) (S : list Octo.todo) (a : Octo.todo),
     a ∈ Octo.newTodosOf E S
     <-> a ∈ S /\ Octo.generateFingerprint (Octo.filePath a) (Octo.text a) ∉ E)
  /\ (forall (E : gset jsstr) (S : list Octo.todo),
        sublist (Octo.newTodosOf E S) S)
  /\ (forall (owner : jsstr) (pn : Z) (E : gset jsstr)
             (S : list Https.todo) (c : nat) (w : world),
        map fst (createCalls (trace (Https.createLoop owner pn E S c w)))
        = map Https_call (filter (fun a => Https.fingerprint a ∉ E) S)).
Proof.
  split; [|split].
  - intros E S a. unfold Octo.newTodosOf.
    rewrite !list_elem_of_In, filter_In, negb_true_iff, bool_decide_eq_false.
    reflexivity.
  - intros E S. unfold Octo.newTodosOf.
    induction S as [|a S IH]; simpl; [constructor|].
    destruct (negb _); [apply sublist_skip|apply sublist_cons]; exact IH.
  - apply Https_createLoop_calls.
Qed.

Lemma C2_reconciliation_witness :
  Octo.Todo (lit "b.txt") (lit "fix auth") 1
    ∈ Octo.newTodosOf {[lit "a.txt|fix auth"]}
        [Octo.Todo (lit "a.txt") (lit "fix auth") 3;
         Octo.Todo (lit "b.txt") (lit "fix auth") 1].
Proof.
  destruct C2_reconciliation as (H & _). apply H. split.
  - apply list_elem_of_In. simpl. auto.
  - intros Hin. apply elem_of_singleton in Hin. discriminate.
Defined.

(** * Repeated annotations *)

(** C10 fails on the code: on a file that repeats an annotation one
    run makes two creation calls and leaves two open records that bear
    the one identity, in either script.  The set of identities is read
    once, before the loop, and no created identity is added to it, so
    the second occurrence is not recognised during the run; on the next
    run both are, and nothing is created. *)
Theorem C10_repeated_annotation_duplicated :
  (map snd (createCalls (trace (Octo.run sampleConfig repeatedTodo emptyWorld)))
   = [true; true]
   /\ length (recordsBearing (lit "a.js|fix")
                (final (Octo.run sampleConfig repeatedTodo emptyWorld))) = 2%nat
   /\ createCalls
        (trace (Octo.run sampleConfig repeatedTodo
                  (final (Octo.run sampleConfig repeatedTodo emptyWorld)))) = [])
  /\ (map snd (createCalls (trace (Https.run sampleConfig repeatedTodo emptyWorld)))
      = [true; true]
      /\ length (recordsBearing (lit "a.js|fix")
                   (final (Https.run sampleConfig repeatedTodo emptyWorld))) = 2%nat
      /\ createCalls
           (trace (Https.run sampleConfig repeatedTodo
                     (final (Https.run sampleConfig repeatedTodo emptyWorld)))) = []).
Proof. repeat split; vm_compute; reflexivity. Qed.

(** * The marker in the record body *)

(** C4 fails on the code: the marker is searched for anywhere in the
    body and its capture is trimmed.  In the Octokit script the
    annotation text precedes the marker line, so a text that quotes the
    key is read back instead of the identity; in both scripts so is a
    path that contains the key, and an identity that starts with white
    space comes back without it. *)
Theorem C4_marker_not_recovered :
  Octo.todosOfContent (lit "a.js") (lit "// TODO: see fingerprint=abc")
    = [Octo.Todo (lit "a.js") (lit "see fingerprint=abc") 1]
  /\ extractFingerprint
       (Some (Octo.issueBody (Octo.Todo (lit "a.js") (lit "see fingerprint=abc") 1)
                (Octo.generateFingerprint (lit "a.js") (lit "see fingerprint=abc"))))
     = Some (lit "abc")
  /\ extractFingerprint
       (Some (Https.issueBody (lit "fingerprint=1.txt") (lit "fingerprint=1.txt|fix")))
     = Some (lit "1.txt`")
  /\ extractFingerprint
       (Some (Https.issueBody (lit " a.js") (lit " a.js|fix")))
     = Some (lit "a.js|fix")
  /\ extractFingerprint
       (Some (Octo.issueBody (Octo.Todo (lit " a.js") (lit "fix") 1)
                (Octo.generateFingerprint (lit " a.js") (lit "fix"))))
     = Some (lit "a.js|fix").
Proof. repeat split; vm_compute; reflexivity. Qed.

(** * Idempotence *)

(** C1 fails on the code: after a first run that created a record, the
    second run does not find the identity in the set it reads back, and
    creates the record again. *)
Theorem C1_second_run_creates_again :
  (let w1 := final (Octo.run sampleConfig markerInText emptyWorld) in
   (map snd (createCalls (trace (Octo.run sampleConfig markerInText emptyWorld)))
     = [true])
   /\ returned (Octo.fetchExistingTodoIssues w1) = {[lit "abc"]}
   /\ (lit "a.js|see fingerprint=abc"
         ∉ returned (Octo.fetchExistingTodoIssues w1))
   /\ map snd (createCalls (trace (Octo.run sampleConfig markerInText w1)))
     = [true])
  /\ (let w1 := final (Https.run sampleConfig markerInPath emptyWorld) in
   (map snd (createCalls (trace (Https.run sampleConfig markerInPath emptyWorld)))
     = [true])
   /\ (lit "fingerprint=1.txt|fix"
         ∉ returned (Https.fetchExistingTodoIssues w1))
   /\ map snd (createCalls (trace (Https.run sampleConfig markerInPath w1)))
     = [true]).
Proof.
  cbv zeta. repeat apply conj; try (vm_compute; reflexivity).
  - intros Hin. apply (bool_decide_eq_true_2 _) in Hin.
    vm_compute in Hin. discriminate.
  - intros Hin. apply (bool_decide_eq_true_2 _) in Hin.
    vm_compute in Hin. discriminate.
Qed.

(** * The matcher and what a pattern matches *)

Lemma is_Some_orElse a b : is_Some (orElse a b) <-> is_Some a \/ is_Some b.
Proof.
  destruct a as [z|]; simpl; split; eauto.
  - intros [[? [=]]|H]; exact H.
Qed.

Lemma orElse_Some a b z :
  orElse a b = Some z -> a = Some z \/ b = Some z.
Proof. destruct a; simpl; auto. Qed.

Lemma iter_length_le {X} (R : X -> X -> Prop) size x y :
  iter R size x y -> (size y <= size x)%nat.
Proof. induction 1; lia. Qed.

Lemma accepts_length ic r : forall s s',
  accepts ic r s s' -> (length s' <= length s)%nat.
Proof.
  induction r as [|ch|k|r1 IH1 r2 IH2|r1 IH1 r2 IH2|g r IH|g r IH|n r IH|r IH|];
    intros s s'; simpl.
  - intros ->. lia.
  - intros (a & -> & _). simpl. lia.
  - intros (a & -> & _). simpl. lia.
  - intros (s1 & H1%IH1 & H2%IH2). lia.
  - intros [H|H]; auto.
  - intros H%iter_length_le. exact H.
  - intros (s1 & H1%IH & H2%iter_length_le). lia.
  - apply IH.
  - intros [-> _]. lia.
  - intros [-> ->]. lia.
Qed.

Lemma sem_length ic r : forall x y,
  sem ic r x y -> (length (rest y) <= length (rest x))%nat.
Proof.
  induction r as [|ch|k|r1 IH1 r2 IH2|r1 IH1 r2 IH2|g r IH|g r IH|n r IH|r IH|];
    intros x y; simpl.
  - intros ->. lia.
  - intros (a & -> & _). simpl. lia.
  - intros (a & -> & _). simpl. lia.
  - intros (s1 & H1%IH1 & H2%IH2). lia.
  - intros [H|H]; auto.
  - intros H. apply (iter_length_le _ (fun z => length (rest z))) in H. exact H.
  - intros (s1 & H1%IH & H2).
    apply (iter_length_le _ (fun z => length (rest z))) in H2. lia.
  - intros (y0 & H%IH & ->). exact H.
  - intros (y0 & _ & ->). simpl. lia.
  - intros [_ ->]. lia.
Qed.

Section Repeat.
Variable ic : bool.
Variable r : regex.

Hypothesis complete_r : forall x c c',
  succeedsOn c c' ->
  forall s', accepts ic r (rest x) s' -> c' s' -> is_Some (compile ic r x c).

Lemma repeat_complete fuel : forall g x c c',
  succeedsOn c c' ->
  (length (rest x) < fuel)%nat ->
  forall s', iter (accepts ic r) length (rest x) s' -> c' s' ->
  is_Some (repeatMatcher fuel (compile ic r) 0 g x c).
Proof.
  induction fuel as [|fuel IH]; intros g x c c' Hc Hlen s' Hit Hs'; [lia|].
  cbn [repeatMatcher Nat.eqb negb andb].
  assert (Hstep : forall s1, accepts ic r (rest x) s1 ->
            (length s1 < length (rest x))%nat ->
            iter (accepts ic r) length s1 s' ->
            is_Some (compile ic r x
              (fun y => if (length (rest y) =? length (rest x))%nat then None
                        else repeatMatcher fuel (compile ic r) (Nat.pred 0) g y c))).
  { intros s1 Ha Hlt Hit1.
    apply (complete_r x _
             (fun s1 => (length s1 < length (rest x))%nat
                        /\ iter (accepts ic r) length s1 s')) with (s' := s1);
      [|exact Ha|auto].
    intros y [Hy1 Hy2].
    destruct (Nat.eqb_spec (length (rest y)) (length (rest x))); [lia|].
    eapply IH; eauto. lia. }
  inversion Hit as [x0 Hx0|x0 s1 z Ha Hlt Hit1]; subst.
  - destruct g; apply is_Some_orElse; [right|left]; apply Hc; exact Hs'.
  - destruct g; apply is_Some_orElse; [left|right]; eapply Hstep; eauto.
Qed.

Hypothesis sound_r : forall x c z,
  compile ic r x c = Some z -> exists y, sem ic r x y /\ c y = Some z.

Lemma repeat_sound fuel : forall g x c z,
  repeatMatcher fuel (compile ic r) 0 g x c = Some z ->
  exists y, iter (sem ic r) (fun z => length (rest z)) x y /\ c y = Some z.
Proof.
  induction fuel as [|fuel IH]; intros g x c z; [discriminate|].
  cbn [repeatMatcher Nat.eqb negb andb].
  assert (Hstep : compile ic r x
              (fun y => if (length (rest y) =? length (rest x))%nat then None
                        else repeatMatcher fuel (compile ic r) (Nat.pred 0) g y c)
            = Some z ->
            exists y, iter (sem ic r) (fun z => length (rest z)) x y
                      /\ c y = Some z).
  { intros (y1 & Hs & Hd)%sound_r.
    destruct (Nat.eqb_spec (length (rest y1)) (length (rest x))); [discriminate|].
    apply IH in Hd as (y & Hit & Hc). exists y. split; [|exact Hc].
    eapply iter_more; eauto. apply sem_length in Hs. lia. }
  destruct g; intros [H|H]%orElse_Some; auto;
    exists x; split; auto; constructor.
Qed.

End Repeat.

Lemma repeatMatcher_plus fuel m g x c :
  repeatMatcher (S fuel) m 1 g x c
  = m x (fun y => repeatMatcher fuel m 0 g y c).
Proof. reflexivity. Qed.

(** The matcher finds a match whenever the pattern has one that the
    continuation accepts. *)
Lemma compile_complete ic r : forall x c c',
  succeedsOn c c' ->
  forall s', accepts ic r (rest x) s' -> c' s' -> is_Some (compile ic r x c).
Proof.
  induction r as [|ch|k|r1 IH1 r2 IH2|r1 IH1 r2 IH2|g r IH|g r IH|n r IH|r IH|];
    intros x c c' Hc s'; cbn [accepts compile].
  - intros -> Hs. apply Hc, Hs.
  - intros (a & -> & Ha) Hs. rewrite Ha, N.eqb_refl. apply Hc, Hs.
  - intros (a & -> & Ha) Hs. rewrite Ha. apply Hc, Hs.
  - intros (s1 & H1 & H2) Hs.
    apply (IH1 x _ (fun s1 => exists s', accepts ic r2 s1 s' /\ c' s'))
      with (s' := s1); eauto.
    intros y (s2 & Hy & Hs2). eapply IH2; eauto.
  - intros [H|H] Hs; apply is_Some_orElse; [left; eapply IH1|right; eapply IH2];
      eauto.
  - intros Hit Hs. eapply repeat_complete; eauto. simpl. lia.
  - intros (s1 & H1 & Hit) Hs.
    change (2 + length (rest x))%nat with (S (S (length (rest x)))).
    rewrite repeatMatcher_plus.
    apply (IH x _ (fun s1 => (length s1 <= length (rest x))%nat
                             /\ iter (accepts ic r) length s1 s'))
      with (s' := s1); [|exact H1|split; [eapply accepts_length, H1|exact Hit]].
    intros y [Hy1 Hy2]. eapply repeat_complete; eauto. lia.
  - intros H Hs. eapply IH; [|exact H|exact Hs].
    intros y Hy. apply Hc, Hy.
  - intros [-> (s2 & H)] Hs.
    destruct (IH x Some (fun _ => True)) with (s' := s2) as [y Hy]; auto.
    { intros y _. eauto. }
    rewrite Hy. apply Hc, Hs.
  - intros [Hx ->] Hs. rewrite Hx. apply Hc. rewrite Hx. exact Hs.
Qed.

(** A match the matcher finds is a match of the pattern. *)
Lemma compile_sound ic r : forall x c z,
  compile ic r x c = Some z -> exists y, sem ic r x y /\ c y = Some z.
Proof.
  induction r as [|ch|k|r1 IH1 r2 IH2|r1 IH1 r2 IH2|g r IH|g r IH|n r IH|r IH|];
    intros x c z; cbn [sem compile].
  - eauto.
  - destruct x as [[|a s] cs]; simpl; [discriminate|].
    destruct (N.eqb_spec (canonicalize ic a) (canonicalize ic ch));
      [|discriminate].
    intros H. exists (MState s cs). eauto 10.
  - destruct x as [[|a s] cs]; simpl; [discriminate|].
    destruct (inClass k a) eqn:Hk; [|discriminate].
    intros H. exists (MState s cs). eauto 10.
  - intros (y1 & H1 & (y & H2 & Hc)%IH2)%IH1. eauto.
  - intros [(y & H & Hc)%IH1|(y & H & Hc)%IH2]%orElse_Some; eauto.
  - intros H. eapply repeat_sound; eauto.
  - change (2 + length (rest x))%nat with (S (S (length (rest x)))).
    rewrite repeatMatcher_plus.
    intros (y1 & H1 & (y & Hit & Hc)%repeat_sound)%IH; eauto.
  - intros (y0 & H & Hc)%IH. eauto.
  - destruct (compile ic r x Some) as [y0|] eqn:Hy0; [|discriminate].
    apply IH in Hy0 as (y1 & H1 & [= ->]). eauto.
  - destruct x as [[|a s] cs]; simpl; [|discriminate]. eauto.
Qed.

(** [exec] finds a match exactly when the pattern has one at some
    position of the input. *)
Lemma exec_complete ic r (pre s0 s' : jsstr) :
  accepts ic r s0 s' -> is_Some (exec ic r (pre ++ s0)).
Proof.
  intros Ha. induction pre as [|a pre IH]; simpl.
  - destruct (compile_complete ic r (MState s0 ∅) Some (fun _ => True) )
      with (s' := s') as [y Hy]; auto.
    { intros y _. eauto. }
    destruct s0; simpl; rewrite Hy; eauto.
  - destruct (compile ic r _ Some); eauto.
Qed.

Lemma exec_sound ic r : forall line y,
  exec ic r line = Some y ->
  exists pre s0, line = pre ++ s0 /\ sem ic r (MState s0 ∅) y.
Proof.
  induction line as [|a line IH]; intros y; simpl.
  - destruct (compile ic r (MState [] ∅) Some) as [z|] eqn:Hz; [|discriminate].
    intros [= ->]. apply compile_sound in Hz as (y' & Hs & [= ->]).
    exists [], []. auto.
  - destruct (compile ic r (MState (a :: line) ∅) Some) as [z|] eqn:Hz.
    + intros [= ->]. apply compile_sound in Hz as (y' & Hs & [= ->]).
      exists [], (a :: line). auto.
    + intros (pre & s0 & -> & Hs)%IH. exists (a :: pre), s0. auto.
Qed.

(** * Literals and runs of a class *)

Lemma accepts_lits ic (w : jsstr) : forall m s,
  map (canonicalize ic) m = map (canonicalize ic) w ->
  accepts ic (lits w) (m ++ s) s.
Proof.
  induction w as [|ch w IH]; intros [|a m] s Hm; try discriminate.
  - reflexivity.
  - injection Hm as Ha Hm. simpl. exists (m ++ s). split; [eauto|].
    apply IH, Hm.
Qed.

Lemma sem_lits ic (w : jsstr) : forall x y,
  sem ic (lits w) x y ->
  exists m, rest x = m ++ rest y
            /\ map (canonicalize ic) m = map (canonicalize ic) w
            /\ caps y = caps x.
Proof.
  induction w as [|ch w IH]; intros x y; simpl.
  - intros ->. exists []. auto.
  - intros (y1 & (a & Hx & Ha & Hc) & (m & Hm & Hw & Hc')%IH).
    exists (a :: m). simpl. rewrite Hx, Hm, Ha, Hw. repeat split; congruence.
Qed.

Lemma canonicalize_exact a c :
  canonicalize true a = c -> (c < 65 \/ 90 < c) -> a = c.
Proof.
  unfold canonicalize. simpl.
  destruct (N.leb_spec 97 a); simpl; [|auto].
  destruct (N.leb_spec a 122); simpl; [|auto]. unfold char in *. lia.
Qed.

Lemma canonicalize_false m w :
  map (canonicalize false) m = map (canonicalize false) w -> m = w.
Proof.
  assert (H : forall l, map (canonicalize false) l = l).
  { induction l; simpl; [reflexivity|]. f_equal; exact IHl. }
  rewrite !H. auto.
Qed.

Lemma canonicalize_asciiUpper c : canonicalize true c = asciiUpper c.
Proof. reflexivity. Qed.

Lemma accepts_run ic k ws s :
  Forall (fun c => inClass k c = true) ws ->
  iter (accepts ic (Cls k)) length (ws ++ s) s.
Proof.
  induction 1 as [|a ws Ha _ IH]; simpl; [constructor|].
  apply iter_more with (y := ws ++ s); [|simpl; lia|exact IH]. simpl. eauto.
Qed.

Lemma sem_run ic k x y :
  iter (sem ic (Cls k)) (fun z => length (rest z)) x y ->
  exists ws, rest x = ws ++ rest y
             /\ Forall (fun c => inClass k c = true) ws
             /\ caps y = caps x.
Proof.
  induction 1 as [x|x y z (a & Hx & Ha & Hc) _ _ (ws & Hy & Hws & Hc')].
  - exists []. auto.
  - exists (a :: ws). simpl. rewrite Hx, Hy. repeat split; [|congruence].
    constructor; auto.
Qed.

(** The capturing group [(.+)] or [(.+?)]: what it consumes is what it
    stores. *)
Lemma sem_capture ic g x y :
  sem ic (Group 1 (Plus g (Cls Dot))) x y ->
  exists cap, rest x = cap ++ rest y /\ oneLine cap
              /\ caps y = <[1%nat := cap]> (caps x).
Proof.
  simpl. intros (y0 & (y1 & (a & Hx & Ha & Hc) & Hit) & ->).
  apply (sem_run ic Dot y1 y0) in Hit as (ws & Hy1 & Hws & Hc').
  exists (a :: ws). simpl. rewrite Hx, Hy1. repeat split.
  - discriminate.
  - constructor; [apply negb_true_iff, Ha|].
    eapply Forall_impl; [exact Hws|]. intros c Hc0. apply negb_true_iff, Hc0.
  - rewrite Hc', Hc. f_equal.
    change (a :: ws ++ rest y0) with ((a :: ws) ++ rest y0).
    replace (length ((a :: ws) ++ rest y0) - length (rest y0))%nat
      with (length (a :: ws)) by (rewrite length_app; simpl; lia).
    apply take_app_length.
Qed.

Lemma accepts_capture ic g cap s :
  oneLine cap -> accepts ic (Group 1 (Plus g (Cls Dot))) (cap ++ s) s.
Proof.
  intros [Hne Hcap]. destruct cap as [|a cap]; [contradiction|].
  apply Forall_cons in Hcap as [Ha Hcap]. simpl.
  exists (cap ++ s). split; [exists a; split; [reflexivity|]|].
  - apply negb_true_iff, Ha.
  - apply (accepts_run ic Dot). eapply Forall_impl; [exact Hcap|].
    intros c Hc. apply negb_true_iff, Hc.
Qed.

Lemma lits_exact (w m : jsstr) :
  Forall (fun c => c < 65) w ->
  map (canonicalize true) m = map (canonicalize true) w -> m = w.
Proof.
  intros Hw. revert m. induction Hw as [|c w Hc _ IH]; intros [|a m] Hm;
    try discriminate; [reflexivity|].
  injection Hm as Ha Hm. f_equal; [|apply IH, Hm].
  assert (Hcc : canonicalize true c = c).
  { unfold canonicalize. simpl. destruct (N.leb_spec 97 c); simpl; [|reflexivity].
    unfold char in *. lia. }
  rewrite Hcc in Ha. apply canonicalize_exact in Ha; [exact Ha|].
  left. exact Hc.
Qed.

(** * The pattern of the Octokit script *)

Lemma todoReOcto_sem x y :
  sem false todoReOcto x y ->
  exists ws cap,
    rest x = lit "TODO:" ++ ws ++ cap ++ rest y
    /\ blank ws /\ oneLine cap /\ caps y !! 1%nat = Some cap.
Proof.
  intros Hs.
  change (exists y1, sem false (lits (lit "TODO:")) x y1
          /\ exists y2, iter (sem false (Cls Space)) (fun z => length (rest z)) y1 y2
          /\ sem false (Group 1 (Plus true (Cls Dot))) y2 y) in Hs.
  destruct Hs as (y1 & H1 & y2 & H2 & H3).
  apply sem_lits in H1 as (m & Hx & Hm%canonicalize_false & _).
  apply sem_run in H2 as (ws & Hy1 & Hws & _).
  apply sem_capture in H3 as (cap & Hy2 & Hcap & Hc).
  exists ws, cap. rewrite Hx, Hm, Hy1, Hy2, Hc.
  repeat split; try apply Hcap; [exact Hws|]. apply lookup_insert_eq.
Qed.

Lemma todoReOcto_accepts ws cap post :
  blank ws -> oneLine cap ->
  accepts false todoReOcto (lit "TODO:" ++ ws ++ cap ++ post) post.
Proof.
  intros Hws Hcap.
  change (exists s1, accepts false (lits (lit "TODO:"))
                       (lit "TODO:" ++ ws ++ cap ++ post) s1
          /\ exists s2, iter (accepts false (Cls Space)) length s1 s2
          /\ accepts false (Group 1 (Plus true (Cls Dot))) s2 post).
  exists (ws ++ cap ++ post). split; [apply accepts_lits; reflexivity|].
  exists (cap ++ post). split; [apply (accepts_run false Space), Hws|].
  apply accepts_capture, Hcap.
Qed.

Lemma Octo_todoOfLine_sound p i line t :
  Octo.todoOfLine p i line = Some t ->
  exists cap, marksOcto line cap
              /\ Octo.text t = trim cap /\ Octo.filePath t = p
              /\ Octo.lineNumber t = (i + 1)%nat.
Proof.
  unfold Octo.todoOfLine.
  destruct (exec false todoReOcto line) as [y|] eqn:He; [|discriminate].
  apply exec_sound in He as (pre & s0 & -> & Hs).
  apply todoReOcto_sem in Hs as (ws & cap & Hx & Hws & Hcap & Hc).
  cbn [rest] in Hx. unfold capture. cbn [mbind option_bind].
  destruct (caps y !! 1%nat) as [cap0|] eqn:Hc0; [|discriminate].
  injection Hc as ->. cbn [mbind option_bind]. intros [= <-]. simpl.
  exists cap. repeat split; auto.
  exists pre, ws, (rest y). rewrite Hx. auto.
Qed.

Lemma Octo_todoOfLine_complete p i line cap :
  marksOcto line cap -> is_Some (Octo.todoOfLine p i line).
Proof.
  intros (pre & ws & post & -> & Hws & Hcap). unfold Octo.todoOfLine.
  destruct (exec_complete false todoReOcto pre _ post
              (todoReOcto_accepts ws cap post Hws Hcap)) as [y Hy].
  rewrite Hy. cbn [mbind option_bind].
  apply exec_sound in Hy as (pre' & s0 & _ & Hs).
  apply todoReOcto_sem in Hs as (ws' & cap' & _ & _ & _ & Hc).
  unfold capture.
  destruct (caps y !! 1%nat) as [cap0|] eqn:Hc0; [|discriminate].
  cbn [mbind option_bind]. eauto.
Qed.

(** * The pattern of the HTTPS script *)

Lemma openers_sem x y :
  sem true (Alt (lits (lit "//"))
             (Alt (lits (lit "#")) (Alt (lits (lit "<!--")) (lits (lit "/*")))))
      x y ->
  exists d, rest x = d ++ rest y /\ isOpener d /\ caps y = caps x.
Proof.
  intros Hs.
  change (sem true (lits (lit "//")) x y
          \/ sem true (lits (lit "#")) x y
          \/ sem true (lits (lit "<!--")) x y
          \/ sem true (lits (lit "/*")) x y) in Hs.
  unfold isOpener.
  destruct Hs as [H|[H|[H|H]]];
    apply sem_lits in H as (m & Hx & Hm & Hc);
    apply lits_exact in Hm; try (repeat constructor; fail);
    subst m; eauto 10.
Qed.

Lemma openers_accepts d s :
  isOpener d ->
  accepts true (Alt (lits (lit "//"))
                 (Alt (lits (lit "#")) (Alt (lits (lit "<!--")) (lits (lit "/*")))))
          (d ++ s) s.
Proof.
  intros Hd.
  change (accepts true (lits (lit "//")) (d ++ s) s
          \/ accepts true (lits (lit "#")) (d ++ s) s
          \/ accepts true (lits (lit "<!--")) (d ++ s) s
          \/ accepts true (lits (lit "/*")) (d ++ s) s).
  destruct Hd as [-> | [-> | [-> | ->]]];
    [left|right; left|right; right; left|right; right; right];
    apply accepts_lits; reflexivity.
Qed.

Lemma closers_sem x y :
  sem true (Alt (lits (lit "-->")) (Alt (lits (lit "*/")) Eoi)) x y ->
  closes (rest x) /\ caps y = caps x.
Proof.
  intros Hs.
  change (sem true (lits (lit "-->")) x y
          \/ sem true (lits (lit "*/")) x y
          \/ (rest x = [] /\ y = x)) in Hs.
  unfold closes.
  destruct Hs as [H|[H|[H ->]]]; [| |auto];
    apply sem_lits in H as (m & Hx & Hm & Hc);
    apply lits_exact in Hm; try (repeat constructor; fail);
    subst m; eauto 10.
Qed.

Lemma closers_accepts post :
  closes post ->
  exists s2, accepts true (Alt (lits (lit "-->")) (Alt (lits (lit "*/")) Eoi))
               post s2.
Proof.
  intros [-> | [[q ->] | [q ->]]].
  - exists []. right. right. split; reflexivity.
  - exists q. left. apply accepts_lits. reflexivity.
  - exists q. right. left. apply accepts_lits. reflexivity.
Qed.

Lemma todoReHttps_sem x y :
  sem true todoReHttps x y ->
  exists d ws1 kw ws2 cap,
    rest x = d ++ ws1 ++ kw ++ ws2 ++ cap ++ rest y
    /\ isOpener d /\ blank ws1 /\ sameIgnoringCase kw (lit "TODO:")
    /\ blank ws2 /\ oneLine cap /\ closes (rest y)
    /\ caps y !! 1%nat = Some cap.
Proof.
  intros Hs.
  change (exists y1,
            sem true (Alt (lits (lit "//"))
                       (Alt (lits (lit "#"))
                          (Alt (lits (lit "<!--")) (lits (lit "/*"))))) x y1
          /\ exists y2, iter (sem true (Cls Space)) (fun z => length (rest z)) y1 y2
          /\ exists y3, sem true (lits (lit "TODO:")) y2 y3
          /\ exists y4, iter (sem true (Cls Space)) (fun z => length (rest z)) y3 y4
          /\ exists y5, sem true (Group 1 (Plus false (Cls Dot))) y4 y5
          /\ exists y6,
               sem true (Alt (lits (lit "-->")) (Alt (lits (lit "*/")) Eoi)) y5 y6
               /\ y = MState (rest y5) (caps y6)) in Hs.
  destruct Hs as (y1 & H1 & y2 & H2 & y3 & H3 & y4 & H4 & y5 & H5 & y6 & H6 & ->).
  apply openers_sem in H1 as (d & Hx & Hd & _).
  apply sem_run in H2 as (ws1 & Hy1 & Hws1 & _).
  apply sem_lits in H3 as (kw & Hy2 & Hkw & _).
  apply sem_run in H4 as (ws2 & Hy3 & Hws2 & _).
  apply sem_capture in H5 as (cap & Hy4 & Hcap & Hc5).
  apply closers_sem in H6 as (Hcl & Hc6).
  exists d, ws1, kw, ws2, cap. cbn [rest caps].
  rewrite Hx, Hy1, Hy2, Hy3, Hy4, Hc6, Hc5.
  repeat split; try apply Hcap; auto. apply lookup_insert_eq.
Qed.

Lemma todoReHttps_accepts d ws1 kw ws2 cap post :
  isOpener d -> blank ws1 -> sameIgnoringCase kw (lit "TODO:") ->
  blank ws2 -> oneLine cap -> closes post ->
  accepts true todoReHttps (d ++ ws1 ++ kw ++ ws2 ++ cap ++ post) post.
Proof.
  intros Hd Hws1 Hkw Hws2 Hcap Hpost.
  change (exists s1,
            accepts true (Alt (lits (lit "//"))
                           (Alt (lits (lit "#"))
                              (Alt (lits (lit "<!--")) (lits (lit "/*")))))
              (d ++ ws1 ++ kw ++ ws2 ++ cap ++ post) s1
          /\ exists s2, iter (accepts true (Cls Space)) length s1 s2
          /\ exists s3, accepts true (lits (lit "TODO:")) s2 s3
          /\ exists s4, iter (accepts true (Cls Space)) length s3 s4
          /\ exists s5, accepts true (Group 1 (Plus false (Cls Dot))) s4 s5
          /\ post = s5
          /\ exists s6,
               accepts true (Alt (lits (lit "-->")) (Alt (lits (lit "*/")) Eoi))
                 s5 s6).
  exists (ws1 ++ kw ++ ws2 ++ cap ++ post). split; [apply openers_accepts, Hd|].
  exists (kw ++ ws2 ++ cap ++ post).
  split; [apply (accepts_run true Space), Hws1|].
  exists (ws2 ++ cap ++ post). split; [apply accepts_lits, Hkw|].
  exists (cap ++ post). split; [apply (accepts_run true Space), Hws2|].
  exists post. split; [apply accepts_capture, Hcap|].
  split; [reflexivity|]. apply closers_accepts, Hpost.
Qed.

Lemma Https_todoOfLine_sound p line t :
  Https.todoOfLine p line = Some t ->
  exists cap, marksHttps line cap
              /\ Https.text t = trim cap /\ Https.filePath t = p
              /\ Https.fingerprint t = p ++ lit "|" ++ trim cap.
Proof.
  unfold Https.todoOfLine.
  destruct (exec true todoReHttps line) as [y|] eqn:He; [|discriminate].
  apply exec_sound in He as (pre & s0 & -> & Hs).
  apply todoReHttps_sem in Hs
    as (d & ws1 & kw & ws2 & cap & Hx & Hd & Hws1 & Hkw & Hws2 & Hcap & Hcl & Hc).
  cbn [rest] in Hx. unfold capture. cbn [mbind option_bind].
  destruct (caps y !! 1%nat) as [cap0|] eqn:Hc0; [|discriminate].
  injection Hc as ->. cbn [mbind option_bind]. intros [= <-]. simpl.
  exists cap. repeat split; auto.
  exists pre, d, ws1, kw, ws2, (rest y). rewrite Hx. auto 10.
Qed.

Lemma Https_todoOfLine_complete p line cap :
  marksHttps line cap -> is_Some (Https.todoOfLine p line).
Proof.
  intros (pre & d & ws1 & kw & ws2 & post & -> & Hd & Hws1 & Hkw & Hws2
          & Hcap & Hcl).
  unfold Https.todoOfLine.
  destruct (exec_complete true todoReHttps pre _ post
              (todoReHttps_accepts d ws1 kw ws2 cap post
                 Hd Hws1 Hkw Hws2 Hcap Hcl)) as [y Hy].
  rewrite Hy. cbn [mbind option_bind].
  apply exec_sound in Hy as (pre' & s0 & _ & Hs).
  apply todoReHttps_sem in Hs as (? & ? & ? & ? & cap' & _ & _ & _ & _ & _ & _ & _ & Hc).
  unfold capture.
  destruct (caps y !! 1%nat) as [cap0|] eqn:Hc0; [|discriminate].
  cbn [mbind option_bind]. eauto.
Qed.

(** * Trimming *)

Lemma trimStart_head s c :
  head (trimStart s) = Some c -> isWhiteSpace c = false.
Proof.
  induction s as [|a s IH]; simpl; [discriminate|].
  destruct (isWhiteSpace a) eqn:Ha; [exact IH|].
  simpl. intros [= <-]. exact Ha.
Qed.

Lemma trimStart_suffix s : exists p, s = p ++ trimStart s.
Proof.
  induction s as [|a s [p IH]]; simpl; [exists []; reflexivity|].
  destruct (isWhiteSpace a).
  - exists (a :: p). simpl. f_equal. exact IH.
  - exists []. reflexivity.
Qed.

Lemma trimEnd_prefix s : exists q, s = trimEnd s ++ q.
Proof.
  unfold trimEnd. destruct (trimStart_suffix (rev s)) as [p Hp].
  exists (rev p). rewrite <- rev_app_distr, <- Hp, rev_involutive. reflexivity.
Qed.

Lemma last_rev_head {A} (l : list A) : last (rev l) = head l.
Proof. destruct l as [|a l]; [reflexivity|]. simpl. apply last_snoc. Qed.

Lemma trim_trimmed s : trimmed (trim s).
Proof.
  unfold trim. split; intros c Hc.
  - destruct (trimEnd_prefix (trimStart s)) as [q Hq].
    apply (trimStart_head s). rewrite Hq.
    destruct (trimEnd (trimStart s)); [discriminate|exact Hc].
  - unfold trimEnd in Hc. rewrite last_rev_head in Hc.
    apply trimStart_head in Hc. exact Hc.
Qed.

Lemma length_omap_le {A B} (f : A -> option B) l :
  (length (omap f l) <= length l)%nat.
Proof.
  induction l as [|a l IH]; simpl; [lia|].
  change (list_omap A B f l) with (omap f l).
  destruct (f a); simpl; lia.
Qed.

(** * Extraction of annotations *)

(** The carriage return of a CRLF file stays on the line, and the
    pattern of the HTTPS script then finds no end for the text. *)
Example Https_line_with_carriage_return :
  Https.todoOfLine (lit "a.js") (lit "// TODO: fix" ++ [13]) = None
  /\ (exists t, Octo.todoOfLine (lit "a.js") 0 (lit "// TODO: fix" ++ [13]) = Some t
                /\ Octo.text t = lit "fix").
Proof. split; [vm_compute; reflexivity|]. eexists. split; vm_compute; reflexivity. Qed.

(** C6 fails on the Octokit script, whose pattern asks for no comment
    opener and is case-sensitive: a lower-case marker after a comment
    opener is not extracted, and a marker outside any comment is. *)
Lemma C6_counterexample :
  (marksHttps (lit "// todo: x") (lit "x")
   /\ Octo.todoOfLine (lit "a.js") 0 (lit "// todo: x") = None)
  /\ (is_Some (Octo.todoOfLine (lit "a.js") 0 (lit "TODO: x"))
      /\ ~ exists cap, marksHttps (lit "TODO: x") cap).
Proof.
  split; split.
  - exists [], (lit "//"), (lit " "), (lit "todo:"), (lit " "), [].
    unfold isOpener, blank, sameIgnoringCase, oneLine, closes.
    repeat split; auto; try discriminate; repeat constructor.
  - vm_compute. reflexivity.
  - vm_compute. eauto.
  - intros [cap H].
    apply (Https_todoOfLine_complete (lit "a.js")) in H as [t Ht].
    vm_compute in Ht. discriminate.
Qed.

(** * Nothing is retracted *)

Lemma created_app t1 t2 : created (t1 ++ t2) = created t1 ++ created t2.
Proof. apply omap_app. Qed.

Section Tracks.
Context {A B : Type}.

Lemma tracks_ret (a : A) : tracks (ret a).
Proof. intros w. reflexivity. Qed.

Lemma tracks_throw e : tracks (@throw A e).
Proof. intros w. reflexivity. Qed.

Lemma tracks_exit c : tracks (@exit A c).
Proof. intros w. reflexivity. Qed.

Lemma tracks_bind (m : M A) (f : A -> M B) :
  tracks m -> (forall a, tracks (f a)) -> tracks (bind m f).
Proof.
  intros Hm Hf w. rewrite final_bind, trace_bind. specialize (Hm w).
  destruct (outcome (m w)) as [a|e|c]; auto.
  rewrite Hf, Hm, created_app, rev_app_distr, app_assoc. reflexivity.
Qed.

Lemma tracks_tryCatch (m : M A) h :
  tracks m -> (forall e, tracks (h e)) -> tracks (tryCatch m h).
Proof.
  intros Hm Hh w. rewrite final_tryCatch, trace_tryCatch. specialize (Hm w).
  destruct (outcome (m w)) as [a|e|c]; auto.
  rewrite Hh, Hm, created_app, rev_app_distr, app_assoc. reflexivity.
Qed.

End Tracks.

Lemma tracks_console l msg : tracks (console l msg).
Proof. intros w. reflexivity. Qed.

Lemma tracks_sleep ms : tracks (emit (Sleep ms)).
Proof. intros w. reflexivity. Qed.

Lemma tracks_remoteList page : tracks (remoteList page).
Proof.
  intros w. unfold remoteList, records, final, trace.
  destruct (nextFault_run w) as (w1 & f & -> & Hi & _).
  destruct f; cbn [fst snd issues created omap rev app map];
    rewrite ?Hi; reflexivity.
Qed.

Lemma tracks_remoteProject k : tracks (remoteProject k).
Proof.
  intros w. unfold remoteProject, records, final, trace.
  destruct (nextFault_run w) as (w1 & f & -> & Hi & _).
  destruct f; cbn [fst snd issues created omap rev app map];
    rewrite ?Hi; reflexivity.
Qed.

Lemma tracks_remoteAddItem p c : tracks (remoteAddItem p c).
Proof.
  intros w. unfold remoteAddItem, records, final, trace.
  destruct (nextFault_run w) as (w1 & f & -> & Hi & _).
  destruct f; cbn [fst snd issues created omap rev app map];
    rewrite ?Hi; reflexivity.
Qed.

Lemma tracks_remoteProjectRaw k : tracks (remoteProjectRaw k).
Proof.
  intros w. unfold remoteProjectRaw, records, final, trace.
  destruct (nextReply_run w) as (w1 & f & -> & Hi & _).
  destruct f; cbn [fst snd issues created omap rev app map];
    rewrite ?Hi; reflexivity.
Qed.

Lemma tracks_remoteAddItemRaw p c : tracks (remoteAddItemRaw p c).
Proof.
  intros w. unfold remoteAddItemRaw, records, final, trace.
  destruct (nextReply_run w) as (w1 & f & -> & Hi & _).
  destruct f; cbn [fst snd issues created omap rev app map];
    rewrite ?Hi; reflexivity.
Qed.

Lemma tracks_remoteCreate ttl bdy lbls : tracks (remoteCreate ttl bdy lbls).
Proof.
  intros w. unfold remoteCreate, records, final, trace.
  destruct (nextFault_run w) as (w1 & f & -> & Hi & _).
  destruct f; cbn [fst snd issues created omap rev app map];
    rewrite ?Hi; reflexivity.
Qed.

(** Decomposes a goal [tracks m] along the structure of [m]. *)
Ltac tracks_step :=
  first
    [ apply tracks_ret | apply tracks_throw | apply tracks_exit
    | apply tracks_console | apply tracks_sleep
    | apply tracks_remoteList | apply tracks_remoteCreate
    | apply tracks_remoteProject | apply tracks_remoteAddItem
    | apply tracks_remoteProjectRaw | apply tracks_remoteAddItemRaw
    | apply tracks_bind; [|intros]
    | apply tracks_tryCatch; [|intros]
    | match goal with
      | |- tracks (if ?b then _ else _) => destruct b
      | |- tracks (match ?x with _ => _ end) => destruct x
      end
    | assumption ].

Ltac tracks_auto := repeat tracks_step.

Lemma Octo_createLoop_tracks pn pid todos : forall c,
  tracks (Octo.createLoop pn pid todos c).
Proof.
  induction todos as [|t todos IH]; intros c; cbn [Octo.createLoop].
  - apply tracks_ret.
  - apply tracks_bind; [|intros; apply IH].
    unfold Octo.createIssue, Octo.addIssueToProject. tracks_auto.
Qed.

Lemma Https_createLoop_tracks owner pn E allTodos : forall c,
  tracks (Https.createLoop owner pn E allTodos c).
Proof.
  induction allTodos as [|t todos IH]; intros c; cbn [Https.createLoop].
  - apply tracks_ret.
  - apply tracks_bind; [|intros; apply IH].
    unfold Https.createIssue, Https.addIssueToProject, Https.tryOwner,
      Https.addItemToProject.
    tracks_auto.
Qed.

(** * Linking *)

(** C8 fails on the HTTPS script: when no project is found under either
    owner kind [addIssueToProject] throws, the handler of the loop takes
    it for a failed creation, and the record that was created is not
    counted. *)
Lemma C8_counterexample :
  (exists e, outcome (Https.addIssueToProject (lit "octocat") (lit "I_node") 15
                        emptyWorld) = Throw e)
  /\ map snd (createCalls (trace (Https.run sampleConfig oneTodo emptyWorld)))
     = [true]
  /\ Https_failedItems (trace (Https.run sampleConfig oneTodo emptyWorld))
     = [lit "fix"]
  /\ exists pre, trace (Https.run sampleConfig oneTodo emptyWorld)
                 = pre ++ Https_summary (1%nat, 0%nat).
Proof.
  repeat apply conj; try (vm_compute; reflexivity).
  - eexists. vm_compute. reflexivity.
  - exists (take 15 (trace (Https.run sampleConfig oneTodo emptyWorld))).
    vm_compute. reflexivity.
Qed.

(** * Paging through the records *)

(** What is left to list from a page on. *)
Lemma remoteList_quiet page w :
  faults w = [] ->
  remoteList page w
  = (w, [ListIssues page true],
     Ret (take 100 (drop (100 * (page - 1)) (openTodoIssues w)),
          bool_decide (100 < length (drop (100 * (page - 1)) (openTodoIssues w)))%nat)).
Proof.
  intros Hf. unfold remoteList, nextFault. rewrite Hf. reflexivity.
Qed.

Lemma addFingerprints_app l1 l2 acc :
  addFingerprints (l1 ++ l2) acc = addFingerprints l2 (addFingerprints l1 acc).
Proof. unfold addFingerprints. apply foldl_app. Qed.

(** With enough fuel the loop over the pages reads every record that is
    left, so the fuel never cuts the paging short. *)
Lemma Octo_pagesLoop_all w : faults w = [] -> forall fuel page acc,
  (1 <= page)%nat ->
  (length (drop (100 * (page - 1)) (openTodoIssues w)) < 100 * fuel)%nat ->
  outcome (Octo.pagesLoop fuel page acc w)
  = Ret (addFingerprints (drop (100 * (page - 1)) (openTodoIssues w)) acc).
Proof.
  intros Hf. induction fuel as [|fuel IH]; intros page acc Hp Hlen; [lia|].
  cbn [Octo.pagesLoop]. unfold bind. rewrite (remoteList_quiet page w Hf).
  cbn [fst snd].
  set (l := drop (100 * (page - 1)) (openTodoIssues w)) in *.
  destruct (bool_decide_reflect (100 < length l)%nat) as [Hlt|Hge].
  - specialize (IH (S page) (addFingerprints (take 100 l) acc)).
    replace (100 * (S page - 1))%nat with (100 * (page - 1) + 100)%nat in IH by lia.
    rewrite <- drop_drop in IH. fold l in IH.
    destruct (Octo.pagesLoop fuel (S page) _ w) as [[w2 t2] r2].
    cbn [outcome snd] in *. rewrite IH.
    + rewrite <- addFingerprints_app, take_drop. reflexivity.
    + lia.
    + rewrite length_drop. lia.
  - cbn [outcome snd ret]. rewrite take_ge by lia. reflexivity.
Qed.

(** The reader of the Octokit script returns the identity of every open
    record labelled todo, however many there are. *)
Lemma Octo_fetch_all w :
  faults w = [] ->
  outcome (Octo.fetchExistingTodoIssues w)
  = Ret (addFingerprints (openTodoIssues w) ∅).
Proof.
  intros Hf. unfold Octo.fetchExistingTodoIssues. rewrite outcome_tryCatch.
  rewrite (Octo_pagesLoop_all w Hf); [reflexivity|lia|].
  simpl. rewrite drop_0. unfold openTodoIssues.
  pose proof (length_filter (fun i => is_open i && hasLabel (lit "todo") i = true)
                (issues w)). lia.
Qed.

Lemma addFingerprints_elem l : forall acc r i,
  r ∈ l -> extractFingerprint (body r) = Some i -> i ∈ addFingerprints l acc.
Proof.
  unfold addFingerprints.
  induction l as [|a l IH] using rev_ind; intros acc r i Hr Hi.
  - inversion Hr.
  - rewrite foldl_app. simpl. apply elem_of_app in Hr as [Hr|Hr].
    + specialize (IH acc r i Hr Hi).
      destruct (extractFingerprint (body a)); [set_solver|exact IH].
    + apply list_elem_of_singleton in Hr as ->. rewrite Hi. set_solver.
Qed.

(** The reader of the Octokit script misses no record: when every
    request goes through, the identity read from the marker of any open
    record labelled todo is in the set it returns. *)
Lemma Octo_reader_complete w r i :
  faults w = [] ->
  r ∈ openTodoIssues w -> extractFingerprint (body r) = Some i ->
  i ∈ returned (Octo.fetchExistingTodoIssues w).
Proof.
  intros Hf Hr Hi. unfold returned. rewrite (Octo_fetch_all w Hf).
  eapply addFingerprints_elem; eauto.
Qed.

(** The reader of the HTTPS script returns the identities of the first
    hundred records only. *)
Lemma Https_reader_first_page w :
  faults w = [] ->
  returned (Https.fetchExistingTodoIssues w)
  = addFingerprints (take 100 (openTodoIssues w)) ∅.
Proof.
  intros Hf. unfold returned, Https.fetchExistingTodoIssues, bind, console, emit.
  cbv beta iota. rewrite (remoteList_quiet 1 w Hf). simpl.
  rewrite drop_0. reflexivity.
Qed.

(** C5 fails on the HTTPS script, whose reader makes one request and so
    sees one page of 100 records: with 101 open marked records the
    identity of the last one is not in the set it returns.  The reader
    of the Octokit script, which follows the pages, returns it. *)
Theorem C5_first_page_only :
  markedRecord 100 ∈ openTodoIssues crowdedWorld
  /\ extractFingerprint (body (markedRecord 100)) = Some (markedIdentity 100)
  /\ size (returned (Https.fetchExistingTodoIssues crowdedWorld)) = 100%nat
  /\ (markedIdentity 100 ∉ returned (Https.fetchExistingTodoIssues crowdedWorld))
  /\ size (returned (Octo.fetchExistingTodoIssues crowdedWorld)) = 101%nat
  /\ (markedIdentity 100 ∈ returned (Octo.fetchExistingTodoIssues crowdedWorld)).
Proof.
  split; [|split; [|split; [|split; [|split]]]].
  - apply list_elem_of_In. vm_compute. do 100 right. left. reflexivity.
  - vm_compute. reflexivity.
  - vm_compute. reflexivity.
  - intros Hin. apply (bool_decide_eq_true_2 _) in Hin.
    vm_compute in Hin. discriminate.
  - vm_compute. reflexivity.
  - apply (bool_decide_eq_true_1 _). vm_compute. reflexivity.
Qed.

(** * The example scenario of the specification *)

(** The identity of the second example of the specification, and its
    way through a record body and back, in both scripts. *)
Example example_identity :
  Octo.generateFingerprint (lit "src/x.ts") (lit "Refactor later (see #42)")
  = lit "src/x.ts|Refactor later (see #42)"
  /\ extractFingerprint
       (Some (Octo.issueBody
                (Octo.Todo (lit "src/x.ts") (lit "Refactor later (see #42)") 7)
                (lit "src/x.ts|Refactor later (see #42)")))
     = Some (lit "src/x.ts|Refactor later (see #42)")
  /\ extractFingerprint
       (Some (Https.issueBody (lit "src/x.ts")
                (lit "src/x.ts|Refactor later (see #42)")))
     = Some (lit "src/x.ts|Refactor later (see #42)").
Proof. repeat split; vm_compute; reflexivity. Qed.

Example example_scenario :
  map fst (createCalls (trace (Https.run sampleConfig twoFiles oneRecordWithProject)))
  = [(lit "TODO: fix auth", Https.issueBody (lit "b.txt") (lit "b.txt|fix auth"))]
  /\ (exists pre, trace (Https.run sampleConfig twoFiles oneRecordWithProject)
                  = pre ++ Https_summary (2%nat, 1%nat))
  /\ map fst (createCalls (trace (Octo.run sampleConfig twoFiles oneRecordWithProject)))
     = [Octo_call (Octo.Todo (lit "b.txt") (lit "fix auth") 1)].
Proof.
  repeat apply conj; try (vm_compute; reflexivity).
  exists (take (length (trace (Https.run sampleConfig twoFiles
                                    oneRecordWithProject)) - 4)
            (trace (Https.run sampleConfig twoFiles oneRecordWithProject))).
  vm_compute. reflexivity.
Qed.


(** * More on the walk over the source tree *)

(** Membership in the result of a sequence of two computations that
    both return lists. *)
Lemma bind_app_spec {A} (m1 m2 : M (list A)) w l1 l2 :
  outcome (m1 w) = Ret l1 -> final (m1 w) = w ->
  outcome (m2 w) = Ret l2 -> final (m2 w) = w ->
  outcome ((let* a := m1 in let* b := m2 in ret (a ++ b)) w) = Ret (l1 ++ l2)
  /\ final ((let* a := m1 in let* b := m2 in ret (a ++ b)) w) = w.
Proof.
  intros H1 F1 H2 F2.
  rewrite outcome_bind, final_bind, H1, F1.
  rewrite outcome_bind, final_bind, H2, F2. split; reflexivity.
Qed.

Lemma Octo_scanEntry_spec e : forall rel w,
  exists l, outcome (Octo.scanEntry rel e w) = Ret l
            /\ final (Octo.scanEntry rel e w) = w
            /\ forall t, t ∈ l <-> OctoFound rel e t.
Proof.
  induction e as [n r|n b es IH|n] using entry_nested_ind; intros rel w.
  - destruct r as [content|code msg]; cbn [Octo.scanEntry Octo.readTodos].
    + eexists. split; [reflexivity|]. split; [reflexivity|].
      intros t. split.
      * intros Ht. exists (relJoin rel n), content. split; [constructor|exact Ht].
      * intros (p & c & Hl & Ht). inversion Hl; subst. exact Ht.
    + exists []. split; [|split].
      * destruct (bool_decide _); reflexivity.
      * destruct (bool_decide _); reflexivity.
      * intros t. split; [intros H; inversion H|].
        intros (p & c & Hl & Ht). inversion Hl.
  - cbn [Octo.scanEntry].
    destruct (bool_decide_reflect (n ∈ Octo.EXCLUDED_DIRS)) as [Hex|Hex].
    { exists []. split; [reflexivity|]. split; [reflexivity|].
      intros t. split; [intros H; inversion H|].
      intros (p & c & Hl & Ht). inversion Hl; subst. contradiction. }
    destruct b.
    + assert (Hes : exists l,
         outcome ((fix scanEntries (es0 : list entry) : M (list Octo.todo) :=
                     match es0 with
                     | [] => ret []
                     | e' :: es' =>
                         let* a := Octo.scanEntry (relJoin rel n) e' in
                         let* b := scanEntries es' in
                         ret (a ++ b)
                     end) es w) = Ret l
         /\ final ((fix scanEntries (es0 : list entry) : M (list Octo.todo) :=
                     match es0 with
                     | [] => ret []
                     | e' :: es' =>
                         let* a := Octo.scanEntry (relJoin rel n) e' in
                         let* b := scanEntries es' in
                         ret (a ++ b)
                     end) es w) = w
         /\ forall t, t ∈ l <-> exists e, e ∈ es /\ OctoFound (relJoin rel n) e t).
      { induction IH as [|e es He _ IHes].
        - exists []. split; [reflexivity|]. split; [reflexivity|].
          intros t. split; [intros H; inversion H|].
          intros (e & He & _). inversion He.
        - destruct (He (relJoin rel n) w) as (l1 & O1 & F1 & M1).
          destruct IHes as (l2 & O2 & F2 & M2).
          destruct (bind_app_spec _ _ w l1 l2 O1 F1 O2 F2) as [O F].
          exists (l1 ++ l2). split; [exact O|]. split; [exact F|].
          intros t. rewrite elem_of_app, M1, M2. split.
          + intros [H|(e' & He' & H)]; [exists e|exists e'];
              (split; [|exact H]); [left|right; exact He'].
          + intros (e' & He' & H). apply elem_of_cons in He' as [->|He'];
              [left; exact H|right; eauto]. }
      destruct Hes as (l & O & F & Mem). exists l.
      split; [exact O|]. split; [exact F|].
      intros t. rewrite Mem. split.
      * intros (e & He & p & c & Hl & Ht). exists p, c.
        split; [|exact Ht]. econstructor; eauto.
      * intros (p & c & Hl & Ht). inversion Hl; subst.
        eexists. split; [eassumption|]. exists p, c. auto.
    + exists []. split; [reflexivity|]. split; [reflexivity|].
      intros t. split; [intros H; inversion H|].
      intros (p & c & Hl & Ht). inversion Hl.
  - exists []. split; [reflexivity|]. split; [reflexivity|].
    intros t. split; [intros H; inversion H|].
    intros (p & c & Hl & Ht). inversion Hl.
Qed.

Lemma Octo_scanForTodos_spec tree : forall w,
  exists l, outcome (Octo.scanForTodos tree w) = Ret l
            /\ final (Octo.scanForTodos tree w) = w
            /\ forall t, t ∈ l <-> exists e, e ∈ tree /\ OctoFound [] e t.
Proof.
  induction tree as [|e tree IH]; intros w; cbn [Octo.scanForTodos].
  - exists []. split; [reflexivity|]. split; [reflexivity|].
    intros t. split; [intros H; inversion H|].
    intros (e & He & _). inversion He.
  - destruct (Octo_scanEntry_spec e [] w) as (l1 & O1 & F1 & M1).
    destruct (IH w) as (l2 & O2 & F2 & M2).
    destruct (bind_app_spec _ _ w l1 l2 O1 F1 O2 F2) as [O F].
    exists (l1 ++ l2). split; [exact O|]. split; [exact F|].
    intros t. rewrite elem_of_app, M1, M2. split.
    + intros [H|(e' & He' & H)]; [exists e|exists e'];
        (split; [|exact H]); [left|right; exact He'].
    + intros (e' & He' & H). apply elem_of_cons in He' as [->|He'];
        [left; exact H|right; eauto].
Qed.

(** The walk of the Octokit script finds exactly the annotations of the
    readable files that lie below no excluded directory, at any depth,
    and below no directory that cannot be listed; it returns whatever
    cannot be read, and leaves the tracker alone. *)
Theorem Octo_scan_exact tree w :
  (exists l, outcome (Octo.scanForTodos tree w) = Ret l)
  /\ final (Octo.scanForTodos tree w) = w
  /\ forall t,
       t ∈ valueOr [] (Octo.scanForTodos tree w)
       <-> exists p content,
             locatedIn Octo.EXCLUDED_DIRS tree p (Content content)
             /\ t ∈ Octo.todosOfContent p content.
Proof.
  destruct (Octo_scanForTodos_spec tree w) as (l & O & F & Mem).
  split; [eauto|]. split; [exact F|].
  intros t. unfold valueOr. rewrite O, Mem. unfold OctoFound, locatedIn.
  split.
  - intros (e & He & p & c & Hl & Ht). eauto 10.
  - intros (p & c & (e & He & Hl) & Ht). eauto 10.
Qed.

Lemma bind_app_throw_l {A} (m1 m2 : M (list A)) w e :
  outcome (m1 w) = Throw e -> final (m1 w) = w ->
  outcome ((let* a := m1 in let* b := m2 in ret (a ++ b)) w) = Throw e
  /\ final ((let* a := m1 in let* b := m2 in ret (a ++ b)) w) = w.
Proof.
  intros H1 F1. rewrite outcome_bind, final_bind, H1, F1. split; reflexivity.
Qed.

Lemma bind_app_throw_r {A} (m1 m2 : M (list A)) w l1 e :
  outcome (m1 w) = Ret l1 -> final (m1 w) = w ->
  outcome (m2 w) = Throw e -> final (m2 w) = w ->
  outcome ((let* a := m1 in let* b := m2 in ret (a ++ b)) w) = Throw e
  /\ final ((let* a := m1 in let* b := m2 in ret (a ++ b)) w) = w.
Proof.
  intros H1 F1 H2 F2.
  rewrite outcome_bind, final_bind, H1, F1.
  rewrite outcome_bind, final_bind, H2, F2. split; reflexivity.
Qed.

Lemma Https_scanEntry_spec e : forall rel w,
  final (Https.scanEntry rel e w) = w
  /\ HttpsWalk (walkable Https.EXCLUDED_DIRS e) (HttpsFound rel e)
       (Https.scanEntry rel e w).
Proof.
  induction e as [n r|n b es IH|n] using entry_nested_ind; intros rel w.
  - destruct r as [content|code msg];
      cbn [Https.scanEntry Https.extractTodos walkable HttpsWalk].
    + split; [reflexivity|]. eexists. split; [reflexivity|].
      intros t. split.
      * intros Ht. exists (relJoin rel n), content. split; [constructor|exact Ht].
      * intros (p & c & Hl & Ht). inversion Hl; subst. exact Ht.
    + split; [destruct (bool_decide _); reflexivity|].
      exists []. split; [destruct (bool_decide _); reflexivity|].
      intros t. split; [intros H; inversion H|].
      intros (p & c & Hl & Ht). inversion Hl.
  - cbn [Https.scanEntry walkable].
    destruct (bool_decide_reflect (n ∈ Https.EXCLUDED_DIRS)) as [Hex|Hex].
    { split; [reflexivity|]. exists []. split; [reflexivity|].
      intros t. split; [intros H; inversion H|].
      intros (p & c & Hl & Ht). inversion Hl; subst. contradiction. }
    destruct b; cbn [orb andb]; [|split; [reflexivity|eexists; reflexivity]].
    assert (Hes :
      final ((fix scanEntries (es0 : list entry) : M (list Https.todo) :=
                match es0 with
                | [] => ret []
                | e' :: es' =>
                    let* a := Https.scanEntry (relJoin rel n) e' in
                    let* b := scanEntries es' in
                    ret (a ++ b)
                end) es w) = w
      /\ HttpsWalk (forallb (walkable Https.EXCLUDED_DIRS) es)
           (fun t => exists e, e ∈ es /\ HttpsFound (relJoin rel n) e t)
           ((fix scanEntries (es0 : list entry) : M (list Https.todo) :=
                match es0 with
                | [] => ret []
                | e' :: es' =>
                    let* a := Https.scanEntry (relJoin rel n) e' in
                    let* b := scanEntries es' in
                    ret (a ++ b)
                end) es w)).
    { induction IH as [|e es He _ IHes].
      - split; [reflexivity|]. exists []. split; [reflexivity|].
        intros t. split; [intros H; inversion H|].
        intros (e & He & _). inversion He.
      - destruct (He (relJoin rel n) w) as (F1 & W1).
        destruct IHes as (F2 & W2). cbn [forallb].
        destruct (walkable Https.EXCLUDED_DIRS e); cbn [andb HttpsWalk] in *.
        + destruct W1 as (l1 & O1 & M1).
          destruct (forallb (walkable Https.EXCLUDED_DIRS) es);
            cbn [HttpsWalk] in *.
          * destruct W2 as (l2 & O2 & M2).
            destruct (bind_app_spec _ _ w l1 l2 O1 F1 O2 F2) as [O F].
            split; [exact F|]. exists (l1 ++ l2). split; [exact O|].
            intros t. rewrite elem_of_app, M1, M2. split.
            -- intros [H|(e' & He' & H)]; [exists e|exists e'];
                 (split; [|exact H]); [left|right; exact He'].
            -- intros (e' & He' & H). apply elem_of_cons in He' as [->|He'];
                 [left; exact H|right; eauto].
          * destruct W2 as (err & O2).
            destruct (bind_app_throw_r _ _ w l1 err O1 F1 O2 F2) as [O F].
            split; [exact F|]. eauto.
        + destruct W1 as (err & O1).
          pose proof (fun m2 => bind_app_throw_l _ m2 w err O1 F1) as H.
          split; [apply H|]. exists err. apply H. }
    destruct Hes as (F & W). split; [exact F|].
    destruct (forallb (walkable Https.EXCLUDED_DIRS) es); cbn [HttpsWalk] in *;
      [|exact W].
    destruct W as (l & O & Mem). exists l. split; [exact O|].
    intros t. rewrite Mem. split.
    + intros (e & He & p & c & Hl & Ht). exists p, c.
      split; [|exact Ht]. econstructor; eauto.
    + intros (p & c & Hl & Ht). inversion Hl; subst.
      eexists. split; [eassumption|]. exists p, c. auto.
  - split; [reflexivity|]. exists []. split; [reflexivity|].
    intros t. split; [intros H; inversion H|].
    intros (p & c & Hl & Ht). inversion Hl.
Qed.

Lemma Https_scanDirectory_spec tree : forall w,
  final (Https.scanDirectory tree w) = w
  /\ HttpsWalk (forallb (walkable Https.EXCLUDED_DIRS) tree)
       (fun t => exists e, e ∈ tree /\ HttpsFound [] e t)
       (Https.scanDirectory tree w).
Proof.
  induction tree as [|e tree IH]; intros w; cbn [Https.scanDirectory].
  - split; [reflexivity|]. exists []. split; [reflexivity|].
    intros t. split; [intros H; inversion H|].
    intros (e & He & _). inversion He.
  - destruct (Https_scanEntry_spec e [] w) as (F1 & W1).
    destruct (IH w) as (F2 & W2). cbn [forallb].
    destruct (walkable Https.EXCLUDED_DIRS e); cbn [andb HttpsWalk] in *.
    + destruct W1 as (l1 & O1 & M1).
      destruct (forallb (walkable Https.EXCLUDED_DIRS) tree);
        cbn [HttpsWalk] in *.
      * destruct W2 as (l2 & O2 & M2).
        destruct (bind_app_spec _ _ w l1 l2 O1 F1 O2 F2) as [O F].
        split; [exact F|]. exists (l1 ++ l2). split; [exact O|].
        intros t. rewrite elem_of_app, M1, M2. split.
        -- intros [H|(e' & He' & H)]; [exists e|exists e'];
             (split; [|exact H]); [left|right; exact He'].
        -- intros (e' & He' & H). apply elem_of_cons in He' as [->|He'];
             [left; exact H|right; eauto].
      * destruct W2 as (err & O2).
        destruct (bind_app_throw_r _ _ w l1 err O1 F1 O2 F2) as [O F].
        split; [exact F|]. eauto.
    + destruct W1 as (err & O1).
      pose proof (fun m2 => bind_app_throw_l _ m2 w err O1 F1) as H.
      split; [apply H|]. exists err. apply H.
Qed.

(** The walk of the HTTPS script throws exactly when it reaches a
    directory that cannot be listed; otherwise it finds exactly the
    annotations of the readable files that lie below no excluded
    directory.  A file that cannot be read stops nothing. *)
Theorem Https_scan_exact tree w :
  final (Https.scanDirectory tree w) = w
  /\ (forallb (walkable Https.EXCLUDED_DIRS) tree = true ->
      exists l, outcome (Https.scanDirectory tree w) = Ret l
                /\ forall t,
                     t ∈ l
                     <-> exists p content,
                           locatedIn Https.EXCLUDED_DIRS tree p (Content content)
                           /\ t ∈ Https.todosOfContent p content)
  /\ (forallb (walkable Https.EXCLUDED_DIRS) tree = false ->
      exists err, outcome (Https.scanDirectory tree w) = Throw err).
Proof.
  destruct (Https_scanDirectory_spec tree w) as (F & W).
  split; [exact F|]. split; intros Hw; rewrite Hw in W; cbn [HttpsWalk] in W.
  - destruct W as (l & O & Mem). exists l. split; [exact O|].
    intros t. rewrite Mem. unfold HttpsFound, locatedIn. split.
    + intros (e & He & p & c & Hl & Ht). eauto 10.
    + intros (p & c & (e & He & Hl) & Ht). eauto 10.
  - exact W.
Qed.

Lemma Https_scan_exact_witness :
  (exists l, outcome (Https.scanDirectory mixedTree emptyWorld) = Ret l)
  /\ (exists err, outcome (Https.scanDirectory lockedTree emptyWorld) = Throw err).
Proof.
  split.
  - destruct (Https_scan_exact mixedTree emptyWorld) as (_ & H & _).
    destruct H as (l & Hl & _); [vm_compute; reflexivity|]. eauto.
  - destruct (Https_scan_exact lockedTree emptyWorld) as (_ & _ & H).
    apply H. vm_compute. reflexivity.
Defined.

(** * Line numbers *)

Lemma Octo_todosOfContent_from k p (lines : list jsstr) :
  StronglySorted lt
    (map Octo.lineNumber
       (omap (fun il => Octo.todoOfLine p (fst il) (snd il))
          (imap (fun i x => ((k + i)%nat, x)) lines)))
  /\ Forall (fun t => (k < Octo.lineNumber t)%nat)
       (omap (fun il => Octo.todoOfLine p (fst il) (snd il))
          (imap (fun i x => ((k + i)%nat, x)) lines)).
Proof.
  revert k. induction lines as [|line lines IH]; intros k.
  - split; constructor.
  - cbn [imap omap list_omap].
    assert (Hext : imap ((fun i x => ((k + i)%nat, x)) ∘ S) lines
                   = imap (fun i x => ((S k + i)%nat, x)) lines).
    { apply imap_ext. intros i x _. simpl. f_equal. lia. }
    change (list_omap _ _ ?f ?l) with (omap f l). rewrite Hext.
    destruct (IH (S k)) as [Hs Hf].
    cbn [fst snd].
    destruct (Octo.todoOfLine p (k + 0) line) as [t|] eqn:Ht.
    + assert (Hn : Octo.lineNumber t = (k + 0 + 1)%nat).
      { unfold Octo.todoOfLine in Ht.
        destruct (exec false todoReOcto line); [|discriminate].
        cbn [mbind option_bind] in Ht.
        destruct (capture 1 m); [|discriminate].
        cbn [mbind option_bind] in Ht. injection Ht as <-. reflexivity. }
      split.
      * cbn [map]. constructor; [exact Hs|].
        apply Forall_map. eapply Forall_impl; [exact Hf|].
        intros t' Ht'. simpl in *. lia.
      * constructor; [lia|]. eapply Forall_impl; [exact Hf|].
        intros t' Ht'. simpl in *. lia.
    + split; [exact Hs|]. eapply Forall_impl; [exact Hf|].
      intros t' Ht'. simpl in *. lia.
Qed.

(** The annotations of a file come in the order of its lines: each
    carries the path of the file and the number, from 1, of the line it
    was read from, and the numbers increase strictly. *)
Theorem Octo_line_numbers p content :
  StronglySorted lt (map Octo.lineNumber (Octo.todosOfContent p content))
  /\ forall t,
       t ∈ Octo.todosOfContent p content
       <-> exists i line,
             split_lines content !! i = Some line
             /\ Octo.todoOfLine p i line = Some t
             /\ Octo.lineNumber t = S i /\ Octo.filePath t = p.
Proof.
  split.
  - apply (Octo_todosOfContent_from 0 p (split_lines content)).
  - intros t. unfold Octo.todosOfContent. rewrite list_elem_of_omap. split.
    + intros ([i line] & Hin & Ht). apply elem_of_lookup_imap in Hin
        as (j & x & [= -> ->] & Hj).
      exists j, x. cbn [fst snd] in Ht. repeat split; auto.
      * apply Octo_todoOfLine_sound in Ht as (? & _ & _ & _ & Hn). lia.
      * apply Octo_todoOfLine_sound in Ht as (? & _ & _ & Hp & _). exact Hp.
    + intros (i & line & Hl & Ht & _). exists (i, line). split; [|exact Ht].
      apply elem_of_lookup_imap. eauto.
Qed.

Lemma Octo_line_numbers_witness :
  Octo.Todo (lit "a.txt") (lit "fix auth") 3
  ∈ Octo.todosOfContent (lit "a.txt")
      (lit "one" ++ [10] ++ lit "two" ++ [10] ++ lit "// TODO: fix auth").
Proof.
  destruct (Octo_line_numbers (lit "a.txt")
              (lit "one" ++ [10] ++ lit "two" ++ [10] ++ lit "// TODO: fix auth"))
    as (_ & H).
  apply H. exists 2%nat, (lit "// TODO: fix auth").
  repeat split; vm_compute; reflexivity.
Defined.

(** * The identity as a key *)

(** The identity determines the path and the text as long as no path
    holds the delimiter: two annotations with the same identity then
    have the same path and the same text. *)
Theorem fingerprint_injective p1 t1 p2 t2 :
  124 ∉ p1 -> 124 ∉ p2 ->
  Octo.generateFingerprint p1 t1 = Octo.generateFingerprint p2 t2 ->
  p1 = p2 /\ t1 = t2.
Proof.
  unfold Octo.generateFingerprint. change (lit "|") with [124].
  revert p2. induction p1 as [|a p1 IH]; intros p2 H1 H2 Heq.
  - destruct p2 as [|b p2]; simpl in Heq.
    + injection Heq as ->. auto.
    + injection Heq as <- _. exfalso. apply H2. left.
  - destruct p2 as [|b p2]; simpl in Heq.
    + injection Heq as -> _. exfalso. apply H1. left.
    + injection Heq as -> Heq.
      destruct (IH p2) as [-> ->]; auto.
      * intros H. apply H1. right. exact H.
      * intros H. apply H2. right. exact H.
Qed.

Lemma fingerprint_injective_witness :
  lit "src/a.ts" = lit "src/a.ts" /\ lit "fix | later" = lit "fix | later".
Proof.
  apply fingerprint_injective; [| |reflexivity];
    intros H; apply list_elem_of_In in H; vm_compute in H;
    repeat (destruct H as [H|H]; [discriminate|]); exact H.
Defined.

(** Without that condition two different annotations can share an
    identity: a path that holds the delimiter. *)
Example fingerprint_collision :
  Octo.generateFingerprint (lit "a|b") (lit "c")
  = Octo.generateFingerprint (lit "a") (lit "b|c").
Proof. reflexivity. Qed.

(** * Reading the marker *)

Lemma fingerprintRe_sem x y :
  sem false fingerprintRe x y ->
  exists cap,
    rest x = lit "fingerprint=" ++ cap ++ rest y
    /\ oneLine cap /\ caps y !! 1%nat = Some cap.
Proof.
  intros Hs.
  change (exists y1, sem false (lits (lit "fingerprint=")) x y1
          /\ sem false (Group 1 (Plus true (Cls Dot))) y1 y) in Hs.
  destruct Hs as (y1 & H1 & H2).
  apply sem_lits in H1 as (m & Hx & Hm%canonicalize_false & _).
  apply sem_capture in H2 as (cap & Hy1 & Hcap & Hc).
  exists cap. rewrite Hx, Hm, Hy1, Hc.
  repeat split; try apply Hcap. apply lookup_insert_eq.
Qed.

Lemma fingerprintRe_accepts cap post :
  oneLine cap ->
  accepts false fingerprintRe (lit "fingerprint=" ++ cap ++ post) post.
Proof.
  intros Hcap.
  change (exists s1, accepts false (lits (lit "fingerprint="))
                       (lit "fingerprint=" ++ cap ++ post) s1
          /\ accepts false (Group 1 (Plus true (Cls Dot))) s1 post).
  exists (cap ++ post). split; [apply accepts_lits; reflexivity|].
  apply accepts_capture, Hcap.
Qed.

Lemma Forall_trimStart (P : char -> Prop) s : Forall P s -> Forall P (trimStart s).
Proof.
  intros H. destruct (trimStart_suffix s) as [p Hp]. rewrite Hp in H.
  apply Forall_app in H. apply H.
Qed.

Lemma Forall_trim (P : char -> Prop) s : Forall P s -> Forall P (trim s).
Proof.
  intros H. unfold trim. apply Forall_trimStart in H.
  destruct (trimEnd_prefix (trimStart s)) as [q Hq]. rewrite Hq in H.
  apply Forall_app in H. apply H.
Qed.

Lemma extractFingerprint_sound b i :
  extractFingerprint b = Some i ->
  exists s cap, b = Some s /\ marked s cap /\ i = trim cap.
Proof.
  unfold extractFingerprint. destruct b as [s|]; [|discriminate].
  cbn [mbind option_bind].
  destruct (exec false fingerprintRe s) as [y|] eqn:He; [|discriminate].
  apply exec_sound in He as (pre & s0 & -> & Hs).
  apply fingerprintRe_sem in Hs as (cap & Hx & Hcap & Hc).
  cbn [rest] in Hx. unfold capture. cbn [mbind option_bind].
  destruct (caps y !! 1%nat) as [cap0|] eqn:Hc0; [|discriminate].
  injection Hc as ->. cbn [mbind option_bind]. intros [= <-].
  exists (pre ++ s0), cap. repeat split; auto.
  exists pre, (rest y). rewrite Hx. auto.
Qed.

Lemma extractFingerprint_complete s cap :
  marked s cap -> is_Some (extractFingerprint (Some s)).
Proof.
  intros (pre & post & -> & Hcap). unfold extractFingerprint.
  cbn [mbind option_bind].
  destruct (exec_complete false fingerprintRe pre _ post
              (fingerprintRe_accepts cap post Hcap)) as [y Hy].
  rewrite Hy. cbn [mbind option_bind].
  apply exec_sound in Hy as (pre' & s0 & _ & Hs).
  apply fingerprintRe_sem in Hs as (cap' & _ & _ & Hc).
  unfold capture.
  destruct (caps y !! 1%nat) as [cap0|] eqn:Hc0; [|discriminate].
  cbn [mbind option_bind]. eauto.
Qed.

Lemma addFingerprints_spec l : forall acc i,
  i ∈ addFingerprints l acc
  <-> i ∈ acc \/ exists r, r ∈ l /\ extractFingerprint (body r) = Some i.
Proof.
  unfold addFingerprints.
  induction l as [|a l IH] using rev_ind; intros acc i.
  - simpl. split; [auto|]. intros [H|(r & Hr & _)]; [exact H|inversion Hr].
  - rewrite foldl_app. simpl.
    destruct (extractFingerprint (body a)) as [fp|] eqn:Ha.
    + rewrite elem_of_union, elem_of_singleton, IH. split.
      * intros [->|[H|(r & Hr & He)]]; [right|left; exact H|right].
        -- exists a. split; [apply elem_of_app; right; left|exact Ha].
        -- exists r. split; [apply elem_of_app; left; exact Hr|exact He].
      * intros [H|(r & Hr & He)]; [right; left; exact H|].
        apply elem_of_app in Hr as [Hr|Hr]; [right; right; eauto|].
        apply list_elem_of_singleton in Hr as ->. left. congruence.
    + rewrite IH. split.
      * intros [H|(r & Hr & He)]; [left; exact H|right].
        exists r. split; [apply elem_of_app; left; exact Hr|exact He].
      * intros [H|(r & Hr & He)]; [left; exact H|].
        apply elem_of_app in Hr as [Hr|Hr]; [right; eauto|].
        apply list_elem_of_singleton in Hr as ->. congruence.
Qed.

(** When every request goes through, the reader of the Octokit script
    returns exactly the identities read from the markers of the open
    records labelled todo, however many pages they fill. *)
Theorem Octo_reader_exact w i :
  faults w = [] ->
  i ∈ returned (Octo.fetchExistingTodoIssues w)
  <-> exists r, r ∈ openTodoIssues w /\ extractFingerprint (body r) = Some i.
Proof.
  intros Hf. unfold returned. rewrite (Octo_fetch_all w Hf).
  rewrite addFingerprints_spec. split; [|eauto].
  intros [H|H]; [|exact H]. exfalso. revert H. apply not_elem_of_empty.
Qed.

Lemma Octo_reader_exact_witness :
  markedIdentity 100 ∈ returned (Octo.fetchExistingTodoIssues crowdedWorld).
Proof.
  apply (Octo_reader_exact crowdedWorld); [reflexivity|].
  exists (markedRecord 100). split; [|vm_compute; reflexivity].
  apply list_elem_of_In. vm_compute. do 100 right. left. reflexivity.
Defined.

(** With at most a hundred open records labelled todo the reader of the
    HTTPS script returns what the reader of the Octokit script does. *)
Theorem Https_reader_agrees w :
  faults w = [] ->
  (length (openTodoIssues w) <= 100)%nat ->
  returned (Https.fetchExistingTodoIssues w)
  = returned (Octo.fetchExistingTodoIssues w).
Proof.
  intros Hf Hlen. rewrite (Https_reader_first_page w Hf).
  unfold returned at 1. rewrite (Octo_fetch_all w Hf).
  rewrite take_ge by exact Hlen. reflexivity.
Qed.

Lemma Https_reader_agrees_witness :
  returned (Https.fetchExistingTodoIssues oneRecord)
  = returned (Octo.fetchExistingTodoIssues oneRecord).
Proof.
  apply Https_reader_agrees; [reflexivity|]. vm_compute. lia.
Defined.

(** * Computations that only read *)

Lemma sameRemote_refl w : sameRemote w w.
Proof. repeat split. Qed.

Lemma sameRemote_trans w1 w2 w3 :
  sameRemote w1 w2 -> sameRemote w2 w3 -> sameRemote w1 w3.
Proof.
  unfold sameRemote. intros (A1 & A2 & A3 & A4 & A5) (B1 & B2 & B3 & B4 & B5).
  repeat split; congruence.
Qed.

Section ReadOnly.
Context {A B : Type}.

Lemma readOnly_ret (a : A) : readOnly (ret a).
Proof. intros w. apply sameRemote_refl. Qed.

Lemma readOnly_throw e : readOnly (@throw A e).
Proof. intros w. apply sameRemote_refl. Qed.

Lemma readOnly_exit c : readOnly (@exit A c).
Proof. intros w. apply sameRemote_refl. Qed.

Lemma readOnly_bind (m : M A) (f : A -> M B) :
  readOnly m -> (forall a, readOnly (f a)) -> readOnly (bind m f).
Proof.
  intros Hm Hf w. rewrite final_bind. specialize (Hm w).
  destruct (outcome (m w)) as [a|e|c]; auto.
  eapply sameRemote_trans; [exact Hm|apply Hf].
Qed.

Lemma readOnly_tryCatch (m : M A) h :
  readOnly m -> (forall e, readOnly (h e)) -> readOnly (tryCatch m h).
Proof.
  intros Hm Hh w. rewrite final_tryCatch. specialize (Hm w).
  destruct (outcome (m w)) as [a|e|c]; auto.
  eapply sameRemote_trans; [exact Hm|apply Hh].
Qed.

End ReadOnly.

Lemma readOnly_console l msg : readOnly (console l msg).
Proof. intros w. apply sameRemote_refl. Qed.

Lemma readOnly_emit e : readOnly (emit e).
Proof. intros w. apply sameRemote_refl. Qed.

Lemma nextFault_sameRemote w :
  exists w1 f, nextFault w = (w1, [], Ret f) /\ sameRemote w w1.
Proof.
  unfold nextFault. destruct (faults w) as [|f fs]; eexists _, _;
    (split; [reflexivity|]); repeat split.
Qed.

Lemma readOnly_remoteList page : readOnly (remoteList page).
Proof.
  intros w. unfold remoteList.
  destruct (nextFault_sameRemote w) as (w1 & f & -> & Hs).
  destruct f; exact Hs.
Qed.

Lemma readOnly_remoteProject k : readOnly (remoteProject k).
Proof.
  intros w. unfold remoteProject.
  destruct (nextFault_sameRemote w) as (w1 & f & -> & Hs).
  destruct f; exact Hs.
Qed.

(** Decomposes a goal [readOnly m] along the structure of [m]. *)
Ltac readOnly_step :=
  first
    [ apply readOnly_ret | apply readOnly_throw | apply readOnly_exit
    | apply readOnly_console | apply readOnly_emit
    | apply readOnly_remoteList | apply readOnly_remoteProject
    | apply readOnly_bind; [|intros]
    | apply readOnly_tryCatch; [|intros]
    | match goal with
      | |- readOnly (if ?b then _ else _) => destruct b
      | |- readOnly (match ?x with _ => _ end) => destruct x
      end
    | assumption ].

Ltac readOnly_auto := repeat readOnly_step.

Lemma Octo_pagesLoop_readOnly fuel : forall page acc,
  readOnly (Octo.pagesLoop fuel page acc).
Proof.
  induction fuel as [|fuel IH]; intros page acc; cbn [Octo.pagesLoop].
  - apply readOnly_ret.
  - readOnly_auto. apply IH.
Qed.

Lemma Octo_fetch_readOnly : readOnly Octo.fetchExistingTodoIssues.
Proof.
  intros w. unfold Octo.fetchExistingTodoIssues.
  apply (readOnly_tryCatch (Octo.pagesLoop (S (length (issues w))) 1 ∅)).
  - apply Octo_pagesLoop_readOnly.
  - intros e. readOnly_auto.
Qed.

Lemma Https_fetch_readOnly : readOnly Https.fetchExistingTodoIssues.
Proof. unfold Https.fetchExistingTodoIssues. readOnly_auto. Qed.

Lemma Octo_pagesLoop_emits fuel : forall page acc,
  emits isList (Octo.pagesLoop fuel page acc).
Proof.
  induction fuel as [|fuel IH]; intros page acc; cbn [Octo.pagesLoop].
  - apply emits_ret.
  - emits_auto. apply IH.
Qed.

Lemma Octo_pagesLoop_throw fuel : forall page acc w e,
  outcome (Octo.pagesLoop fuel page acc w) = Throw e ->
  Exists (fun e => isFailedList e = true) (trace (Octo.pagesLoop fuel page acc w)).
Proof.
  induction fuel as [|fuel IH]; intros page acc w e; [discriminate|].
  cbn [Octo.pagesLoop]. unfold bind.
  destruct (remoteList_cases page w) as [(w1 & e1 & -> & _)|(w1 & -> & _)].
  - intros _. simpl. apply Exists_cons_hd. reflexivity.
  - cbn [fst snd]. destruct (bool_decide _); [|discriminate].
    match goal with |- context [Octo.pagesLoop fuel ?p ?a ?w'] =>
      specialize (IH p a w' e);
      destruct (Octo.pagesLoop fuel p a w') as [[w2 t2] r2] end.
    cbn [trace outcome fst snd] in *. intros Hr.
    apply Exists_cons_tl. simpl. apply IH, Hr.
Qed.

Lemma Octo_fetch_requests w :
  Forall (fun e => isRemote e = true -> isList e = true)
    (trace (Octo.fetchExistingTodoIssues w)).
Proof.
  unfold Octo.fetchExistingTodoIssues. rewrite trace_tryCatch.
  pose proof (Octo_pagesLoop_emits (S (length (issues w))) 1 ∅ w) as H.
  assert (H' : Forall (fun e => isRemote e = true -> isList e = true)
                 (trace (Octo.pagesLoop (S (length (issues w))) 1 ∅ w))).
  { eapply Forall_impl; [exact H|]. intros e He _. exact He. }
  destruct (outcome _); auto.
  apply Forall_app. split; [exact H'|]. repeat constructor. discriminate.
Qed.

(** The readers only read: they leave the tracker and the projects as
    they are and make no other request than listings.  They fail
    exactly when a listing fails, and then return no set at all; the
    reader of the Octokit script logs the error and throws it on. *)
Theorem readers_only_read w :
  (sameRemote w (final (Https.fetchExistingTodoIssues w))
   /\ Forall (fun e => isRemote e = true -> isList e = true)
        (trace (Https.fetchExistingTodoIssues w))
   /\ ((exists e, outcome (Https.fetchExistingTodoIssues w) = Throw e)
       <-> Exists (fun e => isFailedList e = true)
             (trace (Https.fetchExistingTodoIssues w)))
   /\ ((exists E, outcome (Https.fetchExistingTodoIssues w) = Ret E)
       <-> ~ Exists (fun e => isFailedList e = true)
               (trace (Https.fetchExistingTodoIssues w))))
  /\ (sameRemote w (final (Octo.fetchExistingTodoIssues w))
      /\ Forall (fun e => isRemote e = true -> isList e = true)
           (trace (Octo.fetchExistingTodoIssues w))
      /\ ((exists e, outcome (Octo.fetchExistingTodoIssues w) = Throw e)
          <-> Exists (fun e => isFailedList e = true)
                (trace (Octo.fetchExistingTodoIssues w)))
      /\ ((exists E, outcome (Octo.fetchExistingTodoIssues w) = Ret E)
          <-> ~ Exists (fun e => isFailedList e = true)
                  (trace (Octo.fetchExistingTodoIssues w)))
      /\ (forall e, outcome (Octo.fetchExistingTodoIssues w) = Throw e ->
            last (trace (Octo.fetchExistingTodoIssues w))
            = Some (Console Err (T "Error fetching existing issues: " :: e)))).
Proof.
  split.
  - split; [apply Https_fetch_readOnly|]. split.
    { assert (H : emits (fun e => negb (isRemote e) || isList e)
                    Https.fetchExistingTodoIssues)
        by (unfold Https.fetchExistingTodoIssues; emits_auto).
      eapply Forall_impl; [apply H|]. intros e He Hr. simpl in He.
      rewrite Hr in He. exact He. }
    unfold Https.fetchExistingTodoIssues, bind, console, emit.
    destruct (remoteList_cases 1 w) as [(w1 & e & -> & _)|(w1 & -> & _)];
      cbn [trace outcome fst snd app].
    + split; split.
      * intros _. apply Exists_cons_tl, Exists_cons_hd. reflexivity.
      * eauto.
      * intros [E [=]].
      * intros H. exfalso. apply H.
        apply Exists_cons_tl, Exists_cons_hd. reflexivity.
    + split; split.
      * intros [e [=]].
      * intros H. exfalso.
        repeat (apply Exists_cons in H as [H|H]; [discriminate|]). inversion H.
      * intros _ H.
        repeat (apply Exists_cons in H as [H|H]; [discriminate|]). inversion H.
      * eauto.
  - split; [apply Octo_fetch_readOnly|]. split.
    { apply Octo_fetch_requests. }
    destruct (Octo_pagesLoop_spec (S (length (issues w))) 1 ∅ w) as (_ & Hr).
    pose proof (Octo_pagesLoop_throw (S (length (issues w))) 1 ∅ w) as Ht.
    unfold Octo.fetchExistingTodoIssues, tryCatch.
    destruct (Octo.pagesLoop _ 1 ∅ w) as [[w1 t1] r1].
    cbn [trace outcome fst snd] in *.
    destruct Hr as [(E & -> & Hf & _)|(e & ->)]; cbn [trace outcome fst snd].
    + split; [|split; [|discriminate]]; split.
      * intros [e [=]].
      * intros H. exfalso. eapply no_failed_Exists; eauto.
      * intros _. apply no_failed_Exists, Hf.
      * eauto.
    + specialize (Ht e eq_refl). simpl.
      split; [|split]; [split|split|].
      * intros _. apply Exists_app. left. exact Ht.
      * eauto.
      * intros [E [=]].
      * intros H. exfalso. apply H. apply Exists_app. left. exact Ht.
      * intros e' [= <-]. apply last_snoc.
Qed.

Lemma readers_only_read_witness :
  last (trace (Octo.fetchExistingTodoIssues firstCallFails))
  = Some (Console Err [T "Error fetching existing issues: ";
                       V (lit "Bad credentials")]).
Proof.
  destruct (readers_only_read firstCallFails) as (_ & _ & _ & _ & _ & H).
  apply H. vm_compute. reflexivity.
Defined.

(** * Runs that stop early *)

Lemma run_equation {A} (m : M A) w a :
  outcome (m w) = Ret a -> m w = (final (m w), trace (m w), Ret a).
Proof. intros H. rewrite <- H. apply surjective_run. Qed.

(** Without a token or without a repository a run stops at once: it
    prints an error, makes no remote call, leaves the tracker alone and
    exits with code 1. *)
Theorem missing_configuration cfg tree w :
  unset (GITHUB_TOKEN cfg) || unset (GITHUB_REPOSITORY cfg) = true ->
  (outcome (Https.run cfg tree w) = 1%Z
   /\ final (Https.run cfg tree w) = w
   /\ Forall (fun e => isConsole e = true) (trace (Https.run cfg tree w)))
  /\ (outcome (Octo.run cfg tree w) = 1%Z
      /\ final (Octo.run cfg tree w) = w
      /\ Forall (fun e => isConsole e = true) (trace (Octo.run cfg tree w))).
Proof.
  intros Hu. split.
  - unfold Https.run, Https.main. rewrite console_bind, Hu.
    unfold bind, console, emit, exit. cbn. repeat split; repeat constructor.
  - unfold Octo.run, Octo.main. rewrite !console_bind.
    destruct (unset (GITHUB_TOKEN cfg)).
    + unfold bind, console, emit, exit. cbn. repeat split; repeat constructor.
    + simpl in Hu. rewrite Hu, ret_bind.
      unfold bind, console, emit, exit. cbn. repeat split; repeat constructor.
Qed.

Lemma missing_configuration_witness :
  outcome (Https.run (Config None (Some (lit "octocat/hello")) 15)
             twoFiles emptyWorld) = 1%Z
  /\ outcome (Octo.run (Config (Some (lit "token")) (Some []) 15)
                twoFiles emptyWorld) = 1%Z.
Proof.
  split.
  - apply (missing_configuration (Config None (Some (lit "octocat/hello")) 15)).
    reflexivity.
  - apply (missing_configuration (Config (Some (lit "token")) (Some []) 15)).
    reflexivity.
Defined.

(** The beginning of [main] in the Octokit script, once the
    configuration is there: console lines and the scan, then the rest. *)
Lemma Octo_main_scanned cfg tree w todos :
  unset (GITHUB_TOKEN cfg) = false -> unset (GITHUB_REPOSITORY cfg) = false ->
  outcome (Octo.scanForTodos tree w) = Ret todos ->
  exists pre,
    Forall (fun e => isConsole e = true) pre
    /\ Octo.main cfg tree w
       = (final (Octo_afterScan cfg todos w),
          pre ++ trace (Octo_afterScan cfg todos w),
          outcome (Octo_afterScan cfg todos w)).
Proof.
  intros Ht Hr Hs.
  destruct (Octo_scanForTodos_spec tree w) as (l & O & F & _).
  rewrite Hs in O. injection O as <-.
  pose proof (Octo_scanForTodos_emits isConsole (fun _ _ => eq_refl) tree w) as Hc.
  exists ([Console Log [T "TODO to GitHub Issues CI Bot"];
           Console Log [T "================================"; nl];
           Console Log [T "Scanning repository"; nl];
           Console Log [T "Step 1: Scanning for TODO comments..."]]
          ++ trace (Octo.scanForTodos tree w)
          ++ [Console Log [T "Found "; I (Z.of_nat (length todos));
                           T " TODO(s)"; nl]]).
  split.
  - repeat (apply Forall_app; split); repeat constructor. exact Hc.
  - unfold Octo.main. rewrite Ht, Hr.
    rewrite !console_bind, !ret_bind, !console_bind.
    cbn [trace outcome final fst snd].
    rewrite (bind_run _ _ _ _ _ _ (run_equation _ _ _ Hs)), F.
    cbn [trace outcome final fst snd]. rewrite console_bind.
    cbn [trace outcome final fst snd].
    unfold Octo_afterScan, Octo_afterFetch. cbn [app].
    rewrite <- !app_assoc. reflexivity.
Qed.

Lemma Octo_afterScan_fetched cfg todos w E :
  todos <> [] ->
  outcome (Octo.fetchExistingTodoIssues w) = Ret E ->
  Octo_afterScan cfg todos w
  = (final (Octo_afterFetch cfg todos E (final (Octo.fetchExistingTodoIssues w))),
     Console Log [T "Step 2: Fetching existing TODO issues from GitHub..."]
       :: trace (Octo.fetchExistingTodoIssues w)
       ++ trace (Octo_afterFetch cfg todos E
                   (final (Octo.fetchExistingTodoIssues w))),
     outcome (Octo_afterFetch cfg todos E
                (final (Octo.fetchExistingTodoIssues w)))).
Proof.
  intros Hn Hf. unfold Octo_afterScan.
  destruct todos as [|t todos]; [contradiction|]. cbn [length Nat.eqb].
  rewrite console_bind.
  rewrite (bind_run _ _ _ _ _ _ (run_equation _ _ _ Hf)).
  reflexivity.
Qed.

Lemma Octo_afterFetch_nothing_new cfg todos E w :
  Octo.newTodosOf E todos = [] ->
  outcome (Octo_afterFetch cfg todos E w) = Ret tt
  /\ final (Octo_afterFetch cfg todos E w) = w
  /\ Forall (fun e => isConsole e = true) (trace (Octo_afterFetch cfg todos E w)).
Proof.
  intros Hn. unfold Octo_afterFetch. rewrite Hn. cbn [length Nat.eqb].
  rewrite !console_bind. unfold console, emit.
  cbn [trace outcome final fst snd]. repeat split; repeat constructor.
Qed.

(** A run of the Octokit script on a tree without annotation makes no
    request at all: it says so, leaves the world as it is and ends with
    exit code 0. *)
Theorem Octo_nothing_to_do cfg tree w :
  unset (GITHUB_TOKEN cfg) = false -> unset (GITHUB_REPOSITORY cfg) = false ->
  (forall p content,
     locatedIn Octo.EXCLUDED_DIRS tree p (Content content) ->
     Octo.todosOfContent p content = []) ->
  outcome (Octo.run cfg tree w) = 0%Z
  /\ final (Octo.run cfg tree w) = w
  /\ Forall (fun e => isConsole e = true) (trace (Octo.run cfg tree w))
  /\ last (trace (Octo.run cfg tree w))
     = Some (Console Log [T "No TODOs found. Exiting."]).
Proof.
  intros Ht Hr Hnone.
  destruct (Octo_scanForTodos_spec tree w) as (l & O & F & Mem).
  assert (Hl : l = []).
  { destruct l as [|t l]; [reflexivity|]. exfalso.
    destruct (proj1 (Mem t)) as (e & He & p & c & Hloc & Hin); [left|].
    rewrite (Hnone p c) in Hin; [inversion Hin|]. exists e. auto. }
  subst l.
  destruct (Octo_main_scanned cfg tree w [] Ht Hr O) as (pre & Hpre & Hm).
  unfold Octo.run. rewrite Hm. unfold Octo_afterScan, console, emit.
  cbn [length Nat.eqb trace outcome final fst snd catchFatal].
  split; [reflexivity|]. split; [reflexivity|]. split.
  - apply Forall_app. split; [exact Hpre|]. repeat constructor.
  - apply last_snoc.
Qed.

Lemma Octo_nothing_to_do_witness :
  trace (Octo.run sampleConfig
           [File (lit "README.md") (Content (lit "todo: nothing here"))]
           firstCallFails)
  <> []
  /\ final (Octo.run sampleConfig
              [File (lit "README.md") (Content (lit "todo: nothing here"))]
              firstCallFails)
     = firstCallFails.
Proof.
  split; [vm_compute; discriminate|].
  apply (Octo_nothing_to_do sampleConfig
           [File (lit "README.md") (Content (lit "todo: nothing here"))]
           firstCallFails); [reflexivity|reflexivity|].
  intros p content (e & He & Hloc).
  apply list_elem_of_singleton in He as ->. inversion Hloc; subst.
  vm_compute. reflexivity.
Defined.

Lemma Octo_run_all_tracked cfg tree w E :
  unset (GITHUB_TOKEN cfg) = false -> unset (GITHUB_REPOSITORY cfg) = false ->
  outcome (Octo.fetchExistingTodoIssues w) = Ret E ->
  (forall t, t ∈ valueOr [] (Octo.scanForTodos tree w) ->
     Octo.generateFingerprint (Octo.filePath t) (Octo.text t) ∈ E) ->
  outcome (Octo.run cfg tree w) = 0%Z
  /\ sameRemote w (final (Octo.run cfg tree w))
  /\ Forall (fun e => isRemote e = true -> isList e = true)
       (trace (Octo.run cfg tree w)).
Proof.
  intros Ht Hr Hf Hall.
  destruct (Octo_scanForTodos_spec tree w) as (todos & O & F & _).
  unfold valueOr in Hall. rewrite O in Hall.
  destruct (Octo_main_scanned cfg tree w todos Ht Hr O) as (pre & Hpre & Hm).
  assert (Hpre' : Forall (fun e => isRemote e = true -> isList e = true) pre).
  { eapply Forall_impl; [exact Hpre|]. intros [] He Hre; discriminate. }
  unfold Octo.run. rewrite Hm. clear Hm.
  destruct todos as [|t0 todos'] eqn:Htodos.
  { unfold Octo_afterScan, console, emit.
    cbn [length Nat.eqb trace outcome final fst snd catchFatal].
    split; [reflexivity|]. split; [apply sameRemote_refl|].
    apply Forall_app. split; [exact Hpre'|]. repeat constructor. discriminate. }
  rewrite <- Htodos in *.
  assert (Hne : todos <> []) by (rewrite Htodos; discriminate).
  rewrite (Octo_afterScan_fetched cfg todos w E Hne Hf).
  assert (Hnew : Octo.newTodosOf E todos = []).
  { unfold Octo.newTodosOf. clear -Hall. induction todos as [|t l IH]; [reflexivity|].
    simpl. rewrite bool_decide_eq_true_2 by (apply Hall; left). simpl.
    apply IH. intros t' Ht'. apply Hall. right. exact Ht'. }
  destruct (Octo_afterFetch_nothing_new cfg todos E
              (final (Octo.fetchExistingTodoIssues w)) Hnew) as (Ho & Hfin & Htr).
  rewrite Ho, Hfin. cbn [trace outcome final fst snd catchFatal].
  split; [reflexivity|]. split; [apply Octo_fetch_readOnly|].
  apply Forall_app. split; [exact Hpre'|]. constructor; [discriminate|].
  apply Forall_app. split.
  - apply Octo_fetch_requests.
  - eapply Forall_impl; [exact Htr|]. intros [] He Hre; discriminate.
Qed.

(** When the reader of the Octokit script returns a set that holds the
    identity of every annotation found, the run creates nothing: its
    only requests are listings, the tracker and the projects are left
    as they are, and the exit code is 0. *)
Theorem Octo_all_tracked cfg tree w E :
  unset (GITHUB_TOKEN cfg) = false -> unset (GITHUB_REPOSITORY cfg) = false ->
  outcome (Octo.fetchExistingTodoIssues w) = Ret E ->
  (forall t, t ∈ valueOr [] (Octo.scanForTodos tree w) ->
     Octo.generateFingerprint (Octo.filePath t) (Octo.text t) ∈ E) ->
  outcome (Octo.run cfg tree w) = 0%Z
  /\ sameRemote w (final (Octo.run cfg tree w))
  /\ Forall (fun e => isRemote e = true -> isList e = true)
       (trace (Octo.run cfg tree w)).
Proof. apply Octo_run_all_tracked. Qed.

Lemma Octo_all_tracked_witness :
  outcome (Octo.run sampleConfig
             [File (lit "a.txt") (Content (lit "// TODO: fix auth"))]
             oneRecord) = 0%Z.
Proof.
  apply (Octo_all_tracked sampleConfig
           [File (lit "a.txt") (Content (lit "// TODO: fix auth"))]
           oneRecord {[lit "a.txt|fix auth"]});
    [reflexivity|reflexivity|vm_compute; reflexivity|].
  intros t Ht. apply list_elem_of_In in Ht. vm_compute in Ht.
  destruct Ht as [<-|[]]. apply elem_of_singleton. reflexivity.
Defined.

(** * Attaching a record to a project, in the HTTPS script *)

Lemma Https_tryOwner_spec k found l msg nid w :
  (exists p n,
     outcome (Https.tryOwner k found (console l msg) nid w) = Ret true
     /\ usable (projectOf k w) = Some p
     /\ ((attached (trace (Https.tryOwner k found (console l msg) nid w))
          = [(p, nid)]
          /\ final (Https.tryOwner k found (console l msg) nid w)
             = World (issues w) (userProject w) (orgProject w) (viewerProject w)
                 (items w ++ [(p, nid)]) (nodeIdOf w) (drop n (faults w)))
         \/ (attached (trace (Https.tryOwner k found (console l msg) nid w)) = []
             /\ final (Https.tryOwner k found (console l msg) nid w)
                = laterCalls n w
             /\ faults w <> [])))
  \/ (exists n,
        outcome (Https.tryOwner k found (console l msg) nid w) = Ret false
        /\ attached (trace (Https.tryOwner k found (console l msg) nid w)) = []
        /\ final (Https.tryOwner k found (console l msg) nid w) = laterCalls n w
        /\ (faults w = [] -> usable (projectOf k w) = None)).
Proof.
  destruct w as [iss up op vp its nof fs].
  assert (Hproject : forall fs' n,
    (exists r, fs = r :: fs' /\ r = Fine /\ n = 1%nat) \/ (fs = [] /\ fs' = [] /\ n = 0%nat) ->
    remoteProjectRaw k (World iss up op vp its nof fs)
    = (World iss up op vp its nof fs', [ProjectQuery k true],
       Ret (projectOf k (World iss up op vp its nof fs)))).
  { intros fs' n [(r & -> & -> & _)|(-> & -> & _)]; destruct k; reflexivity. }
  destruct fs as [|[|m1|m1] fs].
  - unfold Https.tryOwner, tryCatch, bind.
    rewrite (Hproject [] 0%nat) by auto. clear Hproject.
    destruct (projectOf k _) as [[|c s]|] eqn:Hp;
      cbn [usable truthy].
    + right. exists 0%nat. repeat split; reflexivity.
    + left. exists (c :: s), 0%nat. split; [reflexivity|]. split; [reflexivity|].
      left. split; reflexivity.
    + right. exists 0%nat. repeat split; reflexivity.
  - unfold Https.tryOwner, tryCatch, bind.
    rewrite (Hproject fs 1%nat) by eauto. clear Hproject.
    destruct (projectOf k _) as [[|c s]|] eqn:Hp;
      cbn [usable truthy].
    + right. exists 1%nat. repeat split; try reflexivity; discriminate.
    + destruct fs as [|[|m2|m2] fs].
      * left. exists (c :: s), 1%nat. split; [reflexivity|]. split; [reflexivity|].
        left. split; reflexivity.
      * left. exists (c :: s), 2%nat. split; [reflexivity|]. split; [reflexivity|].
        left. split; reflexivity.
      * right. exists 2%nat. repeat split; try reflexivity; discriminate.
      * left. exists (c :: s), 2%nat. split; [reflexivity|]. split; [reflexivity|].
        right. repeat split; try reflexivity; discriminate.
    + right. exists 1%nat. repeat split; try reflexivity; discriminate.
  - right. exists 1%nat. destruct k; repeat split; try reflexivity; discriminate.
  - right. exists 1%nat. destruct k; repeat split; try reflexivity; discriminate.
Qed.

Lemma attached_app t1 t2 : attached (t1 ++ t2) = attached t1 ++ attached t2.
Proof. apply omap_app. Qed.

Lemma attached_console l msg t : attached (Console l msg :: t) = attached t.
Proof. reflexivity. Qed.

(** Closes a goal that follows from a world without pending failure. *)
Ltac calm_world :=
  try match goal with
      | H : faults ?w = [] |- _ =>
          first [ rewrite H, ?drop_nil; reflexivity
                | exfalso;
                  match goal with
                  | Hne : drop _ (faults w) <> [] |- _ =>
                      apply Hne; rewrite H; apply drop_nil
                  | Hne : faults w <> [] |- _ => apply Hne; exact H
                  end ]
      end.

Lemma Https_addIssueToProject_spec owner nid pn w :
  issues (final (Https.addIssueToProject owner nid pn w)) = issues w
  /\ items (final (Https.addIssueToProject owner nid pn w))
     = items w ++ attached (trace (Https.addIssueToProject owner nid pn w))
  /\ (attached (trace (Https.addIssueToProject owner nid pn w)) = []
      \/ exists p,
           attached (trace (Https.addIssueToProject owner nid pn w)) = [(p, nid)]
           /\ (usable (userProject w) = Some p \/ usable (orgProject w) = Some p))
  /\ (outcome (Https.addIssueToProject owner nid pn w) = Ret tt
      \/ outcome (Https.addIssueToProject owner nid pn w)
         = Throw (couldNotFind pn owner))
  /\ (attached (trace (Https.addIssueToProject owner nid pn w)) <> [] ->
      outcome (Https.addIssueToProject owner nid pn w) = Ret tt)
  /\ (usable (userProject w) = None -> usable (orgProject w) = None ->
      outcome (Https.addIssueToProject owner nid pn w)
      = Throw (couldNotFind pn owner))
  /\ (faults w = [] ->
      faults (final (Https.addIssueToProject owner nid pn w)) = []
      /\ attached (trace (Https.addIssueToProject owner nid pn w))
         = match usable (userProject w), usable (orgProject w) with
           | Some p, _ => [(p, nid)]
           | None, Some p => [(p, nid)]
           | None, None => []
           end
      /\ (outcome (Https.addIssueToProject owner nid pn w) = Ret tt
          <-> attached (trace (Https.addIssueToProject owner nid pn w)) <> [])).
Proof.
  unfold Https.addIssueToProject, couldNotFind. rewrite console_bind.
  cbn [trace outcome final fst snd].
  destruct (Https_tryOwner_spec User [T "Found user project"] Log
              [T "User project not found, trying organization..."] nid w)
    as [(p & n & Ho & Hp & [(Ha & Hf)|(Ha & Hf & Hne)])|(n & Ho & Ha & Hf & Hnone)];
    rewrite (bind_run _ _ _ _ _ _ (run_equation _ _ _ Ho));
    cbn [projectOf] in *.
  - unfold ret. cbn [trace outcome final fst snd].
    rewrite attached_console, app_nil_r, Ha, Hf, Hp. cbn [issues items faults].
    repeat split; try discriminate; eauto; calm_world.
  - unfold ret. cbn [trace outcome final fst snd].
    rewrite attached_console, app_nil_r, Ha, Hf, Hp.
    cbn [laterCalls issues items faults]. rewrite app_nil_r.
    repeat split; try discriminate; try contradiction; auto; calm_world.
  - rewrite Hf.
    destruct (Https_tryOwner_spec Organization [T "Found organization project"] Err
                [T "Organization project not found"] nid (laterCalls n w))
      as [(p & n' & Ho' & Hp' & [(Ha' & Hf')|(Ha' & Hf' & Hne')])
         |(n' & Ho' & Ha' & Hf' & Hnone')];
      rewrite (bind_run _ _ _ _ _ _ (run_equation _ _ _ Ho'));
      cbn [projectOf laterCalls orgProject userProject issues items faults] in *.
    + unfold ret. cbn [trace outcome final fst snd].
      rewrite attached_console, app_nil_r, attached_app, Ha, Ha', Hf', Hp'.
      cbn [issues items faults app].
      repeat split; try discriminate; eauto; calm_world.
      rewrite Hnone by assumption. reflexivity.
    + unfold ret. cbn [trace outcome final fst snd].
      rewrite attached_console, app_nil_r, attached_app, Ha, Ha', Hf', Hp'.
      cbn [laterCalls issues items faults app]. rewrite app_nil_r.
      repeat split; try discriminate; try contradiction; auto; calm_world.
    + unfold throw. cbn [trace outcome final fst snd].
      rewrite attached_console, app_nil_r, attached_app, Ha, Ha', Hf'.
      cbn [laterCalls issues items faults app]. rewrite app_nil_r.
      repeat split; try discriminate; try contradiction; auto; calm_world.
      rewrite Hnone, Hnone' by (try assumption; calm_world). reflexivity.
Qed.

(** Attaching a record to the project of the configured number, in the
    HTTPS script.  The user's project is tried first and the
    organization's only if that attempt did not return.  The call
    never touches the records of the tracker and attaches the record at
    most once, to one of these two projects; it returns or throws
    "Could not find project", the same error whatever went wrong; it
    returns whenever an attachment went through and throws whenever
    neither kind has a project.  When every request goes through it
    attaches the record to the user's project if there is one and else
    to the organization's, and returns exactly when it attached.  It
    can also return with nothing attached: when the answer to the
    attachment request carries no item. *)
Theorem Https_linking owner nid pn w :
  let x := Https.addIssueToProject owner nid pn w in
  issues (final x) = issues w
  /\ items (final x) = items w ++ attached (trace x)
  /\ (attached (trace x) = []
      \/ exists p, attached (trace x) = [(p, nid)]
                   /\ (usable (userProject w) = Some p
                       \/ usable (orgProject w) = Some p))
  /\ (outcome x = Ret tt \/ outcome x = Throw (couldNotFind pn owner))
  /\ (attached (trace x) <> [] -> outcome x = Ret tt)
  /\ (usable (userProject w) = None -> usable (orgProject w) = None ->
      outcome x = Throw (couldNotFind pn owner))
  /\ (faults w = [] ->
      attached (trace x)
      = match usable (userProject w), usable (orgProject w) with
        | Some p, _ => [(p, nid)]
        | None, Some p => [(p, nid)]
        | None, None => []
        end
      /\ (outcome x = Ret tt <-> attached (trace x) <> []))
  /\ (outcome (Https.addIssueToProject owner nid pn attachRefused) = Ret tt
      /\ attached (trace (Https.addIssueToProject owner nid pn attachRefused)) = []
      /\ last (trace (Https.addIssueToProject owner nid pn attachRefused))
         = Some (AddItem (lit "PVT_1") nid false)).
Proof.
  cbv zeta.
  destruct (Https_addIssueToProject_spec owner nid pn w)
    as (H1 & H2 & H3 & H4 & H5 & H6 & H7).
  repeat split; auto; try (apply H7; assumption).
Qed.

Lemma Https_linking_witness :
  attached (trace (Https.addIssueToProject (lit "octocat") (lit "I_node") 15
                     oneRecordWithProject))
  = [(lit "PVT_1", lit "I_node")]
  /\ outcome (Https.addIssueToProject (lit "octocat") (lit "I_node") 15
                emptyWorld)
     = Throw (couldNotFind 15 (lit "octocat")).
Proof.
  destruct (Https_linking (lit "octocat") (lit "I_node") 15 oneRecordWithProject)
    as (_ & _ & _ & _ & _ & _ & H & _).
  destruct (Https_linking (lit "octocat") (lit "I_node") 15 emptyWorld)
    as (_ & _ & _ & _ & _ & H' & _).
  split; [apply H; reflexivity|apply H'; reflexivity].
Defined.

(** * Reading an identity back from the body of a record *)

Lemma exec_here ic r s y :
  compile ic r (MState s ∅) Some = Some y -> exec ic r s = Some y.
Proof. intros H. destruct s; simpl; rewrite H; reflexivity. Qed.

Lemma exec_skip ic r (pre s : jsstr) :
  (forall p1 p2, pre = p1 ++ p2 -> p2 <> [] ->
     compile ic r (MState (p2 ++ s) ∅) Some = None) ->
  exec ic r (pre ++ s) = exec ic r s.
Proof.
  induction pre as [|a pre IH]; intros H; [reflexivity|].
  pose proof (H [] (a :: pre) eq_refl ltac:(discriminate)) as H0.
  cbn [app] in *. cbn [exec]. rewrite H0.
  apply IH. intros p1 p2 -> Hp2. apply (H (a :: p1) p2 eq_refl Hp2).
Qed.

Lemma compile_lits (w : jsstr) : forall s cs c,
  compile false (lits w) (MState (w ++ s) cs) c = c (MState s cs).
Proof.
  induction w as [|a w IH]; intros s cs c; [reflexivity|].
  cbn [lits compile app rest caps]. unfold canonicalize. cbn [andb].
  rewrite N.eqb_refl. apply IH.
Qed.

(** A greedy run over a class takes every character up to the first
    one that is not in the class, once the continuation accepts that. *)
Lemma greedy_run ic k (c : cont) (post : jsstr) cs :
  match post with [] => True | a :: _ => inClass k a = false end ->
  is_Some (c (MState post cs)) ->
  forall (cap : jsstr) fuel min,
    Forall (fun a => inClass k a = true) cap ->
    (min <= length cap)%nat -> (length cap < fuel)%nat ->
    repeatMatcher fuel (compile ic (Cls k)) min true (MState (cap ++ post) cs) c
    = c (MState post cs).
Proof.
  intros Hpost [z Hz]. induction cap as [|a cap IH]; intros fuel min Hcap Hmin Hfuel.
  - destruct fuel as [|fuel]; [simpl in Hfuel; lia|].
    assert (min = 0%nat) as -> by (simpl in Hmin; lia).
    cbn [repeatMatcher Nat.eqb negb app compile rest].
    destruct post as [|b post]; [reflexivity|]. rewrite Hpost. reflexivity.
  - destruct fuel as [|fuel]; [simpl in Hfuel; lia|].
    apply Forall_cons in Hcap as [Ha Hcap]. simpl in Hmin, Hfuel.
    cbn [repeatMatcher app compile rest caps]. rewrite Ha.
    destruct min as [|min]; cbn [Nat.eqb negb andb Nat.pred].
    + replace (length (cap ++ post) =? length (a :: cap ++ post))%nat with false
        by (symmetry; apply Nat.eqb_neq; simpl; lia).
      rewrite IH by (auto; lia). rewrite Hz. reflexivity.
    + apply IH; auto; lia.
Qed.

Lemma fingerprintRe_here (cap post : jsstr) :
  oneLine cap -> lineEnds post ->
  compile false fingerprintRe (MState (lit "fingerprint=" ++ cap ++ post) ∅) Some
  = Some (MState post (<[1%nat := cap]> ∅)).
Proof.
  intros [Hne Hcap] Hpost. unfold fingerprintRe. cbn [compile].
  rewrite compile_lits. cbn [rest caps].
  rewrite (greedy_run false Dot _ post ∅).
  - cbn [rest caps]. rewrite length_app.
    replace (length cap + length post - length post)%nat with (length cap) by lia.
    rewrite take_app_length. reflexivity.
  - destruct post as [|b post]; [constructor|]. simpl in *. rewrite Hpost. reflexivity.
  - eauto.
  - eapply Forall_impl; [exact Hcap|]. intros a Ha. simpl. rewrite Ha. reflexivity.
  - destruct cap; [contradiction|simpl; lia].
  - rewrite length_app. lia.
Qed.

Lemma fingerprintRe_none s :
  ~ keyAt s -> compile false fingerprintRe (MState s ∅) Some = None.
Proof.
  intros Hn. destruct (compile _ _ _ _) as [z|] eqn:Hz; [|reflexivity].
  exfalso. apply Hn.
  apply compile_sound in Hz as (y & Hs & _).
  apply fingerprintRe_sem in Hs as (cap & Hx & _). simpl in Hx.
  exists (cap ++ rest y). exact Hx.
Qed.

Lemma exec_free pre s :
  free pre s -> exec false fingerprintRe (pre ++ s) = exec false fingerprintRe s.
Proof.
  intros Hf. apply exec_skip. intros p1 p2 Hp Hp2.
  apply fingerprintRe_none. eapply Hf; eauto.
Qed.

Lemma free_lit pre post :
  forallb (fun c => negb (c =? 102)) pre = true -> free pre post.
Proof.
  intros Hall p1 p2 -> Hp2 [r Hr].
  rewrite forallb_app in Hall. apply andb_true_iff in Hall as [_ Hall].
  destruct p2 as [|c p2]; [contradiction|].
  simpl in Hall, Hr. injection Hr as -> _. discriminate.
Qed.

Lemma free_segment a d post :
  ~ holdsKey a -> d ∉ lit "fingerprint=" -> free a (d :: post).
Proof.
  intros Ha Hd p1 p2 -> _ [r Hr].
  apply app_eq_app in Hr as [l [[Hp2 Hl]|[Hk Hl]]].
  - apply Ha. exists p1, l. rewrite Hp2. reflexivity.
  - destruct l as [|d' l].
    + apply Ha. exists p1, []. rewrite app_nil_r in *. rewrite Hk. reflexivity.
    + injection Hl as <- _. apply Hd. rewrite Hk.
      apply elem_of_app. right. left.
Qed.

Lemma trim_id s : trimmed s -> trim s = s.
Proof.
  intros [Hh Hl].
  assert (Hs : forall u : jsstr,
             (forall c, head u = Some c -> isWhiteSpace c = false) ->
             trimStart u = u).
  { intros [|c u] H; [reflexivity|]. simpl. rewrite (H c eq_refl). reflexivity. }
  unfold trim, trimEnd. rewrite (Hs s Hh), Hs, rev_involutive; [reflexivity|].
  intros c Hc. apply Hl. rewrite <- last_rev_head, rev_involutive in Hc. exact Hc.
Qed.

Lemma identity_trimmed p t :
  fitsLine p t -> oneLine (p ++ lit "|" ++ t) /\ trimmed (p ++ lit "|" ++ t).
Proof.
  intros (Hp & Ht & Hh & Hl). split; [split|split].
  - destruct p; discriminate.
  - apply Forall_app. split; [exact Hp|]. constructor; [reflexivity|exact Ht].
  - intros c. destruct p as [|a p]; simpl; [intros [= <-]; reflexivity|].
    intros [= <-]. apply Hh. reflexivity.
  - intros c. rewrite app_assoc.
    destruct t as [|a t _] using rev_ind.
    + rewrite app_nil_r. change (lit "|") with [124%N]. rewrite last_snoc.
      intros [= <-]. reflexivity.
    + rewrite app_assoc, last_snoc. intros [= <-]. apply Hl, last_snoc.
Qed.

Lemma extract_at_marker fp post :
  oneLine fp -> trimmed fp -> lineEnds post ->
  exec false fingerprintRe (lit "fingerprint=" ++ fp ++ post)
  = Some (MState post (<[1%nat := fp]> ∅)).
Proof.
  intros H1 H2 H3. apply exec_here, fingerprintRe_here; assumption.
Qed.

Ltac skip_literals :=
  repeat (rewrite exec_free by (apply free_lit; reflexivity)).

Ltac not_in_key :=
  let H := fresh in
  intros H; apply list_elem_of_In in H; vm_compute in H; intuition discriminate.

Lemma capture_read (fp post : jsstr) :
  (capture 1 (MState post (<[1%nat := fp]> ∅)) ≫= fun cap => Some (trim cap))
  = Some (trim fp).
Proof. unfold capture. cbn [caps]. rewrite lookup_insert_eq. reflexivity. Qed.

Lemma Https_body_read p fp :
  ~ holdsKey p -> oneLine fp -> trimmed fp ->
  extractFingerprint (Some (Https.issueBody p fp)) = Some fp.
Proof.
  intros Hp Hfp Htr. unfold extractFingerprint, Https.issueBody.
  cbn [mbind option_bind]. skip_literals.
  rewrite (exec_free p) by (apply (free_segment p 96); [exact Hp|not_in_key]).
  skip_literals.
  rewrite (extract_at_marker fp [10]) by (auto; reflexivity).
  cbn [mbind option_bind].
  rewrite (capture_read fp [10]), (trim_id fp Htr). reflexivity.
Qed.

Lemma Octo_body_read t fp :
  ~ holdsKey (Octo.filePath t) -> ~ holdsKey (Octo.text t) ->
  oneLine fp -> trimmed fp ->
  extractFingerprint (Some (Octo.issueBody t fp)) = Some fp.
Proof.
  intros Hp Ht Hfp Htr. unfold extractFingerprint, Octo.issueBody.
  cbn [mbind option_bind]. skip_literals.
  rewrite (exec_free (Octo.filePath t))
    by (apply (free_segment _ 96); [exact Hp|not_in_key]).
  skip_literals.
  rewrite (exec_free (Octo.text t))
    by (apply (free_segment _ 10); [exact Ht|not_in_key]).
  skip_literals.
  rewrite (extract_at_marker fp ([10] ++ lit "```" ++ [10])) by (auto; reflexivity).
  cbn [mbind option_bind].
  rewrite (capture_read fp), (trim_id fp Htr). reflexivity.
Qed.

(** The identity written in the body of a record is read back as it is
    when it fits on the marker line and the key of the marker occurs
    nowhere before that line: not in the path and, in the Octokit
    script, whose body quotes the text, not in the text either. *)
Theorem marker_round_trip :
  (forall p txt,
     fitsLine p txt -> ~ holdsKey p ->
     extractFingerprint (Some (Https.issueBody p (p ++ lit "|" ++ txt)))
     = Some (p ++ lit "|" ++ txt))
  /\ (forall t,
        fitsLine (Octo.filePath t) (Octo.text t) ->
        ~ holdsKey (Octo.filePath t) -> ~ holdsKey (Octo.text t) ->
        extractFingerprint
          (Some (Octo.issueBody t
                   (Octo.generateFingerprint (Octo.filePath t) (Octo.text t))))
        = Some (Octo.generateFingerprint (Octo.filePath t) (Octo.text t))).
Proof.
  split.
  - intros p txt Hfit Hp. destruct (identity_trimmed p txt Hfit).
    apply Https_body_read; assumption.
  - intros t Hfit Hp Ht.
    destruct (identity_trimmed _ _ Hfit).
    apply Octo_body_read; assumption.
Qed.

Lemma short_no_key (s : jsstr) : (length s < 12)%nat -> ~ holdsKey s.
Proof.
  intros Hlen (a & b & ->). rewrite !length_app in Hlen. simpl in Hlen. lia.
Qed.

Lemma marker_round_trip_witness :
  extractFingerprint
    (Some (Https.issueBody (lit "a.txt")
             (lit "a.txt" ++ lit "|" ++ lit "see fingerprint=abc")))
  = Some (lit "a.txt" ++ lit "|" ++ lit "see fingerprint=abc").
Proof.
  destruct marker_round_trip as (H & _). apply H.
  - repeat split; try (repeat constructor).
    + intros c [= <-]. reflexivity.
    + intros c Hc. vm_compute in Hc. injection Hc as <-. reflexivity.
  - apply short_no_key. simpl. lia.
Defined.

(** * A second run *)

Lemma final_catchFatal x : final (catchFatal x) = final x.
Proof. destruct x as [[w t] [a|e|c]]; reflexivity. Qed.

Lemma Octo_pagesLoop_calm w : faults w = [] -> forall fuel page acc,
  final (Octo.pagesLoop fuel page acc w) = w.
Proof.
  intros Hf. induction fuel as [|fuel IH]; intros page acc; [reflexivity|].
  cbn [Octo.pagesLoop]. unfold bind. rewrite (remoteList_quiet page w Hf).
  cbn [fst snd]. destruct (bool_decide _); [|reflexivity].
  specialize (IH (S page)
    (addFingerprints (take 100 (drop (100 * (page - 1)) (openTodoIssues w))) acc)).
  destruct (Octo.pagesLoop fuel _ _ w) as [[w2 t2] r2]. exact IH.
Qed.

Lemma Octo_fetch_calm w :
  faults w = [] -> final (Octo.fetchExistingTodoIssues w) = w.
Proof.
  intros Hf. unfold Octo.fetchExistingTodoIssues. rewrite final_tryCatch.
  pose proof (Octo_pagesLoop_all w Hf (S (length (issues w))) 1 ∅) as Ho.
  rewrite Ho; [apply Octo_pagesLoop_calm, Hf|lia|].
  simpl. rewrite drop_0. unfold openTodoIssues.
  pose proof (length_filter (fun i => is_open i && hasLabel (lit "todo") i = true)
                (issues w)). lia.
Qed.

Lemma Octo_resolveProject_calm w :
  faults w = [] ->
  final (Octo.resolveProject w) = w
  /\ exists pid, outcome (Octo.resolveProject w) = Ret pid.
Proof.
  intros Hf. destruct w as [iss up op vp its nof fs]. simpl in Hf. subst fs.
  unfold Octo.resolveProject, Octo.getProjectId, remoteProject, nextFault,
    tryCatch, bind, console, emit, ret, throw.
  cbn [faults viewerProject]. destruct vp; cbn; eauto.
Qed.

Lemma Octo_turn_calm pn pid t c w :
  faults w = [] ->
  let x := (tryCatch
          (let* i := Octo.createIssue t
                       (Octo.generateFingerprint (Octo.filePath t) (Octo.text t)) in
           (match pid with
            | Some id =>
                if truthy id && truthy (node_id i)
                then Octo.addIssueToProject pn id (node_id i)
                else ret tt
            | None => ret tt
            end);;
           ret (S c))
          (fun _ =>
             console Err [T "Failed to process TODO: "; V (Octo.text t)];;
             ret c)) w in
  outcome x = Ret (S c)
  /\ faults (final x) = []
  /\ exists r, issues (final x) = r :: issues w
               /\ tracksBody (Octo.issueBody t
                    (Octo.generateFingerprint (Octo.filePath t) (Octo.text t))) r.
Proof.
  intros Hf x. subst x.
  destruct w as [iss up op vp its nof fs]. simpl in Hf. subst fs.
  unfold tryCatch, bind, Octo.createIssue, remoteCreate, nextFault,
    console, emit, ret, tryCatch, bind.
  cbn [faults issues userProject orgProject viewerProject items nodeIdOf
       node_id outcome final trace fst snd].
  destruct pid as [id|];
    [destruct (truthy id && truthy (nof (N.of_nat (S (length iss)))))|].
  - unfold Octo.addIssueToProject, remoteAddItem, nextFault, tryCatch, bind,
      console, emit.
    cbn [faults issues userProject orgProject viewerProject items nodeIdOf
         outcome final trace fst snd].
    repeat split. eexists. split; [reflexivity|]. repeat split.
  - cbn [faults issues outcome final trace fst snd].
    repeat split. eexists. split; [reflexivity|]. repeat split.
  - cbn [faults issues outcome final trace fst snd].
    repeat split. eexists. split; [reflexivity|]. repeat split.
Qed.

Lemma Octo_createLoop_calm pn pid todos : forall c w,
  faults w = [] ->
  faults (final (Octo.createLoop pn pid todos c w)) = []
  /\ exists new,
       issues (final (Octo.createLoop pn pid todos c w)) = new ++ issues w
       /\ Forall (fun r => labels r = ISSUE_LABELS /\ is_open r = true) new
       /\ forall t, t ∈ todos ->
            exists r, r ∈ new
              /\ tracksBody (Octo.issueBody t
                   (Octo.generateFingerprint (Octo.filePath t) (Octo.text t))) r.
Proof.
  induction todos as [|t todos IH]; intros c w Hf.
  - split; [exact Hf|]. exists []. repeat split; [constructor|].
    intros t Ht. inversion Ht.
  - cbn [Octo.createLoop].
    pose proof (Octo_turn_calm pn pid t c w Hf) as (Ho & Hf1 & r & Hi & Hr).
    cbv zeta in Ho, Hf1, Hi.
    match goal with |- context [bind ?m _ w] => set (turn := m) in * end.
    destruct (turn w) as [[w1 t1] r1] eqn:Hturn.
    cbn [trace outcome final fst snd] in Ho, Hf1, Hi. subst r1.
    unfold bind. rewrite Hturn.
    destruct (IH (S c) w1 Hf1) as (Hf2 & new & Hi2 & Hnew & Hall).
    destruct (Octo.createLoop pn pid todos (S c) w1) as [[w2 t2] r2].
    cbn [trace outcome final fst snd] in *.
    split; [exact Hf2|]. exists (new ++ [r]).
    rewrite Hi2, Hi, <- app_assoc. split; [reflexivity|]. split.
    + apply Forall_app. split; [exact Hnew|]. constructor; [|constructor].
      destruct Hr as (_ & Hl & Hop). auto.
    + intros t' Ht'. apply elem_of_cons in Ht' as [->|Ht'].
      * exists r. split; [apply elem_of_app; right; left|exact Hr].
      * destruct (Hall t' Ht') as (r' & Hr' & Hb). exists r'.
        split; [apply elem_of_app; left; exact Hr'|exact Hb].
Qed.

Lemma captured_text cap :
  oneLine cap ->
  Forall (fun c => isLineTerminator c = false) (trim cap)
  /\ (forall c, last (trim cap) = Some c -> isWhiteSpace c = false).
Proof.
  intros [_ Hcap]. split; [apply Forall_trim, Hcap|].
  apply (trim_trimmed cap).
Qed.

Lemma Octo_scanned_text tree w t :
  t ∈ valueOr [] (Octo.scanForTodos tree w) ->
  Forall (fun c => isLineTerminator c = false) (Octo.text t)
  /\ (forall c, last (Octo.text t) = Some c -> isWhiteSpace c = false).
Proof.
  destruct (Octo_scanForTodos_spec tree w) as (l & O & _ & Mem).
  unfold valueOr. rewrite O, Mem.
  intros (e & _ & p & content & _ & Ht).
  unfold Octo.todosOfContent in Ht. apply list_elem_of_omap in Ht as ([i line] & _ & Ht).
  apply Octo_todoOfLine_sound in Ht as (cap & (_ & _ & _ & _ & _ & Hcap) & -> & _).
  apply captured_text, Hcap.
Qed.

Lemma Octo_scan_any_world tree w w' t :
  t ∈ valueOr [] (Octo.scanForTodos tree w)
  -> t ∈ valueOr [] (Octo.scanForTodos tree w').
Proof.
  destruct (Octo_scanForTodos_spec tree w) as (l & O & _ & Mem).
  destruct (Octo_scanForTodos_spec tree w') as (l' & O' & _ & Mem').
  unfold valueOr. rewrite O, O', Mem, Mem'. auto.
Qed.

Lemma Https_scan_any_world tree w w' t :
  t ∈ valueOr [] (Https.scanDirectory tree w)
  -> t ∈ valueOr [] (Https.scanDirectory tree w').
Proof.
  destruct (Https_scanDirectory_spec tree w) as (_ & W).
  destruct (Https_scanDirectory_spec tree w') as (_ & W').
  unfold valueOr. destruct (forallb _ tree); cbn [HttpsWalk] in *.
  - destruct W as (l & -> & Mem). destruct W' as (l' & -> & Mem').
    rewrite Mem, Mem'. auto.
  - destruct W as (e & ->). intros H. inversion H.
Qed.

(** What a run of the Octokit script leaves when every request goes
    through: the records that were there, under new open records
    labelled todo, one for each annotation whose identity the reader
    did not return. *)
Lemma Octo_main_calm cfg tree w todos E :
  unset (GITHUB_TOKEN cfg) = false -> unset (GITHUB_REPOSITORY cfg) = false ->
  faults w = [] ->
  outcome (Octo.scanForTodos tree w) = Ret todos ->
  outcome (Octo.fetchExistingTodoIssues w) = Ret E ->
  faults (final (Octo.main cfg tree w)) = []
  /\ exists new,
       issues (final (Octo.main cfg tree w)) = new ++ issues w
       /\ Forall (fun r => labels r = ISSUE_LABELS /\ is_open r = true) new
       /\ forall t, t ∈ Octo.newTodosOf E todos ->
            exists r, r ∈ new
              /\ tracksBody (Octo.issueBody t
                   (Octo.generateFingerprint (Octo.filePath t) (Octo.text t))) r.
Proof.
  intros Ht Hr Hf Hs He.
  destruct (Octo_main_scanned cfg tree w todos Ht Hr Hs) as (pre & _ & ->).
  cbn [final fst].
  destruct todos as [|t0 todos'] eqn:Htodos.
  { unfold Octo_afterScan, console, emit. cbn [length Nat.eqb final fst].
    split; [exact Hf|]. exists []. repeat split; [constructor|].
    intros t Hin. inversion Hin. }
  rewrite <- Htodos in *.
  assert (Hne : todos <> []) by (rewrite Htodos; discriminate).
  rewrite (Octo_afterScan_fetched cfg todos w E Hne He). cbn [final fst].
  rewrite (Octo_fetch_calm w Hf).
  unfold Octo_afterFetch. rewrite !console_bind. cbn [final fst].
  destruct (Octo.newTodosOf E todos) as [|n0 news'] eqn:Hnews.
  { unfold console, emit. cbn [length Nat.eqb final fst].
    split; [exact Hf|]. exists []. repeat split; [constructor|].
    intros t Hin. inversion Hin. }
  rewrite <- Hnews in *.
  assert (Hlen : Nat.eqb (length (Octo.newTodosOf E todos)) 0 = false)
    by (rewrite Hnews; reflexivity).
  rewrite Hlen, console_bind. cbn [final fst].
  destruct (Octo_resolveProject_calm w Hf) as (Hfin & pid & Hp).
  rewrite (bind_run _ _ _ _ _ _ (run_equation _ _ _ Hp)), Hfin.
  cbn [final fst]. rewrite console_bind. cbn [final fst].
  destruct (Octo_createLoop_spec (PROJECT_NUMBER cfg) pid
              (Octo.newTodosOf E todos) 0 w) as (oks & _ & Ho & _).
  rewrite (bind_run _ _ _ _ _ _ (run_equation _ _ _ Ho)).
  unfold console, emit. cbn [final fst].
  apply Octo_createLoop_calm, Hf.
Qed.

Lemma openTodoIssues_later w w1 new r :
  issues w1 = new ++ issues w -> r ∈ openTodoIssues w -> r ∈ openTodoIssues w1.
Proof.
  unfold openTodoIssues. intros -> Hr. rewrite filter_app.
  apply elem_of_app. right. exact Hr.
Qed.

Lemma tracked_is_listed w r b :
  r ∈ issues w -> tracksBody b r -> r ∈ openTodoIssues w.
Proof.
  intros Hr (_ & Hl & Ho). unfold openTodoIssues.
  apply list_elem_of_filter. split; [|exact Hr].
  unfold hasLabel. rewrite Ho, Hl. reflexivity.
Qed.

(** After a run of the Octokit script in which every request went
    through, each annotation has an open record from whose marker its
    identity is read, provided that no path nor text holds the key of
    the marker and that no path holds a line terminator or starts with
    white space. *)
Lemma Octo_run_converges cfg tree w :
  unset (GITHUB_TOKEN cfg) = false -> unset (GITHUB_REPOSITORY cfg) = false ->
  faults w = [] ->
  (forall t, t ∈ valueOr [] (Octo.scanForTodos tree w) ->
     plainPath (Octo.filePath t) /\ ~ holdsKey (Octo.text t)) ->
  faults (final (Octo.run cfg tree w)) = []
  /\ forall t, t ∈ valueOr [] (Octo.scanForTodos tree w) ->
       exists r, r ∈ openTodoIssues (final (Octo.run cfg tree w))
                 /\ extractFingerprint (body r)
                    = Some (Octo.generateFingerprint (Octo.filePath t) (Octo.text t)).
Proof.
  intros Ht Hr Hf Hplain.
  destruct (Octo_scanForTodos_spec tree w) as (todos & Hs & _ & _).
  pose proof (Octo_fetch_all w Hf) as He.
  destruct (Octo_main_calm cfg tree w todos _ Ht Hr Hf Hs He)
    as (Hf1 & new & Hi & Hnew & Hall).
  unfold Octo.run. rewrite final_catchFatal. split; [exact Hf1|].
  intros t Hin.
  destruct (decide (Octo.generateFingerprint (Octo.filePath t) (Octo.text t)
                    ∈ addFingerprints (openTodoIssues w) ∅)) as [Hold|Hnw].
  - apply addFingerprints_spec in Hold as [Hold|(r & Hr1 & Hr2)].
    + exfalso. revert Hold. apply not_elem_of_empty.
    + exists r. split; [|exact Hr2]. eapply openTodoIssues_later; eauto.
  - destruct (Hall t) as (r & Hr1 & Hr2).
    { unfold Octo.newTodosOf. apply list_elem_of_In, filter_In. split.
      - apply list_elem_of_In. unfold valueOr in Hin. rewrite Hs in Hin. exact Hin.
      - apply negb_true_iff, bool_decide_eq_false. exact Hnw. }
    exists r. split.
    + eapply tracked_is_listed; [|exact Hr2]. rewrite Hi.
      apply elem_of_app. left. exact Hr1.
    + destruct Hr2 as (-> & _).
      destruct (Hplain t Hin) as ((Hk & Hlt & Hh) & Hkt).
      destruct (Octo_scanned_text tree w t Hin) as (Htl & Htw).
      destruct (identity_trimmed (Octo.filePath t) (Octo.text t)) as [H1 H2];
        [repeat split; assumption|].
      apply Octo_body_read; assumption.
Qed.

(** A second run of the Octokit script creates nothing.  When every
    request of a run went through and no path nor text of an annotation
    holds the key of the marker, nor a path a line terminator or white
    space at its start, then after the run every annotation has an open
    record that bears its identity, and a run on the same tree from
    there makes no other request than listings, leaves the tracker and
    the projects as they are and ends with exit code 0. *)
Theorem Octo_second_run cfg tree w :
  unset (GITHUB_TOKEN cfg) = false -> unset (GITHUB_REPOSITORY cfg) = false ->
  faults w = [] ->
  (forall t, t ∈ valueOr [] (Octo.scanForTodos tree w) ->
     plainPath (Octo.filePath t) /\ ~ holdsKey (Octo.text t)) ->
  (forall t, t ∈ valueOr [] (Octo.scanForTodos tree w) ->
     exists r, r ∈ openTodoIssues (final (Octo.run cfg tree w))
               /\ extractFingerprint (body r)
                  = Some (Octo.generateFingerprint (Octo.filePath t) (Octo.text t)))
  /\ outcome (Octo.run cfg tree (final (Octo.run cfg tree w))) = 0%Z
  /\ sameRemote (final (Octo.run cfg tree w))
       (final (Octo.run cfg tree (final (Octo.run cfg tree w))))
  /\ Forall (fun e => isRemote e = true -> isList e = true)
       (trace (Octo.run cfg tree (final (Octo.run cfg tree w)))).
Proof.
  intros Ht Hr Hf Hplain.
  destruct (Octo_run_converges cfg tree w Ht Hr Hf Hplain) as (Hf1 & Hconv).
  split; [exact Hconv|].
  apply (Octo_run_all_tracked cfg tree _ _ Ht Hr (Octo_fetch_all _ Hf1)).
  intros t Hin. apply (Octo_scan_any_world tree _ w) in Hin.
  destruct (Hconv t Hin) as (r & Hr1 & Hr2).
  eapply addFingerprints_elem; eauto.
Qed.

Lemma Octo_second_run_witness :
  Forall (fun e => isRemote e = true -> isList e = true)
    (trace (Octo.run sampleConfig twoFiles
              (final (Octo.run sampleConfig twoFiles emptyWorld)))).
Proof.
  apply (Octo_second_run sampleConfig twoFiles emptyWorld);
    [reflexivity|reflexivity|reflexivity|].
  intros t Hin. apply list_elem_of_In in Hin. vm_compute in Hin.
  destruct Hin as [<-|[<-|[]]]; (split; [split; [|split]|]);
    try (apply short_no_key; simpl; lia);
    try (repeat constructor);
    intros c [= <-]; reflexivity.
Defined.

(** ** The same for the HTTPS script *)

Lemma listing_Forall tr :
  Forall (fun e => listing e = true) tr ->
  Forall (fun e => isRemote e = true -> isList e = true) tr.
Proof.
  intros H. eapply Forall_impl; [exact H|]. intros e He Hr. unfold listing in He.
  rewrite Hr in He. exact He.
Qed.

Lemma console_listing tr :
  Forall (fun e => isConsole e = true) tr -> Forall (fun e => listing e = true) tr.
Proof.
  intros H. eapply Forall_impl; [exact H|].
  intros [] He; try discriminate. reflexivity.
Qed.

Lemma Https_fetch_listing : emits listing Https.fetchExistingTodoIssues.
Proof. unfold Https.fetchExistingTodoIssues. emits_auto. Qed.

Lemma Https_fetch_calm w :
  faults w = [] ->
  final (Https.fetchExistingTodoIssues w) = w
  /\ outcome (Https.fetchExistingTodoIssues w)
     = Ret (addFingerprints (take 100 (openTodoIssues w)) ∅).
Proof.
  intros Hf. unfold Https.fetchExistingTodoIssues, bind, console, emit.
  cbv beta iota. rewrite (remoteList_quiet 1 w Hf). simpl.
  rewrite drop_0. split; reflexivity.
Qed.

Lemma Https_main_fetched cfg tree w E :
  unset (GITHUB_TOKEN cfg) || unset (GITHUB_REPOSITORY cfg) = false ->
  outcome (Https.fetchExistingTodoIssues w) = Ret E ->
  exists pre,
    Forall (fun e => listing e = true) pre
    /\ Https.main cfg tree w
       = (final (Https_afterFetch cfg tree E (final (Https.fetchExistingTodoIssues w))),
          pre ++ trace (Https_afterFetch cfg tree E
                          (final (Https.fetchExistingTodoIssues w))),
          outcome (Https_afterFetch cfg tree E
                     (final (Https.fetchExistingTodoIssues w)))).
Proof.
  intros Hc He.
  exists ([Console Log [T "=== TODO to GitHub Issue Automation ==="; nl];
           Console Log [T "Repository: "; V (default [] (GITHUB_REPOSITORY cfg))];
           Console Log [T "Project Number: "; I (PROJECT_NUMBER cfg); nl]]
          ++ trace (Https.fetchExistingTodoIssues w)).
  split.
  - apply Forall_app. split; [repeat constructor|apply Https_fetch_listing].
  - unfold Https.main. rewrite Hc.
    rewrite console_bind, ret_bind, !console_bind.
    cbn [trace outcome final fst snd].
    rewrite (bind_run _ _ _ _ _ _ (run_equation _ _ _ He)).
    cbn [trace outcome final fst snd]. reflexivity.
Qed.

Lemma Https_createLoop_skips owner pn E l : forall c w,
  (forall t, t ∈ l -> Https.fingerprint t ∈ E) ->
  outcome (Https.createLoop owner pn E l c w) = Ret c
  /\ final (Https.createLoop owner pn E l c w) = w
  /\ Forall (fun e => isConsole e = true)
       (trace (Https.createLoop owner pn E l c w)).
Proof.
  induction l as [|t l IH]; intros c w Hall.
  - repeat split. constructor.
  - cbn [Https.createLoop].
    rewrite bool_decide_eq_true_2 by (apply Hall; left).
    destruct (IH c w) as (H1 & H2 & H3); [intros t' Ht'; apply Hall; right; exact Ht'|].
    unfold bind at 1 3 5. unfold bind at 1 2 3. cbn [console emit ret].
    destruct (Https.createLoop owner pn E l c w) as [[w2 t2] r2].
    cbn [trace outcome final fst snd app] in *.
    repeat split; auto.
Qed.

Lemma Https_afterFetch_tracked cfg tree E w :
  (forall t, t ∈ valueOr [] (Https.scanDirectory tree w) ->
     Https.fingerprint t ∈ E) ->
  final (Https_afterFetch cfg tree E w) = w
  /\ Forall (fun e => isConsole e = true) (trace (Https_afterFetch cfg tree E w)).
Proof.
  intros Hall. unfold Https_afterFetch. rewrite console_bind.
  cbn [trace outcome final fst snd].
  destruct (Https_scanDirectory_spec tree w) as (Hfin & _).
  pose proof (Https_scanDirectory_emits isConsole (fun _ _ => eq_refl) tree w) as Hc.
  pose proof (Https_scanDirectory_noExit tree w) as Hx.
  unfold valueOr in Hall.
  destruct (outcome (Https.scanDirectory tree w)) as [l|e|k] eqn:Ho.
  - rewrite (bind_run _ _ _ _ _ _ (run_equation _ _ _ Ho)), Hfin.
    rewrite console_bind. cbn [trace outcome final fst snd].
    destruct (Https_createLoop_skips
                (ownerOf (default [] (GITHUB_REPOSITORY cfg)))
                (PROJECT_NUMBER cfg) E l 0 w Hall) as (H1 & H2 & H3).
    rewrite (bind_run _ _ _ _ _ _ (run_equation _ _ _ H1)), H2.
    rewrite !console_bind. unfold console, emit.
    cbn [trace outcome final fst snd]. split; [reflexivity|].
    constructor; [reflexivity|]. apply Forall_app. split; [exact Hc|].
    constructor; [reflexivity|]. apply Forall_app. split; [exact H3|].
    repeat constructor.
  - assert (Hs : Https.scanDirectory tree w
                 = (w, trace (Https.scanDirectory tree w), Throw e)).
    { rewrite <- Hfin at 2. rewrite <- Ho. apply surjective_run. }
    rewrite (bind_throw _ _ _ _ _ _ Hs). cbn [trace outcome final fst snd].
    split; [reflexivity|]. constructor; [reflexivity|exact Hc].
  - exfalso. eapply Hx. reflexivity.
Qed.

Lemma Https_run_all_tracked cfg tree w E :
  unset (GITHUB_TOKEN cfg) || unset (GITHUB_REPOSITORY cfg) = false ->
  outcome (Https.fetchExistingTodoIssues w) = Ret E ->
  (forall t, t ∈ valueOr [] (Https.scanDirectory tree w) ->
     Https.fingerprint t ∈ E) ->
  sameRemote w (final (Https.run cfg tree w))
  /\ Forall (fun e => isRemote e = true -> isList e = true)
       (trace (Https.run cfg tree w)).
Proof.
  intros Hc He Hall.
  destruct (Https_main_fetched cfg tree w E Hc He) as (pre & Hpre & Hm).
  assert (Hall' : forall t,
            t ∈ valueOr [] (Https.scanDirectory tree
                              (final (Https.fetchExistingTodoIssues w))) ->
            Https.fingerprint t ∈ E).
  { intros t Ht. apply Hall. revert Ht. apply Https_scan_any_world. }
  destruct (Https_afterFetch_tracked cfg tree E _ Hall') as (Hfin & Htr).
  unfold Https.run. rewrite Hm, Hfin. split.
  - rewrite final_catchFatal. cbn [final fst]. apply Https_fetch_readOnly.
  - apply listing_Forall.
    destruct (outcome (Https_afterFetch cfg tree E _)) as [[]|e|k];
      cbn [catchFatal trace fst snd];
      repeat (apply Forall_app; split); auto using console_listing;
      repeat constructor.
Qed.

Lemma Https_addIssueToProject_world owner nid pn w :
  issues (final (Https.addIssueToProject owner nid pn w)) = issues w
  /\ (faults w = [] ->
      faults (final (Https.addIssueToProject owner nid pn w)) = [])
  /\ (outcome (Https.addIssueToProject owner nid pn w) = Ret tt
      \/ exists e, outcome (Https.addIssueToProject owner nid pn w) = Throw e).
Proof.
  destruct (Https_addIssueToProject_spec owner nid pn w)
    as (H1 & _ & _ & H4 & _ & _ & H7).
  split; [exact H1|]. split; [intros Hf; apply H7, Hf|].
  destruct H4 as [H4|H4]; eauto.
Qed.

Lemma Https_createIssue_calm txt p fp w :
  faults w = [] ->
  exists i,
    outcome (Https.createIssue txt p fp w) = Ret i
    /\ faults (final (Https.createIssue txt p fp w)) = []
    /\ issues (final (Https.createIssue txt p fp w)) = i :: issues w
    /\ tracksBody (Https.issueBody p fp) i.
Proof.
  intros Hf. destruct w as [iss up op vp its nof fs]. simpl in Hf. subst fs.
  unfold Https.createIssue, remoteCreate, nextFault, bind, console, emit, ret.
  cbn [faults issues userProject orgProject viewerProject items nodeIdOf
       outcome final trace fst snd].
  eexists. repeat split.
Qed.

Lemma Https_turn_calm owner pn t c w :
  faults w = [] ->
  let x := (tryCatch
            (let* i := Https.createIssue (Https.text t) (Https.filePath t)
                         (Https.fingerprint t) in
             (if truthy (node_id i)
              then Https.addIssueToProject owner (node_id i) pn
              else ret tt);;
             emit (Sleep 1000);;
             ret (S c))
            (fun e =>
               console Err ([T "Error creating issue for "; quote;
                             V (Https.text t); quote; T ": "] ++ e);;
               ret c)) w in
  faults (final x) = []
  /\ exists r, issues (final x) = r :: issues w
               /\ tracksBody (Https.issueBody (Https.filePath t)
                                (Https.fingerprint t)) r.
Proof.
  intros Hf x. subst x.
  destruct (Https_createIssue_calm (Https.text t) (Https.filePath t)
              (Https.fingerprint t) w Hf) as (i & Ho & Hf1 & Hi & Hr).
  unfold tryCatch. rewrite (bind_run _ _ _ _ _ _ (run_equation _ _ _ Ho)).
  set (w1 := final (Https.createIssue _ _ _ w)) in *. clearbody w1.
  set (link := if truthy (node_id i)
               then Https.addIssueToProject owner (node_id i) pn
               else ret tt).
  assert (Hlink : issues (final (link w1)) = issues w1
                  /\ faults (final (link w1)) = []
                  /\ (outcome (link w1) = Ret tt
                      \/ exists e, outcome (link w1) = Throw e)).
  { subst link. destruct (truthy (node_id i)).
    - destruct (Https_addIssueToProject_world owner (node_id i) pn w1)
        as (H1 & H2 & H3). auto.
    - cbn. auto. }
  destruct Hlink as (H1 & H2 & H3).
  unfold bind, emit, ret, console.
  destruct (link w1) as [[w2 t2] r2]. cbn [trace outcome final fst snd] in *.
  destruct H3 as [->|[e ->]]; cbv beta iota; unfold emit;
    cbn [trace outcome final fst snd]; rewrite H1, Hi; eauto.
Qed.

Lemma Https_createLoop_calm owner pn E allTodos : forall c w,
  faults w = [] ->
  faults (final (Https.createLoop owner pn E allTodos c w)) = []
  /\ exists new,
       issues (final (Https.createLoop owner pn E allTodos c w)) = new ++ issues w
       /\ forall t, t ∈ allTodos -> Https.fingerprint t ∉ E ->
            exists r, r ∈ new
              /\ tracksBody (Https.issueBody (Https.filePath t)
                               (Https.fingerprint t)) r.
Proof.
  induction allTodos as [|t todos IH]; intros c w Hf.
  - split; [exact Hf|]. exists []. split; [reflexivity|].
    intros t Ht. inversion Ht.
  - cbn [Https.createLoop].
    destruct (bool_decide_reflect (Https.fingerprint t ∈ E)) as [Hin|Hin].
    + destruct (IH c w Hf) as (Hf2 & new & Hi2 & Hall).
      unfold bind at 1 3. unfold bind at 1 2. cbn [console emit ret].
      destruct (Https.createLoop owner pn E todos c w) as [[w2 t2] r2].
      cbn [trace outcome final fst snd] in *.
      split; [exact Hf2|]. exists new. split; [exact Hi2|].
      intros t' Ht' Hn. apply elem_of_cons in Ht' as [->|Ht']; [contradiction|].
      apply Hall; assumption.
    + pose proof (Https_turn_calm owner pn t c w Hf) as (Hf1 & r & Hi & Hr).
      pose proof (Https_createLoop_turn owner pn t c w) as (_ & done & Ho & _).
      cbv zeta in Hf1, Hi, Ho.
      match goal with |- context [bind ?m _ w] => set (turn := m) in * end.
      destruct (turn w) as [[w1 t1] r1] eqn:Hturn.
      cbn [trace outcome final fst snd] in Hf1, Hi, Ho. subst r1.
      unfold bind. rewrite Hturn.
      destruct (IH (if done then S c else c) w1 Hf1) as (Hf2 & new & Hi2 & Hall).
      destruct (Https.createLoop owner pn E todos _ w1) as [[w2 t2] r2].
      cbn [trace outcome final fst snd] in *.
      split; [exact Hf2|]. exists (new ++ [r]).
      rewrite Hi2, Hi, <- app_assoc. split; [reflexivity|].
      intros t' Ht' Hn. apply elem_of_cons in Ht' as [->|Ht'].
      * exists r. split; [apply elem_of_app; right; left|exact Hr].
      * destruct (Hall t' Ht' Hn) as (r' & Hr' & Hb). exists r'.
        split; [apply elem_of_app; left; exact Hr'|exact Hb].
Qed.

Lemma Https_scanned_text tree w t :
  t ∈ valueOr [] (Https.scanDirectory tree w) ->
  Forall (fun c => isLineTerminator c = false) (Https.text t)
  /\ (forall c, last (Https.text t) = Some c -> isWhiteSpace c = false)
  /\ Https.fingerprint t = Https.filePath t ++ lit "|" ++ Https.text t.
Proof.
  destruct (Https_scanDirectory_spec tree w) as (_ & W).
  unfold valueOr. destruct (forallb _ tree); cbn [HttpsWalk] in W.
  - destruct W as (l & -> & Mem). rewrite Mem.
    intros (e & _ & p & content & _ & Ht).
    unfold Https.todosOfContent in Ht.
    apply list_elem_of_omap in Ht as (line & _ & Ht).
    apply Https_todoOfLine_sound in Ht
      as (cap & (_ & _ & _ & _ & _ & _ & _ & _ & _ & _ & _ & Hcap & _)
          & Htxt & Hp & Hfp).
    rewrite Hfp, Htxt, Hp. destruct (captured_text cap Hcap). auto.
  - destruct W as (e & ->). intros H. inversion H.
Qed.

Lemma Https_afterFetch_calm cfg tree E w :
  faults w = [] ->
  faults (final (Https_afterFetch cfg tree E w)) = []
  /\ exists new,
       issues (final (Https_afterFetch cfg tree E w)) = new ++ issues w
       /\ forall t, t ∈ valueOr [] (Https.scanDirectory tree w) ->
            Https.fingerprint t ∉ E ->
            exists r, r ∈ new
              /\ tracksBody (Https.issueBody (Https.filePath t)
                               (Https.fingerprint t)) r.
Proof.
  intros Hf. unfold Https_afterFetch. rewrite console_bind.
  cbn [trace outcome final fst snd].
  destruct (Https_scanDirectory_spec tree w) as (Hfin & _).
  pose proof (Https_scanDirectory_noExit tree w) as Hx.
  unfold valueOr.
  destruct (outcome (Https.scanDirectory tree w)) as [l|e|k] eqn:Ho.
  - rewrite (bind_run _ _ _ _ _ _ (run_equation _ _ _ Ho)), Hfin.
    rewrite console_bind. cbn [trace outcome final fst snd].
    destruct (Https_createLoop_spec
                (ownerOf (default [] (GITHUB_REPOSITORY cfg)))
                (PROJECT_NUMBER cfg) E l 0 w) as (oks & dones & _ & _ & H1 & _).
    rewrite (bind_run _ _ _ _ _ _ (run_equation _ _ _ H1)).
    rewrite !console_bind. unfold console, emit.
    cbn [trace outcome final fst snd].
    apply Https_createLoop_calm, Hf.
  - assert (Hs : Https.scanDirectory tree w
                 = (w, trace (Https.scanDirectory tree w), Throw e)).
    { rewrite <- Hfin at 2. rewrite <- Ho. apply surjective_run. }
    rewrite (bind_throw _ _ _ _ _ _ Hs). cbn [trace outcome final fst snd].
    split; [exact Hf|]. exists []. split; [reflexivity|].
    intros t Ht. inversion Ht.
  - exfalso. eapply Hx. reflexivity.
Qed.

Lemma Https_run_converges cfg tree w :
  unset (GITHUB_TOKEN cfg) || unset (GITHUB_REPOSITORY cfg) = false ->
  faults w = [] ->
  (forall t, t ∈ valueOr [] (Https.scanDirectory tree w) ->
     plainPath (Https.filePath t)) ->
  faults (final (Https.run cfg tree w)) = []
  /\ forall t, t ∈ valueOr [] (Https.scanDirectory tree w) ->
       exists r, r ∈ openTodoIssues (final (Https.run cfg tree w))
                 /\ extractFingerprint (body r) = Some (Https.fingerprint t).
Proof.
  intros Hc Hf Hplain.
  destruct (Https_fetch_calm w Hf) as (Hfin & He).
  destruct (Https_main_fetched cfg tree w _ Hc He) as (pre & _ & Hm).
  rewrite Hfin in Hm.
  destruct (Https_afterFetch_calm cfg tree
              (addFingerprints (take 100 (openTodoIssues w)) ∅) w Hf)
    as (Hf1 & new & Hi & Hall).
  unfold Https.run. rewrite final_catchFatal, Hm. cbn [final fst].
  split; [exact Hf1|]. intros t Hin.
  destruct (decide (Https.fingerprint t
                    ∈ addFingerprints (take 100 (openTodoIssues w)) ∅))
    as [Hold|Hnw].
  - apply addFingerprints_spec in Hold as [Hold|(r & Hr1 & Hr2)].
    + exfalso. revert Hold. apply not_elem_of_empty.
    + exists r. split; [|exact Hr2].
      eapply openTodoIssues_later; [exact Hi|].
      rewrite <- (take_drop 100 (openTodoIssues w)).
      apply elem_of_app. left. exact Hr1.
  - destruct (Hall t Hin Hnw) as (r & Hr1 & Hr2).
    exists r. split.
    + eapply tracked_is_listed; [|exact Hr2]. rewrite Hi.
      apply elem_of_app. left. exact Hr1.
    + destruct Hr2 as (-> & _).
      destruct (Hplain t Hin) as (Hk & Hlt & Hh).
      destruct (Https_scanned_text tree w t Hin) as (Htl & Htw & Hfp).
      destruct (identity_trimmed (Https.filePath t) (Https.text t)) as [H1 H2];
        [repeat split; assumption|].
      rewrite Hfp. apply Https_body_read; assumption.
Qed.

(** When the reader of the HTTPS script returns a set that holds the
    identity of every annotation found, the run creates nothing: its
    only request is the listing, and the tracker and the projects are
    left as they are. *)
Theorem Https_all_tracked cfg tree w E :
  unset (GITHUB_TOKEN cfg) || unset (GITHUB_REPOSITORY cfg) = false ->
  outcome (Https.fetchExistingTodoIssues w) = Ret E ->
  (forall t, t ∈ valueOr [] (Https.scanDirectory tree w) ->
     Https.fingerprint t ∈ E) ->
  sameRemote w (final (Https.run cfg tree w))
  /\ Forall (fun e => isRemote e = true -> isList e = true)
       (trace (Https.run cfg tree w)).
Proof. apply Https_run_all_tracked. Qed.

Lemma Https_all_tracked_witness :
  sameRemote oneRecord
    (final (Https.run sampleConfig
              [File (lit "a.txt") (Content (lit "// TODO: fix auth"))]
              oneRecord)).
Proof.
  apply (Https_all_tracked sampleConfig
           [File (lit "a.txt") (Content (lit "// TODO: fix auth"))]
           oneRecord {[lit "a.txt|fix auth"]});
    [reflexivity|vm_compute; reflexivity|].
  intros t Ht. apply list_elem_of_In in Ht. vm_compute in Ht.
  destruct Ht as [<-|[]]. apply elem_of_singleton. reflexivity.
Defined.

(** A second run of the HTTPS script creates nothing, under the same
    conditions on the paths as for the Octokit script and as long as
    the open records labelled todo fit on one page of a hundred: after
    a run in which every request went through, every annotation has an
    open record that bears its identity, and a run on the same tree
    from there makes no other request than the listing and leaves the
    tracker and the projects as they are.  The text of an annotation
    may hold the key of the marker here. *)
Theorem Https_second_run cfg tree w :
  unset (GITHUB_TOKEN cfg) || unset (GITHUB_REPOSITORY cfg) = false ->
  faults w = [] ->
  (forall t, t ∈ valueOr [] (Https.scanDirectory tree w) ->
     plainPath (Https.filePath t)) ->
  (length (openTodoIssues (final (Https.run cfg tree w))) <= 100)%nat ->
  (forall t, t ∈ valueOr [] (Https.scanDirectory tree w) ->
     exists r, r ∈ openTodoIssues (final (Https.run cfg tree w))
               /\ extractFingerprint (body r) = Some (Https.fingerprint t))
  /\ sameRemote (final (Https.run cfg tree w))
       (final (Https.run cfg tree (final (Https.run cfg tree w))))
  /\ Forall (fun e => isRemote e = true -> isList e = true)
       (trace (Https.run cfg tree (final (Https.run cfg tree w)))).
Proof.
  intros Hc Hf Hplain Hlen.
  destruct (Https_run_converges cfg tree w Hc Hf Hplain) as (Hf1 & Hconv).
  split; [exact Hconv|].
  destruct (Https_fetch_calm _ Hf1) as (_ & He).
  apply (Https_run_all_tracked cfg tree _ _ Hc He).
  intros t Hin. apply (Https_scan_any_world tree _ w) in Hin.
  destruct (Hconv t Hin) as (r & Hr1 & Hr2).
  rewrite take_ge by exact Hlen.
  eapply addFingerprints_elem; eauto.
Qed.

Lemma Https_second_run_witness :
  Forall (fun e => isRemote e = true -> isList e = true)
    (trace (Https.run sampleConfig markerInText
              (final (Https.run sampleConfig markerInText emptyWorld)))).
Proof.
  apply (Https_second_run sampleConfig markerInText emptyWorld);
    [reflexivity|reflexivity| |vm_compute; lia].
  intros t Hin. apply list_elem_of_In in Hin. vm_compute in Hin.
  destruct Hin as [<-|[]]. split; [|split].
  - apply short_no_key. simpl. lia.
  - repeat constructor.
  - intros c [= <-]. reflexivity.
Defined.

(** * Exit codes *)

Lemma Octo_fetch_failed w e :
  outcome (Octo.fetchExistingTodoIssues w) = Throw e ->
  Exists (fun e => isFailedList e = true) (trace (Octo.fetchExistingTodoIssues w)).
Proof.
  unfold Octo.fetchExistingTodoIssues.
  rewrite outcome_tryCatch, trace_tryCatch.
  pose proof (Octo_pagesLoop_throw (S (length (issues w))) 1 ∅ w) as Ht.
  destruct (outcome (Octo.pagesLoop (S (length (issues w))) 1 ∅ w))
    as [a|e'|k]; try discriminate.
  intros _. apply Exists_app. left. apply (Ht e'). reflexivity.
Qed.

Lemma Https_fetch_failed w e :
  outcome (Https.fetchExistingTodoIssues w) = Throw e ->
  Exists (fun e => isFailedList e = true) (trace (Https.fetchExistingTodoIssues w)).
Proof.
  unfold Https.fetchExistingTodoIssues, bind, console, emit.
  destruct (remoteList_cases 1 w) as [(w1 & e1 & -> & _)|(w1 & -> & _)];
    cbn [trace outcome fst snd app]; [|discriminate].
  intros _. apply Exists_cons_tl, Exists_cons_hd. reflexivity.
Qed.

Lemma Octo_afterFetch_returns cfg todos E w :
  outcome (Octo_afterFetch cfg todos E w) = Ret tt
  /\ Forall (fun e => isList e = false) (trace (Octo_afterFetch cfg todos E w)).
Proof.
  unfold Octo_afterFetch. rewrite !console_bind.
  cbn [trace outcome final fst snd].
  destruct (Nat.eqb (length (Octo.newTodosOf E todos)) 0).
  { unfold console, emit. cbn. split; [reflexivity|repeat constructor]. }
  rewrite console_bind. cbn [trace outcome final fst snd].
  destruct (Octo_projectId_spec w) as ((pid & Hp) & _ & Hl).
  rewrite (bind_run _ _ _ _ _ _ (run_equation _ _ _ Hp)).
  rewrite console_bind. cbn [trace outcome final fst snd].
  destruct (Octo_createLoop_spec (PROJECT_NUMBER cfg) pid
              (Octo.newTodosOf E todos) 0 (final (Octo.resolveProject w)))
    as (oks & _ & Ho & _ & _ & Hl').
  rewrite (bind_run _ _ _ _ _ _ (run_equation _ _ _ Ho)).
  unfold console, emit. cbn [trace outcome final fst snd].
  split; [reflexivity|].
  repeat constructor. apply Forall_app. split; [exact Hl|].
  constructor; [reflexivity|]. apply Forall_app. split; [exact Hl'|].
  repeat constructor.
Qed.

(** A run of the Octokit script whose configuration is there either
    returns without a failed listing or throws after one. *)
Lemma Octo_main_outcome cfg tree w :
  unset (GITHUB_TOKEN cfg) = false -> unset (GITHUB_REPOSITORY cfg) = false ->
  (outcome (Octo.main cfg tree w) = Ret tt
   /\ ~ Exists (fun e => isFailedList e = true) (trace (Octo.main cfg tree w)))
  \/ (exists e, outcome (Octo.main cfg tree w) = Throw e
                /\ Exists (fun e => isFailedList e = true)
                     (trace (Octo.main cfg tree w))).
Proof.
  intros Ht Hr.
  destruct (Octo_scanForTodos_spec tree w) as (todos & Hs & _ & _).
  destruct (Octo_main_scanned cfg tree w todos Ht Hr Hs) as (pre & Hpre & ->).
  cbn [trace outcome fst snd].
  assert (Hpre' : Forall (fun e => isFailedList e = false) pre).
  { eapply Forall_impl; [exact Hpre|]. intros [] He; try discriminate. reflexivity. }
  destruct todos as [|t0 todos'] eqn:Htodos.
  { left. unfold Octo_afterScan, console, emit.
    cbn [length Nat.eqb trace outcome fst snd]. split; [reflexivity|].
    apply no_failed_Exists, Forall_app. split; [exact Hpre'|repeat constructor]. }
  rewrite <- Htodos in *.
  assert (Hne : todos <> []) by (rewrite Htodos; discriminate).
  destruct (Octo_fetch_spec w) as (_ & [(E & He & Hclean & _)|(e & He)]).
  - left. rewrite (Octo_afterScan_fetched cfg todos w E Hne He).
    cbn [trace outcome fst snd].
    destruct (Octo_afterFetch_returns cfg todos E
                (final (Octo.fetchExistingTodoIssues w))) as (Ho & Hl).
    split; [exact Ho|]. apply no_failed_Exists, Forall_app.
    split; [exact Hpre'|]. constructor; [reflexivity|].
    apply Forall_app. split; [exact Hclean|apply not_list_not_failed, Hl].
  - right. exists e.
    assert (Hrun : Octo_afterScan cfg todos w
                   = (final (Octo.fetchExistingTodoIssues w),
                      Console Log [T "Step 2: Fetching existing TODO issues from GitHub..."]
                        :: trace (Octo.fetchExistingTodoIssues w),
                      Throw e)).
    { unfold Octo_afterScan. rewrite Htodos. cbn [length Nat.eqb].
      rewrite console_bind.
      rewrite (bind_throw _ _ _ _ _ _
                 (eq_trans (surjective_run _) (f_equal _ He))).
      reflexivity. }
    rewrite Hrun. cbn [trace outcome fst snd]. split; [reflexivity|].
    apply Exists_app. right. apply Exists_cons_tl. eapply Octo_fetch_failed, He.
Qed.

Lemma Https_afterFetch_outcome cfg tree E w :
  Forall (fun e => isFailedList e = false) (trace (Https_afterFetch cfg tree E w))
  /\ (if forallb (walkable Https.EXCLUDED_DIRS) tree
      then outcome (Https_afterFetch cfg tree E w) = Ret tt
      else exists e, outcome (Https_afterFetch cfg tree E w) = Throw e).
Proof.
  unfold Https_afterFetch. rewrite console_bind.
  cbn [trace outcome final fst snd].
  destruct (Https_scanDirectory_spec tree w) as (Hfin & W).
  pose proof (Https_scanDirectory_emits (fun e => negb (isList e))
                (fun _ _ => eq_refl) tree w) as Hc.
  assert (Hc' : Forall (fun e => isFailedList e = false)
                  (trace (Https.scanDirectory tree w))).
  { apply not_list_not_failed. eapply Forall_impl; [exact Hc|].
    intros e He. apply negb_true_iff, He. }
  destruct (forallb (walkable Https.EXCLUDED_DIRS) tree); cbn [HttpsWalk] in W.
  - destruct W as (l & Ho & _).
    rewrite (bind_run _ _ _ _ _ _ (run_equation _ _ _ Ho)), Hfin.
    rewrite console_bind. cbn [trace outcome final fst snd].
    destruct (Https_createLoop_spec
                (ownerOf (default [] (GITHUB_REPOSITORY cfg)))
                (PROJECT_NUMBER cfg) E l 0 w)
      as (oks & dones & _ & _ & H1 & _ & _ & _ & Hl).
    rewrite (bind_run _ _ _ _ _ _ (run_equation _ _ _ H1)).
    rewrite !console_bind. unfold console, emit.
    cbn [trace outcome final fst snd]. split; [|reflexivity].
    constructor; [reflexivity|]. apply Forall_app. split; [exact Hc'|].
    constructor; [reflexivity|]. apply Forall_app.
    split; [apply not_list_not_failed, Hl|repeat constructor].
  - destruct W as (e & Ho).
    rewrite (bind_throw _ _ _ _ _ _
               (eq_trans (surjective_run _) (f_equal _ Ho))).
    cbn [trace outcome final fst snd]. split; [|eauto].
    constructor; [reflexivity|exact Hc'].
Qed.

Lemma Https_main_outcome cfg tree w :
  unset (GITHUB_TOKEN cfg) || unset (GITHUB_REPOSITORY cfg) = false ->
  (outcome (Https.main cfg tree w) = Ret tt
   /\ ~ Exists (fun e => isFailedList e = true) (trace (Https.main cfg tree w))
   /\ forallb (walkable Https.EXCLUDED_DIRS) tree = true)
  \/ (exists e, outcome (Https.main cfg tree w) = Throw e
                /\ (Exists (fun e => isFailedList e = true)
                      (trace (Https.main cfg tree w))
                    \/ forallb (walkable Https.EXCLUDED_DIRS) tree = false)).
Proof.
  intros Hc.
  destruct (Https_fetch_spec w) as (_ & [(E & He & Hclean & _)|(e & He)]).
  - destruct (Https_main_fetched cfg tree w E Hc He) as (pre & _ & Hm).
    destruct (Https_afterFetch_outcome cfg tree E
                (final (Https.fetchExistingTodoIssues w))) as (Hl & Ho).
    assert (Htr : trace (Https.main cfg tree w)
                  = [Console Log [T "=== TODO to GitHub Issue Automation ==="; nl];
                     Console Log [T "Repository: ";
                                  V (default [] (GITHUB_REPOSITORY cfg))];
                     Console Log [T "Project Number: "; I (PROJECT_NUMBER cfg); nl]]
                    ++ trace (Https.fetchExistingTodoIssues w)
                    ++ trace (Https_afterFetch cfg tree E
                                (final (Https.fetchExistingTodoIssues w)))).
    { unfold Https.main. rewrite Hc.
      rewrite console_bind, ret_bind, !console_bind.
      cbn [trace outcome final fst snd].
      rewrite (bind_run _ _ _ _ _ _ (run_equation _ _ _ He)).
      reflexivity. }
    assert (Hno : ~ Exists (fun e => isFailedList e = true)
                      (trace (Https.main cfg tree w))).
    { rewrite Htr. apply no_failed_Exists.
      repeat (apply Forall_app; split); auto; repeat constructor. }
    rewrite Hm in *. cbn [trace outcome fst snd] in *.
    destruct (forallb (walkable Https.EXCLUDED_DIRS) tree).
    + left. auto.
    + right. destruct Ho as (e & Ho). eauto.
  - right. exists e.
    assert (Hrun : Https.main cfg tree w
                   = (final (Https.fetchExistingTodoIssues w),
                      [Console Log [T "=== TODO to GitHub Issue Automation ==="; nl];
                       Console Log [T "Repository: ";
                                    V (default [] (GITHUB_REPOSITORY cfg))];
                       Console Log [T "Project Number: "; I (PROJECT_NUMBER cfg); nl]]
                      ++ trace (Https.fetchExistingTodoIssues w),
                      Throw e)).
    { unfold Https.main. rewrite Hc.
      rewrite console_bind, ret_bind, !console_bind.
      cbn [trace outcome final fst snd].
      rewrite (bind_throw _ _ _ _ _ _
                 (eq_trans (surjective_run _) (f_equal _ He))).
      reflexivity. }
    rewrite Hrun. cbn [trace outcome fst snd]. split; [reflexivity|].
    left. apply Exists_app. right. eapply Https_fetch_failed, He.
Qed.

Lemma Exists_failed_fatal tr e :
  Exists (fun e => isFailedList e = true) (tr ++ [Console Err (T "Fatal error:" :: e)])
  <-> Exists (fun e => isFailedList e = true) tr.
Proof.
  rewrite Exists_app. split; [|auto].
  intros [H|H]; [exact H|].
  apply Exists_cons in H as [H|H]; [discriminate|inversion H].
Qed.

(** The exit code of a run is 0 or 1.  A run of the Octokit script
    ends with 1 exactly when the token or the repository is not set or
    a listing of the records failed; a run of the HTTPS script, exactly
    when one of the two is not set, the listing failed, or the walk
    meets a directory that cannot be listed.  A failed creation or
    attachment never changes the exit code. *)
Theorem exit_codes cfg tree w :
  ((outcome (Octo.run cfg tree w) = 0%Z \/ outcome (Octo.run cfg tree w) = 1%Z)
   /\ (outcome (Octo.run cfg tree w) = 1%Z
       <-> unset (GITHUB_TOKEN cfg) = true
           \/ unset (GITHUB_REPOSITORY cfg) = true
           \/ Exists (fun e => isFailedList e = true)
                (trace (Octo.run cfg tree w))))
  /\ ((outcome (Https.run cfg tree w) = 0%Z \/ outcome (Https.run cfg tree w) = 1%Z)
      /\ (outcome (Https.run cfg tree w) = 1%Z
          <-> unset (GITHUB_TOKEN cfg) || unset (GITHUB_REPOSITORY cfg) = true
              \/ Exists (fun e => isFailedList e = true)
                   (trace (Https.run cfg tree w))
              \/ forallb (walkable Https.EXCLUDED_DIRS) tree = false)).
Proof.
  split.
  - destruct (unset (GITHUB_TOKEN cfg)) eqn:Ht.
    { unfold Octo.run, Octo.main. rewrite Ht, !console_bind.
      unfold bind, console, emit, exit. cbn. split; [auto|]. split; auto. }
    destruct (unset (GITHUB_REPOSITORY cfg)) eqn:Hr.
    { unfold Octo.run, Octo.main. rewrite Ht, Hr, !console_bind, ret_bind.
      unfold bind, console, emit, exit. cbn. split; [auto|]. split; auto. }
    unfold Octo.run.
    destruct (Octo_main_outcome cfg tree w Ht Hr) as [(Ho & Hno)|(e & Ho & Hex)];
      destruct (Octo.main cfg tree w) as [[w1 t1] r1];
      cbn [trace outcome fst snd] in *; subst r1; cbn [catchFatal outcome snd trace fst].
    + split; [auto|]. split; [discriminate|].
      intros [H|[H|H]]; try discriminate. contradiction.
    + split; [auto|]. split; [|reflexivity].
      intros _. right. right. apply Exists_failed_fatal, Hex.
  - destruct (unset (GITHUB_TOKEN cfg) || unset (GITHUB_REPOSITORY cfg)) eqn:Hc.
    { unfold Https.run, Https.main. rewrite Hc, console_bind.
      unfold bind, console, emit, exit. cbn. split; [auto|]. split; auto. }
    unfold Https.run.
    destruct (Https_main_outcome cfg tree w Hc)
      as [(Ho & Hno & Hw)|(e & Ho & Hex)];
      destruct (Https.main cfg tree w) as [[w1 t1] r1];
      cbn [trace outcome fst snd] in *; subst r1; cbn [catchFatal outcome snd trace fst].
    + split; [auto|]. split; [discriminate|].
      intros [H|[H|H]]; try discriminate; [contradiction|congruence].
    + split; [auto|]. split; [|reflexivity].
      intros _. right. destruct Hex as [Hex|Hex]; [left|right; exact Hex].
      apply Exists_failed_fatal, Hex.
Qed.

Lemma exit_codes_witness :
  outcome (Https.run sampleConfig lockedTree emptyWorld) = 1%Z
  /\ outcome (Octo.run sampleConfig twoFiles firstCallFails) = 1%Z.
Proof.
  split.
  - destruct (exit_codes sampleConfig lockedTree emptyWorld) as (_ & _ & H).
    apply H. right. right. reflexivity.
  - destruct (exit_codes sampleConfig twoFiles firstCallFails) as ((_ & H) & _).
    apply H. right. right. apply Exists_exists. exists (ListIssues 1 false).
    split; [|reflexivity]. apply list_elem_of_In. vm_compute.
    repeat (first [left; reflexivity|right]).
Defined.

(** * The counts of a run *)

Lemma length_failedOf {A} (l : list A) : forall oks,
  length oks = length l ->
  (length (failedOf l oks) + countTrue oks = length l)%nat.
Proof.
  unfold failedOf, countTrue.
  induction l as [|a l IH]; intros [|ok oks] Hlen; try discriminate; [reflexivity|].
  injection Hlen as Hlen. specialize (IH oks Hlen).
  destruct ok; cbn [zip zip_with omap list_omap snd fst List.filter length] in *;
    change (list_omap _ _ ?f ?l) with (omap f l) in *;
    change (zip_with pair l oks) with (zip l oks) in *; lia.
Qed.

Lemma length_partition {A} (P : A -> bool) (l : list A) :
  (length (List.filter P l) + length (List.filter (fun a => negb (P a)) l)
   = length l)%nat.
Proof.
  induction l as [|a l IH]; [reflexivity|]. simpl.
  destruct (P a); simpl; lia.
Qed.

Lemma recordsMade_zip {A} (f : A -> jsstr * jsstr) (l : list A) : forall oks,
  length oks = length l ->
  length (List.filter succeeded (zip (map f l) oks)) = countTrue oks.
Proof.
  unfold countTrue.
  induction l as [|a l IH]; intros [|ok oks] Hlen; try discriminate; [reflexivity|].
  injection Hlen as Hlen. specialize (IH oks Hlen).
  cbn [map zip zip_with List.filter succeeded snd].
  change (zip_with pair (map f l) oks) with (zip (map f l) oks).
  destruct ok; cbn [length]; rewrite IH; reflexivity.
Qed.

Lemma countTrue_le dones : forall oks : list bool,
  length dones = length oks ->
  (forall k, dones !! k = Some true -> oks !! k = Some true) ->
  (countTrue dones <= countTrue oks)%nat.
Proof.
  unfold countTrue.
  induction dones as [|d dones IH]; intros [|ok oks] Hlen Himp; try discriminate;
    [simpl; lia|].
  injection Hlen as Hlen.
  specialize (IH oks Hlen (fun k => Himp (S k))).
  pose proof (Himp 0%nat) as H0. simpl in H0.
  destruct d; simpl.
  - injection (H0 eq_refl) as ->. simpl. lia.
  - destruct ok; simpl; lia.
Qed.

(** What the counts of a run add up to.  In the Octokit script every
    new annotation is either counted as created or logged as failed,
    and the count is the number of records made.  In the HTTPS script
    every annotation found is counted as created, logged as failed or
    skipped as a duplicate, so the number the summary prints as skipped
    is the number of duplicates plus the number of failures; and the
    count is at most the number of records made. *)
Theorem run_counts :
  (forall pn pid todos w,
     exists created,
       outcome (Octo.createLoop pn pid todos 0 w) = Ret created
       /\ (created
           + length (Octo_failedItems (trace (Octo.createLoop pn pid todos 0 w)))
           = length todos)%nat
       /\ created = recordsMade (trace (Octo.createLoop pn pid todos 0 w)))
  /\ (forall owner pn E allTodos w,
        exists created,
          outcome (Https.createLoop owner pn E allTodos 0 w) = Ret created
          /\ (created
              + length (Https_failedItems
                          (trace (Https.createLoop owner pn E allTodos 0 w)))
              + length (Https_duplicates E allTodos)
              = length allTodos)%nat
          /\ (Z.of_nat (length allTodos) - Z.of_nat created
              = Z.of_nat (length (Https_duplicates E allTodos)
                          + length (Https_failedItems
                                      (trace (Https.createLoop owner pn E allTodos 0 w)))))%Z
          /\ (created
              <= recordsMade (trace (Https.createLoop owner pn E allTodos 0 w)))%nat).
Proof.
  split.
  - intros pn pid todos w.
    destruct (Octo_createLoop_spec pn pid todos 0 w)
      as (oks & Hlen & Ho & Hc & Hf & _).
    exists (countTrue oks). split; [exact Ho|].
    unfold recordsMade. rewrite Hf, Hc, length_map.
    rewrite (recordsMade_zip Octo_call todos oks Hlen).
    pose proof (length_failedOf todos oks Hlen). split; [lia|reflexivity].
  - intros owner pn E allTodos w.
    destruct (Https_createLoop_spec owner pn E allTodos 0 w)
      as (oks & dones & Hlen & Hlen' & Ho & Hc & Hf & Himp & _).
    exists (countTrue dones). split; [exact Ho|].
    unfold recordsMade. rewrite Hf, Hc, length_map.
    rewrite (recordsMade_zip Https_call _ oks Hlen).
    pose proof (length_failedOf (Https_newTodosOf E allTodos) dones Hlen').
    assert (Hp : (length (Https_duplicates E allTodos)
                  + length (Https_newTodosOf E allTodos) = length allTodos)%nat)
      by apply (length_partition
                  (fun t => bool_decide (Https.fingerprint t ∈ E)) allTodos).
    pose proof (countTrue_le dones oks (eq_trans Hlen' (eq_sym Hlen)) Himp).
    repeat split; lia.
Qed.

(** * The number of requests *)

Lemma requests_app t1 t2 : requests (t1 ++ t2) = (requests t1 + requests t2)%nat.
Proof. unfold requests. rewrite List.filter_app, length_app. reflexivity. Qed.

Section Within.
Context {A B : Type}.

Lemma within_ret (a : A) : within 0 (ret a).
Proof. intros w. reflexivity. Qed.

Lemma within_throw e : within 0 (@throw A e).
Proof. intros w. reflexivity. Qed.

Lemma within_weaken n k (m : M A) : within n m -> (n <= k)%nat -> within k m.
Proof. intros H Hle w. specialize (H w). lia. Qed.

Lemma within_bind a b (m : M A) (f : A -> M B) :
  within a m -> (forall x, within b (f x)) -> within (a + b) (bind m f).
Proof.
  intros Hm Hf w. rewrite trace_bind. specialize (Hm w).
  destruct (outcome (m w)) as [x|e|c]; [|lia|lia].
  rewrite requests_app. specialize (Hf x (final (m w))). lia.
Qed.

Lemma within_tryCatch a b (m : M A) h :
  within a m -> (forall e, within b (h e)) -> within (a + b) (tryCatch m h).
Proof.
  intros Hm Hh w. rewrite trace_tryCatch. specialize (Hm w).
  destruct (outcome (m w)) as [x|e|c]; [lia| |lia].
  rewrite requests_app. specialize (Hh e (final (m w))). lia.
Qed.

End Within.

Lemma within_console l msg : within 0 (console l msg).
Proof. intros w. reflexivity. Qed.

Lemma within_sleep ms : within 0 (emit (Sleep ms)).
Proof. intros w. reflexivity. Qed.

Lemma within_remoteProject k : within 1 (remoteProject k).
Proof.
  intros w. unfold remoteProject.
  destruct (nextFault_run w) as (w1 & f & -> & _).
  destruct f; unfold requests, trace; simpl; lia.
Qed.

Lemma within_remoteAddItem p c : within 1 (remoteAddItem p c).
Proof.
  intros w. unfold remoteAddItem.
  destruct (nextFault_run w) as (w1 & f & -> & _).
  destruct f; unfold requests, trace; simpl; lia.
Qed.

Lemma within_remoteProjectRaw k : within 1 (remoteProjectRaw k).
Proof.
  intros w. unfold remoteProjectRaw.
  destruct (nextReply_run w) as (w1 & f & -> & _).
  destruct f; unfold requests, trace; simpl; lia.
Qed.

Lemma within_remoteAddItemRaw p c : within 1 (remoteAddItemRaw p c).
Proof.
  intros w. unfold remoteAddItemRaw.
  destruct (nextReply_run w) as (w1 & f & -> & _).
  destruct f; unfold requests, trace; simpl; lia.
Qed.

Lemma within_remoteCreate ttl bdy lbls : within 1 (remoteCreate ttl bdy lbls).
Proof.
  intros w. unfold remoteCreate.
  destruct (nextFault_run w) as (w1 & f & -> & _).
  destruct f; unfold requests, trace; simpl; lia.
Qed.

Lemma within_tryOwner k found l msg nid :
  within 2 (Https.tryOwner k found (console l msg) nid).
Proof.
  unfold Https.tryOwner, Https.addItemToProject.
  apply (within_tryCatch 2 0).
  - apply (within_bind 1 1); [apply within_remoteProjectRaw|].
    intros [id|]; [destruct (truthy id)|];
      try (apply (within_weaken 0); [apply within_ret|lia]).
    apply (within_bind 0 1); [apply within_console|intros _].
    apply (within_bind 1 0); [|intros; apply within_ret].
    apply (within_bind 0 1); [apply within_console|intros _].
    apply (within_bind 1 0); [apply within_remoteAddItemRaw|intros [|]].
    + apply within_console.
    + apply within_ret.
  - intros e. apply (within_bind 0 0); [apply within_console|intros; apply within_ret].
Qed.

Lemma within_Https_addIssueToProject owner nid pn :
  within 4 (Https.addIssueToProject owner nid pn).
Proof.
  unfold Https.addIssueToProject.
  apply (within_bind 0 4); [apply within_console|intros _].
  apply (within_bind 2 2); [apply within_tryOwner|].
  intros [|]; [apply (within_weaken 0); [apply within_ret|lia]|].
  apply (within_bind 2 0); [apply within_tryOwner|].
  intros [|]; [apply within_ret|apply within_throw].
Qed.

Lemma within_Https_createIssue txt p fp : within 1 (Https.createIssue txt p fp).
Proof.
  unfold Https.createIssue.
  apply (within_bind 0 1); [apply within_console|intros _].
  apply (within_bind 1 0); [apply within_remoteCreate|intros i].
  apply (within_bind 0 0); [apply within_console|intros; apply within_ret].
Qed.

Lemma within_Https_createLoop owner pn E allTodos : forall c,
  within (5 * length (Https_newTodosOf E allTodos))
    (Https.createLoop owner pn E allTodos c).
Proof.
  induction allTodos as [|t todos IH]; intros c;
    cbn [Https.createLoop Https_newTodosOf List.filter].
  - apply within_ret.
  - fold (Https_newTodosOf E todos).
    destruct (bool_decide (Https.fingerprint t ∈ E)); cbn [negb].
    + apply (within_bind 0 _); [|intros; apply IH].
      apply (within_bind 0 0); [apply within_console|intros; apply within_ret].
    + apply (within_weaken (5 + 5 * length (Https_newTodosOf E todos)));
        [|simpl; lia].
      apply within_bind; [|intros; apply IH].
      apply (within_tryCatch 5 0).
      * apply (within_bind 1 4); [apply within_Https_createIssue|intros i].
        apply (within_bind 4 0).
        -- destruct (truthy (node_id i));
             [apply within_Https_addIssueToProject
             |apply (within_weaken 0); [apply within_ret|lia]].
        -- intros _. apply (within_bind 0 0);
             [apply within_sleep|intros; apply within_ret].
      * intros e. apply (within_bind 0 0);
          [apply within_console|intros; apply within_ret].
Qed.

Lemma within_Octo_createLoop pn pid todos : forall c,
  within (2 * length todos) (Octo.createLoop pn pid todos c).
Proof.
  induction todos as [|t todos IH]; intros c; cbn [Octo.createLoop].
  - apply within_ret.
  - apply (within_weaken (2 + 2 * length todos)); [|simpl; lia].
    apply within_bind; [|intros; apply IH].
    apply (within_tryCatch 2 0).
    + apply (within_bind 1 1).
      * unfold Octo.createIssue. apply (within_tryCatch 1 0).
        -- apply (within_bind 1 0); [apply within_remoteCreate|intros i].
           apply (within_bind 0 0); [apply within_console|intros; apply within_ret].
        -- intros e. apply (within_bind 0 0);
             [apply within_console|intros; apply within_throw].
      * intros i. apply (within_bind 1 0); [|intros; apply within_ret].
        destruct pid as [id|];
          [destruct (truthy id && truthy (node_id i))|];
          try (apply (within_weaken 0); [apply within_ret|lia]).
        unfold Octo.addIssueToProject. apply (within_tryCatch 1 0).
        -- apply (within_bind 1 0); [apply within_remoteAddItem|intros _].
           apply within_console.
        -- intros e. apply within_console.
    + intros e. apply (within_bind 0 0);
        [apply within_console|intros; apply within_ret].
Qed.

Lemma Octo_pagesLoop_requests fuel : forall page acc w,
  (1 <= page)%nat ->
  (100 * requests (trace (Octo.pagesLoop fuel page acc w))
   <= length (drop (100 * (page - 1)) (openTodoIssues w)) + 100)%nat.
Proof.
  induction fuel as [|fuel IH]; intros page acc w Hpage; [simpl; lia|].
  cbn [Octo.pagesLoop]. unfold bind.
  destruct (remoteList_cases page w) as [(w1 & e & -> & _)|(w1 & -> & Hi)].
  - simpl. lia.
  - cbn [fst snd].
    assert (Ho : openTodoIssues w1 = openTodoIssues w)
      by (unfold openTodoIssues; rewrite Hi; reflexivity).
    set (l := drop (100 * (page - 1)) (openTodoIssues w)) in *.
    destruct (bool_decide_reflect (100 < length l)%nat) as [Hlt|Hge];
      [|simpl; lia].
    specialize (IH (S page) (addFingerprints (take 100 l) acc) w1 ltac:(lia)).
    rewrite Ho in IH.
    destruct (Octo.pagesLoop fuel (S page) _ w1) as [[w2 t2] r2].
    cbn [trace fst snd] in *.
    change (requests ([ListIssues page true] ++ t2)) with (S (requests t2)).
    assert (Hl : (length (drop (100 * (S page - 1)) (openTodoIssues w))
                  <= length l - 100)%nat).
    { subst l. rewrite !length_drop. lia. }
    lia.
Qed.

Lemma pauses_app t1 t2 : pauses (t1 ++ t2) = (pauses t1 + pauses t2)%nat.
Proof. unfold pauses. rewrite List.filter_app, length_app. reflexivity. Qed.

Lemma no_pauses tr :
  Forall (fun e => negb (isSleep e) = true) tr -> pauses tr = 0%nat.
Proof.
  unfold pauses. induction 1 as [|e tr He _ IH]; [reflexivity|].
  simpl. apply negb_true_iff in He. rewrite He. exact IH.
Qed.

Lemma Https_turn_pauses owner pn t c w :
  let x := (tryCatch
            (let* i := Https.createIssue (Https.text t) (Https.filePath t)
                         (Https.fingerprint t) in
             (if truthy (node_id i)
              then Https.addIssueToProject owner (node_id i) pn
              else ret tt);;
             emit (Sleep 1000);;
             ret (S c))
            (fun e =>
               console Err ([T "Error creating issue for "; quote;
                             V (Https.text t); quote; T ": "] ++ e);;
               ret c)) w in
  outcome x = Ret (c + pauses (trace x))%nat.
Proof.
  intros x. subst x.
  assert (Hcreate : emits (fun e => negb (isSleep e))
                      (Https.createIssue (Https.text t) (Https.filePath t)
                         (Https.fingerprint t)))
    by (unfold Https.createIssue; emits_auto).
  assert (Hlink : forall i, emits (fun e => negb (isSleep e))
                    (if truthy (node_id i)
                     then Https.addIssueToProject owner (node_id i) pn
                     else ret tt)).
  { intros i. unfold Https.addIssueToProject, Https.tryOwner,
      Https.addItemToProject. emits_auto. }
  assert (Hx1 : forall k, outcome (Https.createIssue (Https.text t)
                            (Https.filePath t) (Https.fingerprint t) w) <> Exit k)
    by apply Https_createIssue_noExit.
  specialize (Hcreate w). apply no_pauses in Hcreate.
  unfold tryCatch, bind.
  destruct (Https.createIssue _ _ _ w) as [[w1 t1] [i|e|k]];
    cbn [trace outcome fst snd] in *.
  - specialize (Hlink i w1). apply no_pauses in Hlink.
    assert (Hx2 : forall k,
              outcome ((if truthy (node_id i)
                        then Https.addIssueToProject owner (node_id i) pn
                        else ret tt) w1) <> Exit k).
    { destruct (truthy (node_id i));
        [apply Https_addIssueToProject_noExit|discriminate]. }
    destruct ((if truthy (node_id i)
               then Https.addIssueToProject owner (node_id i) pn
               else ret tt) w1) as [[w2 t2] [[]|e|k]];
      cbn [trace outcome fst snd emit console ret] in *.
    + rewrite !pauses_app, Hcreate, Hlink. f_equal. unfold pauses. simpl. lia.
    + rewrite !pauses_app, Hcreate, Hlink. f_equal. unfold pauses. simpl. lia.
    + exfalso. eapply Hx2. reflexivity.
  - unfold emit, console, ret. cbn [trace outcome fst snd emit].
    rewrite !pauses_app, Hcreate. f_equal. unfold pauses. simpl. lia.
  - exfalso. eapply Hx1. reflexivity.
Qed.

Lemma Https_createLoop_pauses owner pn E allTodos : forall c w,
  outcome (Https.createLoop owner pn E allTodos c w)
  = Ret (c + pauses (trace (Https.createLoop owner pn E allTodos c w)))%nat.
Proof.
  induction allTodos as [|t todos IH]; intros c w; cbn [Https.createLoop].
  - cbn. f_equal. lia.
  - destruct (bool_decide (Https.fingerprint t ∈ E)).
    + specialize (IH c w).
      unfold bind at 1 3. unfold bind at 1 2. cbn [console emit ret].
      destruct (Https.createLoop owner pn E todos c w) as [[w2 t2] r2].
      cbn [trace outcome fst snd app] in *. exact IH.
    + pose proof (Https_turn_pauses owner pn t c w) as Ho. cbv zeta in Ho.
      match goal with |- context [bind ?m _ w] => set (turn := m) in * end.
      destruct (turn w) as [[w1 t1] r1] eqn:Hturn.
      cbn [trace outcome fst snd] in Ho. subst r1.
      unfold bind. rewrite Hturn.
      specialize (IH (c + pauses t1)%nat w1).
      destruct (Https.createLoop owner pn E todos _ w1) as [[w2 t2] r2].
      cbn [trace outcome fst snd] in *. rewrite IH, pauses_app.
      f_equal. lia.
Qed.

(** How many requests a run can make.  The reader of the HTTPS script
    makes one listing, the reader of the Octokit script at most one
    more than the open records labelled todo fill pages of a hundred;
    the Octokit script asks for the project once and then makes at most
    two requests for each new annotation; the HTTPS script makes at
    most five for each annotation that is not a duplicate, four of them
    to attach the record, and pauses once for each annotation it counts
    as created. *)
Theorem request_budget :
  (forall w, requests (trace (Https.fetchExistingTodoIssues w)) = 1%nat)
  /\ (forall w,
        (100 * requests (trace (Octo.fetchExistingTodoIssues w))
         <= length (openTodoIssues w) + 100)%nat)
  /\ (forall w, requests (trace (Octo.resolveProject w)) = 1%nat)
  /\ (forall pn pid todos c w,
        (requests (trace (Octo.createLoop pn pid todos c w))
         <= 2 * length todos)%nat)
  /\ (forall owner nid pn w,
        (requests (trace (Https.addIssueToProject owner nid pn w)) <= 4)%nat)
  /\ (forall owner pn E allTodos c w,
        (requests (trace (Https.createLoop owner pn E allTodos c w))
         <= 5 * length (Https_newTodosOf E allTodos))%nat)
  /\ (forall owner pn E allTodos c w,
        outcome (Https.createLoop owner pn E allTodos c w)
        = Ret (c + pauses (trace (Https.createLoop owner pn E allTodos c w)))%nat).
Proof.
  repeat apply conj; [| | | | | |apply Https_createLoop_pauses].
  - intros w. unfold Https.fetchExistingTodoIssues, bind, console, emit.
    destruct (remoteList_cases 1 w) as [(w1 & e & -> & _)|(w1 & -> & _)];
      reflexivity.
  - intros w. unfold Octo.fetchExistingTodoIssues. rewrite trace_tryCatch.
    pose proof (Octo_pagesLoop_requests (S (length (issues w))) 1 ∅ w
                  ltac:(lia)) as H.
    change (1 - 1)%nat with 0%nat in H. rewrite Nat.mul_0_r, drop_0 in H.
    destruct (outcome _); try exact H.
    rewrite requests_app. unfold bind, console, emit, throw.
    cbn [trace fst snd app].
    change (requests [Console Err (T "Error fetching existing issues: " :: e)])
      with 0%nat.
    rewrite Nat.add_0_r. exact H.
  - intros w. unfold Octo.resolveProject, Octo.getProjectId, remoteProject,
      tryCatch, bind, console, emit, ret, throw.
    destruct (nextFault_run w) as (w1 & f & -> & _).
    destruct f; [reflexivity|]. destruct (viewerProject w1); reflexivity.
  - intros pn pid todos c w. apply within_Octo_createLoop.
  - intros owner nid pn w. apply within_Https_addIssueToProject.
  - intros owner pn E allTodos c w. apply within_Https_createLoop.
Qed.

(** * The walks do not depend on the remote state *)

Lemma steady_ret {A} (a : A) : steady (ret a).
Proof. exists [], (Ret a). reflexivity. Qed.

Lemma steady_throw {A} e : steady (@throw A e).
Proof. exists [], (Throw e). reflexivity. Qed.

Lemma steady_console l msg : steady (console l msg).
Proof. exists [Console l msg], (Ret tt). reflexivity. Qed.

Lemma steady_bind {A B} (m : M A) (f : A -> M B) :
  steady m -> (forall a, steady (f a)) -> steady (bind m f).
Proof.
  intros (t & r & Hm) Hf. destruct r as [a|e|c].
  - destruct (Hf a) as (t2 & r2 & Hfa). exists (t ++ t2), r2.
    intros w. unfold bind. rewrite Hm, Hfa. reflexivity.
  - exists t, (Throw e). intros w. unfold bind. rewrite Hm. reflexivity.
  - exists t, (Exit c). intros w. unfold bind. rewrite Hm. reflexivity.
Qed.

Lemma Octo_scanEntry_steady e : forall rel, steady (Octo.scanEntry rel e).
Proof.
  induction e as [n r|n b es IH|n] using entry_nested_ind;
    intros rel; simpl.
  - destruct r; simpl; [apply steady_ret|].
    apply steady_bind; [|intros; apply steady_ret].
    destruct (bool_decide _); [apply steady_ret|apply steady_console].
  - destruct (bool_decide _); [apply steady_ret|].
    destruct b.
    + induction IH as [|e es He _ IHes]; [apply steady_ret|].
      apply steady_bind; [apply He|intros a].
      apply steady_bind; [apply IHes|intros; apply steady_ret].
    + apply steady_bind; [apply steady_console|intros; apply steady_ret].
  - apply steady_ret.
Qed.

Lemma Octo_scanForTodos_steady es : steady (Octo.scanForTodos es).
Proof.
  induction es as [|e es IH]; simpl; [apply steady_ret|].
  apply steady_bind; [apply Octo_scanEntry_steady|intros a].
  apply steady_bind; [apply IH|intros; apply steady_ret].
Qed.

Lemma Https_scanEntry_steady e : forall rel, steady (Https.scanEntry rel e).
Proof.
  induction e as [n r|n b es IH|n] using entry_nested_ind;
    intros rel; simpl.
  - destruct r; simpl; [apply steady_ret|].
    apply steady_bind; [|intros; apply steady_ret].
    destruct (bool_decide _); [apply steady_ret|apply steady_console].
  - destruct (bool_decide _); [apply steady_ret|].
    destruct b; [|apply steady_throw].
    induction IH as [|e es He _ IHes]; [apply steady_ret|].
    apply steady_bind; [apply He|intros a].
    apply steady_bind; [apply IHes|intros; apply steady_ret].
  - apply steady_ret.
Qed.

Lemma Https_scanDirectory_steady es : steady (Https.scanDirectory es).
Proof.
  induction es as [|e es IH]; simpl; [apply steady_ret|].
  apply steady_bind; [apply Https_scanEntry_steady|intros a].
  apply steady_bind; [apply IH|intros; apply steady_ret].
Qed.

Lemma steady_outcome {A} (m : M A) w w' :
  steady m -> outcome (m w) = outcome (m w').
Proof. intros (t & r & H). rewrite !H. reflexivity. Qed.

Lemma steady_trace {A} (m : M A) w w' :
  steady m -> trace (m w) = trace (m w').
Proof. intros (t & r & H). rewrite !H. reflexivity. Qed.

Lemma steady_final {A} (m : M A) w : steady m -> final (m w) = w.
Proof. intros (t & r & H). rewrite H. reflexivity. Qed.

(** * A run and its own annotations *)

Lemma plain_trace tr :
  Forall (fun e => plainEvent e = true) tr ->
  Octo_failedItems tr = [] /\ Https_failedItems tr = [].
Proof.
  induction 1 as [|e tr He _ [IH1 IH2]]; [split; reflexivity|].
  change (e :: tr) with ([e] ++ tr).
  rewrite Octo_failedItems_app, Https_failedItems_app, IH1, IH2, !app_nil_r.
  unfold plainEvent in He.
  destruct (Octo_failedItems [e]); [|discriminate].
  destruct (Https_failedItems [e]); [|discriminate]. split; reflexivity.
Qed.

Lemma lists_plain tr :
  Forall (fun e => isList e = true) tr ->
  Forall (fun e => plainEvent e = true) tr
  /\ Forall (fun e => isCreate e = false) tr.
Proof.
  intros H. split; (eapply Forall_impl; [exact H|]);
    intros [] He; try discriminate; reflexivity.
Qed.

Lemma Octo_scanEntry_plain e : forall rel,
  emits (fun e => isConsole e && plainEvent e) (Octo.scanEntry rel e).
Proof.
  induction e as [n r|n b es IH|n] using entry_nested_ind;
    intros rel; simpl.
  - destruct r; simpl; [apply emits_ret|].
    apply emits_bind; [|intros; apply emits_ret].
    destruct (bool_decide _); [apply emits_ret|apply emits_console; reflexivity].
  - destruct (bool_decide _); [apply emits_ret|].
    destruct b.
    + induction IH as [|e es He _ IHes]; [apply emits_ret|].
      apply emits_bind; [apply He|intros a].
      apply emits_bind; [apply IHes|intros; apply emits_ret].
    + apply emits_bind; [apply emits_console; reflexivity|intros; apply emits_ret].
  - apply emits_ret.
Qed.

Lemma Octo_scanForTodos_plain es :
  emits (fun e => isConsole e && plainEvent e) (Octo.scanForTodos es).
Proof.
  induction es as [|e es IH]; simpl; [apply emits_ret|].
  apply emits_bind; [apply Octo_scanEntry_plain|intros a].
  apply emits_bind; [apply IH|intros; apply emits_ret].
Qed.

Lemma Https_scanEntry_plain e : forall rel,
  emits (fun e => isConsole e && plainEvent e) (Https.scanEntry rel e).
Proof.
  induction e as [n r|n b es IH|n] using entry_nested_ind;
    intros rel; simpl.
  - destruct r; simpl; [apply emits_ret|].
    apply emits_bind; [|intros; apply emits_ret].
    destruct (bool_decide _); [apply emits_ret|apply emits_console; reflexivity].
  - destruct (bool_decide _); [apply emits_ret|].
    destruct b; [|apply emits_throw].
    induction IH as [|e es He _ IHes]; [apply emits_ret|].
    apply emits_bind; [apply He|intros a].
    apply emits_bind; [apply IHes|intros; apply emits_ret].
  - apply emits_ret.
Qed.

Lemma Https_scanDirectory_plain es :
  emits (fun e => isConsole e && plainEvent e) (Https.scanDirectory es).
Proof.
  induction es as [|e es IH]; simpl; [apply emits_ret|].
  apply emits_bind; [apply Https_scanEntry_plain|intros a].
  apply emits_bind; [apply IH|intros; apply emits_ret].
Qed.

(** A trace of console lines none of which is a per-item error line
    holds no creation call and no failed item. *)
Lemma quiet_lines tr :
  Forall (fun e => isConsole e && plainEvent e = true) tr ->
  createCalls tr = [] /\ Octo_failedItems tr = [] /\ Https_failedItems tr = [].
Proof.
  intros H. split.
  - apply no_create_calls. eapply Forall_impl; [exact H|].
    intros [] He; try discriminate; reflexivity.
  - apply plain_trace. eapply Forall_impl; [exact H|].
    intros e He. apply andb_true_iff in He. apply He.
Qed.

Lemma Octo_opening_quiet tree w todos :
  createCalls (Octo_opening tree w todos) = []
  /\ Octo_failedItems (Octo_opening tree w todos) = [].
Proof.
  assert (H : Forall (fun e => isConsole e && plainEvent e = true)
                (Octo_opening tree w todos)).
  { unfold Octo_opening. repeat (apply Forall_app; split);
      try (repeat constructor). apply Octo_scanForTodos_plain. }
  apply quiet_lines in H. tauto.
Qed.

Lemma Octo_main_opening cfg tree w todos :
  unset (GITHUB_TOKEN cfg) = false -> unset (GITHUB_REPOSITORY cfg) = false ->
  outcome (Octo.scanForTodos tree w) = Ret todos ->
  Octo.main cfg tree w
  = (final (Octo_afterScan cfg todos w),
     Octo_opening tree w todos ++ trace (Octo_afterScan cfg todos w),
     outcome (Octo_afterScan cfg todos w)).
Proof.
  intros Ht Hr Hs.
  pose proof (steady_final _ w (Octo_scanForTodos_steady tree)) as F.
  unfold Octo.main, Octo_opening. rewrite Ht, Hr.
  rewrite !console_bind, !ret_bind, !console_bind.
  cbn [trace outcome final fst snd].
  rewrite (bind_run _ _ _ _ _ _ (run_equation _ _ _ Hs)), F.
  cbn [trace outcome final fst snd]. rewrite console_bind.
  cbn [trace outcome final fst snd].
  unfold Octo_afterScan, Octo_afterFetch. cbn [app].
  rewrite <- !app_assoc. reflexivity.
Qed.

Lemma Octo_fetch_lists w E :
  outcome (Octo.fetchExistingTodoIssues w) = Ret E ->
  Forall (fun e => isList e = true) (trace (Octo.fetchExistingTodoIssues w)).
Proof.
  unfold Octo.fetchExistingTodoIssues.
  rewrite outcome_tryCatch, trace_tryCatch.
  pose proof (Octo_pagesLoop_emits (S (length (issues w))) 1 ∅ w) as H.
  destruct (outcome (Octo.pagesLoop _ _ _ w)) as [a|e|k]; try exact (fun _ => H).
  unfold bind, console, emit, throw. cbn. discriminate.
Qed.

Lemma Octo_resolveProject_quiet w :
  createCalls (trace (Octo.resolveProject w)) = []
  /\ Octo_failedItems (trace (Octo.resolveProject w)) = [].
Proof.
  unfold Octo.resolveProject, Octo.getProjectId, remoteProject, tryCatch,
    bind, console, emit, ret, throw.
  destruct (nextFault_run w) as (w1 & f & -> & _).
  destruct f; simpl; [split; reflexivity|].
  destruct (viewerProject w1); simpl; split; reflexivity.
Qed.

Lemma createCalls_console l m tr :
  createCalls (Console l m :: tr) = createCalls tr.
Proof. reflexivity. Qed.

Lemma Octo_failedItems_log m tr :
  Octo_failedItems (Console Log m :: tr) = Octo_failedItems tr.
Proof. reflexivity. Qed.

Lemma Https_failedItems_log m tr :
  Https_failedItems (Console Log m :: tr) = Https_failedItems tr.
Proof. reflexivity. Qed.

(** Splits what a trace holds along its parts. *)
Ltac items :=
  repeat (progress (rewrite ?createCalls_app, ?Octo_failedItems_app,
                      ?Https_failedItems_app, ?createCalls_console,
                      ?Octo_failedItems_log, ?Https_failedItems_log)).

Lemma ends_with_app {A} (l1 l2 s : list A) :
  (exists pre, l2 = pre ++ s) -> exists pre, l1 ++ l2 = pre ++ s.
Proof. intros [pre ->]. exists (l1 ++ pre). apply app_assoc. Qed.

Lemma ends_with_cons {A} (a : A) (l2 s : list A) :
  (exists pre, l2 = pre ++ s) -> exists pre, a :: l2 = pre ++ s.
Proof. intros [pre ->]. exists (a :: pre). reflexivity. Qed.

Lemma ends_with_self {A} (s : list A) : exists pre, s = pre ++ s.
Proof. exists []. reflexivity. Qed.

Ltac ends :=
  first [ apply ends_with_self
        | apply ends_with_app; ends
        | apply ends_with_cons; ends ].

(** The run of the Octokit script on its own annotations: what the
    loop does shows in the run as it is. *)
Lemma Octo_run_items cfg tree w todos E :
  unset (GITHUB_TOKEN cfg) = false -> unset (GITHUB_REPOSITORY cfg) = false ->
  outcome (Octo.scanForTodos tree w) = Ret todos ->
  outcome (Octo.fetchExistingTodoIssues w) = Ret E ->
  exists oks : list bool,
    length oks = length (Octo.newTodosOf E todos)
    /\ createCalls (trace (Octo.run cfg tree w))
       = zip (map Octo_call (Octo.newTodosOf E todos)) oks
    /\ Octo_failedItems (trace (Octo.run cfg tree w))
       = map Octo.text (failedOf (Octo.newTodosOf E todos) oks)
    /\ outcome (Octo.run cfg tree w) = 0%Z
    /\ (Octo.newTodosOf E todos <> [] ->
        exists pre, trace (Octo.run cfg tree w)
                    = pre ++ Octo_summary (countTrue oks)).
Proof.
  intros Ht Hr Hs He.
  unfold Octo.run. rewrite (Octo_main_opening cfg tree w todos Ht Hr Hs).
  destruct (Octo_opening_quiet tree w todos) as (Hc0 & Hf0).
  destruct todos as [|t0 todos'] eqn:Htodos.
  { exists []. unfold Octo_afterScan, console, emit.
    cbn [length Nat.eqb trace outcome final fst snd catchFatal].
    items. rewrite Hc0, Hf0.
    repeat split. intros H. contradiction. }
  rewrite <- Htodos in *.
  assert (Hne : todos <> []) by (rewrite Htodos; discriminate).
  rewrite (Octo_afterScan_fetched cfg todos w E Hne He).
  cbn [trace outcome final fst snd].
  destruct (lists_plain _ (Octo_fetch_lists w E He)) as (Hp1 & Hc1).
  apply plain_trace in Hp1 as (Hf1 & _). apply no_create_calls in Hc1.
  set (w1 := final (Octo.fetchExistingTodoIssues w)). clearbody w1.
  unfold Octo_afterFetch. rewrite !console_bind.
  cbn [trace outcome final fst snd].
  destruct (Octo.newTodosOf E todos) as [|n0 news'] eqn:Hnews.
  { exists []. unfold console, emit.
    cbn [length Nat.eqb trace outcome final fst snd catchFatal].
    items. rewrite Hc0, Hf0, Hc1, Hf1.
    repeat split. intros H. contradiction. }
  rewrite <- Hnews in *.
  assert (Hlen : Nat.eqb (length (Octo.newTodosOf E todos)) 0 = false)
    by (rewrite Hnews; reflexivity).
  rewrite Hlen, console_bind. cbn [trace outcome final fst snd].
  destruct (Octo_projectId_spec w1) as ((pid & Hp) & _).
  destruct (Octo_resolveProject_quiet w1) as (Hc2 & Hf2).
  rewrite (bind_run _ _ _ _ _ _ (run_equation _ _ _ Hp)).
  rewrite console_bind. cbn [trace outcome final fst snd].
  set (w2 := final (Octo.resolveProject w1)). clearbody w2.
  destruct (Octo_createLoop_spec (PROJECT_NUMBER cfg) pid
              (Octo.newTodosOf E todos) 0 w2) as (oks & Hl & Ho & Hc & Hf & _).
  rewrite (bind_run _ _ _ _ _ _ (run_equation _ _ _ Ho)).
  unfold console, emit. cbn [trace outcome final fst snd catchFatal].
  exists oks. split; [exact Hl|].
  items. rewrite Hc0, Hf0, Hc1, Hf1, Hc2, Hf2, Hc, Hf.
  cbn [createCalls Octo_failedItems omap list_omap app]. rewrite !app_nil_r.
  repeat split.
  intros _.
  ends.
Qed.

Lemma Https_fetch_quiet w :
  createCalls (trace (Https.fetchExistingTodoIssues w)) = []
  /\ Https_failedItems (trace (Https.fetchExistingTodoIssues w)) = [].
Proof.
  unfold Https.fetchExistingTodoIssues, bind, console, emit.
  destruct (remoteList_cases 1 w) as [(w1 & e & -> & _)|(w1 & -> & _)];
    simpl; split; reflexivity.
Qed.

Lemma Https_opening_quiet cfg w :
  createCalls (Https_opening cfg w) = []
  /\ Https_failedItems (Https_opening cfg w) = [].
Proof.
  destruct (Https_fetch_quiet w) as (Hc & Hf).
  unfold Https_opening. items. rewrite Hc, Hf. split; reflexivity.
Qed.

Lemma Https_main_opening cfg tree w E :
  unset (GITHUB_TOKEN cfg) || unset (GITHUB_REPOSITORY cfg) = false ->
  outcome (Https.fetchExistingTodoIssues w) = Ret E ->
  Https.main cfg tree w
  = (final (Https_afterFetch cfg tree E (final (Https.fetchExistingTodoIssues w))),
     Https_opening cfg w
       ++ trace (Https_afterFetch cfg tree E
                   (final (Https.fetchExistingTodoIssues w))),
     outcome (Https_afterFetch cfg tree E
                (final (Https.fetchExistingTodoIssues w)))).
Proof.
  intros Hc He. unfold Https.main, Https_opening. rewrite Hc.
  rewrite console_bind, ret_bind, !console_bind.
  cbn [trace outcome final fst snd].
  rewrite (bind_run _ _ _ _ _ _ (run_equation _ _ _ He)).
  cbn [trace outcome final fst snd]. reflexivity.
Qed.

(** The run of the HTTPS script on its own annotations. *)
Lemma Https_run_items cfg tree w allTodos E :
  unset (GITHUB_TOKEN cfg) || unset (GITHUB_REPOSITORY cfg) = false ->
  outcome (Https.fetchExistingTodoIssues w) = Ret E ->
  outcome (Https.scanDirectory tree w) = Ret allTodos ->
  exists oks dones : list bool,
    length oks = length (Https_newTodosOf E allTodos)
    /\ length dones = length (Https_newTodosOf E allTodos)
    /\ createCalls (trace (Https.run cfg tree w))
       = zip (map Https_call (Https_newTodosOf E allTodos)) oks
    /\ Https_failedItems (trace (Https.run cfg tree w))
       = map Https.text (failedOf (Https_newTodosOf E allTodos) dones)
    /\ (forall k, dones !! k = Some true -> oks !! k = Some true)
    /\ outcome (Https.run cfg tree w) = 0%Z
    /\ exists pre, trace (Https.run cfg tree w)
                   = pre ++ Https_summary (length allTodos, countTrue dones).
Proof.
  intros Hcfg He Hs.
  unfold Https.run. rewrite (Https_main_opening cfg tree w E Hcfg He).
  destruct (Https_opening_quiet cfg w) as (Hc0 & Hf0).
  set (w1 := final (Https.fetchExistingTodoIssues w)). clearbody w1.
  pose proof (Https_scanDirectory_steady tree) as St.
  rewrite (steady_outcome _ w w1 St) in Hs.
  pose proof (steady_final _ w1 St) as Fs.
  destruct (quiet_lines _ (Https_scanDirectory_plain tree w1)) as (Hc1 & _ & Hf1).
  unfold Https_afterFetch. rewrite console_bind.
  cbn [trace outcome final fst snd].
  rewrite (bind_run _ _ _ _ _ _ (run_equation _ _ _ Hs)), Fs.
  rewrite console_bind. cbn [trace outcome final fst snd].
  destruct (Https_createLoop_spec (ownerOf (default [] (GITHUB_REPOSITORY cfg)))
              (PROJECT_NUMBER cfg) E allTodos 0 w1)
    as (oks & dones & Hl & Hl' & Ho & Hc & Hf & Hd & _).
  rewrite (bind_run _ _ _ _ _ _ (run_equation _ _ _ Ho)).
  unfold bind, console, emit. cbn [trace outcome final fst snd catchFatal app].
  exists oks, dones. split; [exact Hl|]. split; [exact Hl'|].
  items. rewrite Hc0, Hf0, Hc1, Hf1, Hc, Hf.
  cbn [createCalls Https_failedItems omap list_omap app]. rewrite !app_nil_r.
  repeat split; try exact Hd.
  ends.
Qed.

(** C7: a failed creation does not stop the loop.  In both scripts the
    loop returns normally after one creation call per selected
    annotation, in order, whatever the outcome of each call; every
    annotation is tallied as created or as failed, a failed one with an
    error line that carries its text.  A configured run whose scan
    gives [todos] and whose read of the tracker gives [E] makes exactly
    the creation calls of the annotations the reconciliation selects
    from them, one each and in order, logs exactly the failed ones with
    their text, ends with exit code 0 and prints the summary with the
    count of the created ones last. *)
Theorem C7_failure_isolation :
  (forall pn pid todos c w,
     exists oks : list bool,
       length oks = length todos
       /\ outcome (Octo.createLoop pn pid todos c w) = Ret (c + countTrue oks)%nat
       /\ createCalls (trace (Octo.createLoop pn pid todos c w))
          = zip (map Octo_call todos) oks
       /\ Octo_failedItems (trace (Octo.createLoop pn pid todos c w))
          = map Octo.text (failedOf todos oks))
  /\ (forall owner pn E allTodos c w,
     exists oks dones : list bool,
       length oks = length (Https_newTodosOf E allTodos)
       /\ length dones = length (Https_newTodosOf E allTodos)
       /\ outcome (Https.createLoop owner pn E allTodos c w)
          = Ret (c + countTrue dones)%nat
       /\ createCalls (trace (Https.createLoop owner pn E allTodos c w))
          = zip (map Https_call (Https_newTodosOf E allTodos)) oks
       /\ Https_failedItems (trace (Https.createLoop owner pn E allTodos c w))
          = map Https.text (failedOf (Https_newTodosOf E allTodos) dones)
       /\ (forall k, dones !! k = Some true -> oks !! k = Some true))
  /\ (forall cfg tree w todos E,
        unset (GITHUB_TOKEN cfg) = false ->
        unset (GITHUB_REPOSITORY cfg) = false ->
        outcome (Octo.scanForTodos tree w) = Ret todos ->
        outcome (Octo.fetchExistingTodoIssues w) = Ret E ->
        exists oks : list bool,
          length oks = length (Octo.newTodosOf E todos)
          /\ createCalls (trace (Octo.run cfg tree w))
             = zip (map Octo_call (Octo.newTodosOf E todos)) oks
          /\ Octo_failedItems (trace (Octo.run cfg tree w))
             = map Octo.text (failedOf (Octo.newTodosOf E todos) oks)
          /\ outcome (Octo.run cfg tree w) = 0%Z
          /\ (Octo.newTodosOf E todos <> [] ->
              exists pre, trace (Octo.run cfg tree w)
                          = pre ++ Octo_summary (countTrue oks)))
  /\ (forall cfg tree w allTodos E,
        unset (GITHUB_TOKEN cfg) || unset (GITHUB_REPOSITORY cfg) = false ->
        outcome (Https.fetchExistingTodoIssues w) = Ret E ->
        outcome (Https.scanDirectory tree w) = Ret allTodos ->
        exists oks dones : list bool,
          length oks = length (Https_newTodosOf E allTodos)
          /\ length dones = length (Https_newTodosOf E allTodos)
          /\ createCalls (trace (Https.run cfg tree w))
             = zip (map Https_call (Https_newTodosOf E allTodos)) oks
          /\ Https_failedItems (trace (Https.run cfg tree w))
             = map Https.text (failedOf (Https_newTodosOf E allTodos) dones)
          /\ (forall k, dones !! k = Some true -> oks !! k = Some true)
          /\ outcome (Https.run cfg tree w) = 0%Z
          /\ exists pre, trace (Https.run cfg tree w)
                         = pre ++ Https_summary (length allTodos, countTrue dones)).
Proof.
  split; [|split; [|split]].
  - intros pn pid todos c w.
    destruct (Octo_createLoop_spec pn pid todos c w)
      as (oks & H1 & H2 & H3 & H4 & _). eauto.
  - intros owner pn E allTodos c w.
    destruct (Https_createLoop_spec owner pn E allTodos c w)
      as (oks & dones & H1 & H2 & H3 & H4 & H5 & H6 & _). eauto 10.
  - apply Octo_run_items.
  - apply Https_run_items.
Qed.

Lemma C7_failure_isolation_witness :
  (exists oks : list bool,
     length oks = 2%nat
     /\ map snd (createCalls (trace (Octo.run sampleConfig twoFiles thirdCallFails)))
        = oks
     /\ outcome (Octo.run sampleConfig twoFiles thirdCallFails) = 0%Z)
  /\ map snd (createCalls (trace (Octo.run sampleConfig twoFiles thirdCallFails)))
     = [false; true].
Proof.
  split; [|vm_compute; reflexivity].
  destruct C7_failure_isolation as (_ & _ & H & _).
  edestruct (H sampleConfig twoFiles thirdCallFails) as (oks & Hl & Hc & _ & Ho & _);
    [reflexivity|reflexivity|vm_compute; reflexivity|vm_compute; reflexivity|].
  exists oks. split; [exact Hl|]. split; [|exact Ho].
  rewrite Hc, snd_zip; [reflexivity|]. rewrite length_map, Hl. reflexivity.
Defined.

(** * Linking in the loop of the HTTPS script *)

(** One turn of the loop of the HTTPS script on an annotation whose
    record was created: what [addIssueToProject] does decides the turn.
    When it returns, the turn pauses and the annotation is counted;
    when it throws, the handler of the loop logs the error with the
    text of the annotation, the count stays, and the loop goes on. *)
Lemma Https_createLoop_linking owner pn E t rest c w i :
  Https.fingerprint t ∉ E ->
  outcome (Https.createIssue (Https.text t) (Https.filePath t)
             (Https.fingerprint t) w) = Ret i ->
  truthy (node_id i) = true ->
  let made := Https.createIssue (Https.text t) (Https.filePath t)
                (Https.fingerprint t) w in
  let link := Https.addIssueToProject owner (node_id i) pn (final made) in
  (outcome link = Ret tt
   /\ Https.createLoop owner pn E (t :: rest) c w
      = (final (Https.createLoop owner pn E rest (S c) (final link)),
         trace made ++ trace link
           ++ Sleep 1000
           :: trace (Https.createLoop owner pn E rest (S c) (final link)),
         outcome (Https.createLoop owner pn E rest (S c) (final link))))
  \/ (outcome link = Throw (couldNotFind pn owner)
      /\ Https.createLoop owner pn E (t :: rest) c w
         = (final (Https.createLoop owner pn E rest c (final link)),
            trace made ++ trace link
              ++ Console Err ([T "Error creating issue for "; quote;
                               V (Https.text t); quote; T ": "]
                              ++ couldNotFind pn owner)
              :: trace (Https.createLoop owner pn E rest c (final link)),
            outcome (Https.createLoop owner pn E rest c (final link)))).
Proof.
  intros Hin Hm Ht made link. subst made link.
  cbn [Https.createLoop]. rewrite bool_decide_eq_false_2 by exact Hin.
  destruct (Https.createIssue (Https.text t) (Https.filePath t)
              (Https.fingerprint t) w) as [[w1 t1] r1] eqn:Hc.
  cbn [trace outcome final fst snd] in *. subst r1.
  destruct (Https_addIssueToProject_spec owner (node_id i) pn w1)
    as (_ & _ & _ & Ho & _).
  destruct (Https.addIssueToProject owner (node_id i) pn w1)
    as [[w2 t2] r2] eqn:Hl.
  cbn [trace outcome final fst snd] in *.
  unfold tryCatch, bind. rewrite Hc. cbv beta iota. rewrite Ht, Hl.
  cbv beta iota.
  destruct Ho as [->| ->]; [left|right]; (split; [reflexivity|]);
    unfold console, emit, ret; cbv beta iota;
    match goal with |- context [Https.createLoop owner pn E rest ?n ?w'] =>
      destruct (Https.createLoop owner pn E rest n w') as [[w3 t3] r3] end;
    cbn [trace outcome final fst snd app]; rewrite <- ?app_assoc;
    reflexivity.
Qed.

Lemma Octo_resolveProject_reports w :
  (exists id, outcome (Octo.resolveProject w) = Ret (Some id))
  \/ (outcome (Octo.resolveProject w) = Ret None
      /\ last (trace (Octo.resolveProject w))
         = Some (Console Warn [T "Warning: Could not fetch project ID. Issues will be created but not added to project."; nl])).
Proof.
  unfold Octo.resolveProject, Octo.getProjectId, remoteProject, tryCatch,
    bind, console, emit, ret, throw.
  destruct (nextFault_run w) as (w1 & f & -> & _).
  destruct f; simpl; [right; split; reflexivity|].
  destruct (viewerProject w1); simpl; [left; eauto|right; split; reflexivity].
Qed.

Lemma Octo_addIssueToProject_reports pn id nid w :
  outcome (Octo.addIssueToProject pn id nid w) = Ret tt
  /\ issues (final (Octo.addIssueToProject pn id nid w)) = issues w
  /\ (attached (trace (Octo.addIssueToProject pn id nid w)) = [(id, nid)]
      \/ exists e,
           last (trace (Octo.addIssueToProject pn id nid w))
           = Some (Console Err (T "Error adding issue to project: " :: e))).
Proof.
  unfold Octo.addIssueToProject, remoteAddItem, tryCatch, bind, console, emit.
  destruct (nextFault_run w) as (w1 & f & -> & Hi & _).
  destruct f; simpl; rewrite ?Hi; repeat split; eauto.
Qed.

(** C8, amended.  In the Octokit script linking is best effort: the
    resolution of the project returns, with a project or with a warning
    as its last line; the attachment returns whatever its outcome,
    leaves the records as they are and logs its failure; and the loop
    counts every annotation whose record was created.  In the HTTPS
    script [addIssueToProject] leaves the records as they are and either
    returns or throws "Could not find project": it throws whenever
    neither owner kind has a project, and returns whenever the record
    was attached, and also when the attachment request is answered
    without an item.  A turn of the loop on an annotation whose record
    was created runs [addIssueToProject] on that record: when it
    returns the annotation is counted, and when it throws the handler of
    the loop logs the error with the text of the annotation and the
    loop goes on with the remaining annotations.  In both scripts the
    tracker keeps every record a successful creation call made. *)
Theorem C8_linking :
  (forall w,
     (exists id, outcome (Octo.resolveProject w) = Ret (Some id))
     \/ (outcome (Octo.resolveProject w) = Ret None
         /\ last (trace (Octo.resolveProject w))
            = Some (Console Warn [T "Warning: Could not fetch project ID. Issues will be created but not added to project."; nl])))
  /\ (forall pn id nid w,
        outcome (Octo.addIssueToProject pn id nid w) = Ret tt
        /\ issues (final (Octo.addIssueToProject pn id nid w)) = issues w
        /\ (attached (trace (Octo.addIssueToProject pn id nid w)) = [(id, nid)]
            \/ exists e,
                 last (trace (Octo.addIssueToProject pn id nid w))
                 = Some (Console Err (T "Error adding issue to project: " :: e))))
  /\ (forall pn pid todos c w,
        exists oks : list bool,
          createCalls (trace (Octo.createLoop pn pid todos c w))
          = zip (map Octo_call todos) oks
          /\ length oks = length todos
          /\ outcome (Octo.createLoop pn pid todos c w)
             = Ret (c + countTrue oks)%nat
          /\ records (final (Octo.createLoop pn pid todos c w))
             = rev (created (trace (Octo.createLoop pn pid todos c w)))
               ++ records w)
  /\ (forall owner nid pn w,
        issues (final (Https.addIssueToProject owner nid pn w)) = issues w
        /\ (outcome (Https.addIssueToProject owner nid pn w) = Ret tt
            \/ outcome (Https.addIssueToProject owner nid pn w)
               = Throw (couldNotFind pn owner))
        /\ (usable (userProject w) = None -> usable (orgProject w) = None ->
            outcome (Https.addIssueToProject owner nid pn w)
            = Throw (couldNotFind pn owner))
        /\ (attached (trace (Https.addIssueToProject owner nid pn w)) <> [] ->
            outcome (Https.addIssueToProject owner nid pn w) = Ret tt))
  /\ (forall owner nid pn,
        outcome (Https.addIssueToProject owner nid pn attachRefused) = Ret tt
        /\ attached (trace (Https.addIssueToProject owner nid pn attachRefused))
           = [])
  /\ (forall owner pn E t rest c w i,
        Https.fingerprint t ∉ E ->
        outcome (Https.createIssue (Https.text t) (Https.filePath t)
                   (Https.fingerprint t) w) = Ret i ->
        truthy (node_id i) = true ->
        let made := Https.createIssue (Https.text t) (Https.filePath t)
                      (Https.fingerprint t) w in
        let link := Https.addIssueToProject owner (node_id i) pn (final made) in
        (outcome link = Ret tt
         /\ Https.createLoop owner pn E (t :: rest) c w
            = (final (Https.createLoop owner pn E rest (S c) (final link)),
               trace made ++ trace link
                 ++ Sleep 1000
                 :: trace (Https.createLoop owner pn E rest (S c) (final link)),
               outcome (Https.createLoop owner pn E rest (S c) (final link))))
        \/ (outcome link = Throw (couldNotFind pn owner)
            /\ exists c',
                 Https.createLoop owner pn E (t :: rest) c w
                 = (final (Https.createLoop owner pn E rest c' (final link)),
                    trace made ++ trace link
                      ++ Console Err ([T "Error creating issue for "; quote;
                                       V (Https.text t); quote; T ": "]
                                      ++ couldNotFind pn owner)
                      :: trace (Https.createLoop owner pn E rest c' (final link)),
                    outcome (Https.createLoop owner pn E rest c' (final link)))))
  /\ (forall owner pn E allTodos c w,
        exists oks : list bool,
          createCalls (trace (Https.createLoop owner pn E allTodos c w))
          = zip (map Https_call (Https_newTodosOf E allTodos)) oks
          /\ length oks = length (Https_newTodosOf E allTodos)
          /\ (exists n, outcome (Https.createLoop owner pn E allTodos c w) = Ret n)
          /\ records (final (Https.createLoop owner pn E allTodos c w))
             = rev (created (trace (Https.createLoop owner pn E allTodos c w)))
               ++ records w).
Proof.
  split; [|split; [|split; [|split; [|split; [|split]]]]].
  - apply Octo_resolveProject_reports.
  - apply Octo_addIssueToProject_reports.
  - intros pn pid todos c w.
    destruct (Octo_createLoop_spec pn pid todos c w)
      as (oks & H1 & H2 & H3 & _).
    exists oks. repeat split; auto. apply Octo_createLoop_tracks.
  - intros owner nid pn w.
    destruct (Https_addIssueToProject_spec owner nid pn w)
      as (H1 & _ & _ & H4 & H5 & H6 & _).
    repeat split; auto.
  - intros owner nid pn. split; reflexivity.
  - intros owner pn E t rest c w i Hin Hm Ht.
    destruct (Https_createLoop_linking owner pn E t rest c w i Hin Hm Ht)
      as [H|(H1 & H2)]; [left; exact H|right].
    split; [exact H1|]. exists c. exact H2.
  - intros owner pn E allTodos c w.
    destruct (Https_createLoop_spec owner pn E allTodos c w)
      as (oks & dones & H1 & H2 & H3 & H4 & H5 & _).
    exists oks. repeat split; eauto. apply Https_createLoop_tracks.
Qed.

Lemma C8_linking_witness :
  exists c' pre,
    Https.createLoop (lit "octocat") 15 ∅
      [Https.Todo (lit "fix") (lit "a.js") (lit "a.js|fix")] 0%nat emptyWorld
    = (final (Https.createLoop (lit "octocat") 15 ∅
                [Https.Todo (lit "fix") (lit "a.js") (lit "a.js|fix")] 0%nat
                emptyWorld),
       pre ++ [Console Err ([T "Error creating issue for "; quote;
                             V (lit "fix"); quote; T ": "]
                            ++ couldNotFind 15 (lit "octocat"))],
       Ret c').
Proof.
  destruct C8_linking as (_ & _ & _ & _ & _ & H & _).
  edestruct (H (lit "octocat") 15%Z (∅ : gset jsstr)
               (Https.Todo (lit "fix") (lit "a.js") (lit "a.js|fix")) []
               0%nat emptyWorld)
    as [(Hr & _)|(_ & c' & Hl)];
    [intros Hin; apply elem_of_empty in Hin; exact Hin
    |vm_compute; reflexivity|reflexivity| |].
  - vm_compute in Hr. discriminate Hr.
  - exists c'. eexists. rewrite Hl. cbn [Https.createLoop ret trace outcome final fst snd].
    rewrite app_assoc. reflexivity.
Defined.

(** * The leftmost match *)

(** [exec] returns the match at the leftmost position that has one. *)
Lemma exec_leftmost ic r line y :
  exec ic r line = Some y <->
  exists pre z,
    line = pre ++ z
    /\ compile ic r (MState z ∅) Some = Some y
    /\ forall p1 p2, pre = p1 ++ p2 -> p2 <> [] ->
         compile ic r (MState (p2 ++ z) ∅) Some = None.
Proof.
  split.
  - revert y. induction line as [|a line IH]; intros y; cbn [exec].
    + destruct (compile ic r (MState [] ∅) Some) as [z|] eqn:Hz; [|discriminate].
      intros [= ->]. exists [], []. repeat split; auto.
      intros p1 p2 Hp Hp2. destruct p1, p2; try discriminate. contradiction.
    + destruct (compile ic r (MState (a :: line) ∅) Some) as [z|] eqn:Hz.
      * intros [= ->]. exists [], (a :: line). repeat split; auto.
        intros p1 p2 Hp Hp2. destruct p1, p2; try discriminate. contradiction.
      * intros (pre & z & -> & Hc & Hn)%IH. exists (a :: pre), z.
        repeat split; auto.
        intros p1 p2 Hp Hp2. destruct p1 as [|b p1].
        -- simpl in Hp. subst p2. exact Hz.
        -- injection Hp as <- Hp. eapply Hn; eauto.
  - intros (pre & z & -> & Hc & Hn).
    rewrite (exec_skip ic r pre z Hn). apply exec_here, Hc.
Qed.

(** The same through a property [P] that the pattern matches exactly
    at the positions of the line. *)
Lemma exec_at ic r (P : jsstr -> Prop) line y :
  (forall p z, line = p ++ z ->
     (is_Some (compile ic r (MState z ∅) Some) <-> P z)) ->
  exec ic r line = Some y <->
  exists pre z,
    line = pre ++ z /\ P z /\ leftmost P pre z
    /\ compile ic r (MState z ∅) Some = Some y.
Proof.
  intros HP. rewrite exec_leftmost. split.
  - intros (pre & z & Hline & Hc & Hn). exists pre, z.
    repeat split; auto.
    + apply (HP pre z Hline). eauto.
    + intros p1 p2 Hp Hp2 HPz.
      apply (HP p1 (p2 ++ z)) in HPz as [y' Hy'];
        [|rewrite Hline, Hp, <- app_assoc; reflexivity].
      rewrite (Hn p1 p2 Hp Hp2) in Hy'. discriminate.
  - intros (pre & z & Hline & _ & Hl & Hc). exists pre, z.
    repeat split; auto.
    intros p1 p2 Hp Hp2.
    destruct (compile ic r (MState (p2 ++ z) ∅) Some) as [y'|] eqn:Hy';
      [|reflexivity].
    exfalso. apply (Hl p1 p2 Hp Hp2).
    apply (HP p1 (p2 ++ z)); [rewrite Hline, Hp, <- app_assoc; reflexivity|eauto].
Qed.

(** * Up to the end of the line *)

Lemma upToLineEnd_split s :
  exists post, s = upToLineEnd s ++ post
               /\ Forall (fun c => isLineTerminator c = false) (upToLineEnd s)
               /\ lineEnds post.
Proof.
  induction s as [|c s (post & Hs & Hf & Hp)]; simpl.
  - exists []. repeat split. constructor.
  - destruct (isLineTerminator c) eqn:Hc.
    + exists (c :: s). repeat split; [constructor|exact Hc].
    + exists post. simpl. repeat split; [f_equal; exact Hs| |exact Hp].
      constructor; assumption.
Qed.

Lemma upToLineEnd_all cap post :
  Forall (fun c => isLineTerminator c = false) cap -> lineEnds post ->
  upToLineEnd (cap ++ post) = cap.
Proof.
  intros Hcap Hpost. induction Hcap as [|c cap Hc _ IH]; simpl.
  - destruct post as [|b post]; [reflexivity|]. simpl in *. rewrite Hpost.
    reflexivity.
  - rewrite Hc, IH. reflexivity.
Qed.

(** * The marker of a record, exactly *)

Lemma fingerprintRe_at z :
  is_Some (compile false fingerprintRe (MState z ∅) Some) <-> keyedAt z.
Proof.
  split.
  - intros [y Hy]. apply compile_sound in Hy as (y' & Hs & _).
    apply fingerprintRe_sem in Hs as (cap & Hx & [Hne Hcap] & _).
    cbn [rest] in Hx. destruct cap as [|c cap]; [contradiction|].
    apply Forall_cons in Hcap as [Hc _]. exists c, (cap ++ rest y').
    split; [exact Hx|exact Hc].
  - intros (c & r & -> & Hc).
    destruct (upToLineEnd_split (c :: r)) as (post & Hs & Hf & Hp).
    rewrite Hs, fingerprintRe_here; eauto.
    split; [|exact Hf]. simpl. rewrite Hc. discriminate.
Qed.

Lemma fingerprintRe_value c r :
  isLineTerminator c = false ->
  exists post,
    compile false fingerprintRe (MState (lit "fingerprint=" ++ c :: r) ∅) Some
    = Some (MState post (<[1%nat := upToLineEnd (c :: r)]> ∅)).
Proof.
  intros Hc.
  destruct (upToLineEnd_split (c :: r)) as (post & Hs & Hf & Hp).
  exists post. set (cap := upToLineEnd (c :: r)) in *. rewrite Hs.
  apply fingerprintRe_here; [|exact Hp].
  split; [|exact Hf]. subst cap. simpl. rewrite Hc. discriminate.
Qed.

Lemma extractFingerprint_exact s i :
  extractFingerprint (Some s) = Some i <->
  exists pre c r,
    s = pre ++ lit "fingerprint=" ++ c :: r
    /\ isLineTerminator c = false
    /\ leftmost keyedAt pre (lit "fingerprint=" ++ c :: r)
    /\ i = trim (upToLineEnd (c :: r)).
Proof.
  unfold extractFingerprint. cbn [mbind option_bind]. split.
  - destruct (exec false fingerprintRe s) as [y|] eqn:He; [|discriminate].
    apply (exec_at false fingerprintRe keyedAt s y (fun _ z _ => fingerprintRe_at z)) in He
      as (pre & z & -> & (c & r & -> & Hc) & Hl & Hy).
    destruct (fingerprintRe_value c r Hc) as (post & Hv).
    rewrite Hv in Hy. injection Hy as <-.
    cbn [mbind option_bind]. unfold capture. cbn [caps].
    rewrite lookup_insert_eq. cbn [mbind option_bind]. intros [= <-].
    exists pre, c, r. auto.
  - intros (pre & c & r & -> & Hc & Hl & ->).
    destruct (fingerprintRe_value c r Hc) as (post & Hv).
    assert (He : exec false fingerprintRe (pre ++ lit "fingerprint=" ++ c :: r)
                 = Some (MState post (<[1%nat := upToLineEnd (c :: r)]> ∅))).
    { apply (exec_at false fingerprintRe keyedAt _ _ (fun _ z _ => fingerprintRe_at z)).
      exists pre, (lit "fingerprint=" ++ c :: r).
      repeat split; auto. exists c, r; auto. }
    rewrite He. cbn [mbind option_bind]. unfold capture. cbn [caps].
    rewrite lookup_insert_eq. reflexivity.
Qed.

(** A position is the leftmost with [P] when no character before it
    can start a place with [P]. *)
Lemma leftmost_heads (P : jsstr -> Prop) (f : char -> bool) pre z :
  (forall u, P u -> exists a, head u = Some a /\ f a = true) ->
  forallb (fun c => negb (f c)) pre = true ->
  leftmost P pre z.
Proof.
  intros HP Hall p1 p2 -> Hp2 Hu.
  rewrite forallb_app in Hall. apply andb_true_iff in Hall as [_ Hall].
  destruct p2 as [|c p2]; [contradiction|].
  apply HP in Hu as (a & [= <-] & Ha). simpl in Hall. rewrite Ha in Hall.
  discriminate.
Qed.

Lemma keyedAt_head u :
  keyedAt u -> exists a, head u = Some a /\ (a =? 102) = true.
Proof. intros (c & r & -> & _). exists 102. split; reflexivity. Qed.

(** What the reader takes from a record.  It takes nothing from a
    record without body, and nothing from a body exactly when no
    occurrence of the key is followed by a character on the same line.
    Otherwise it takes the text that follows the leftmost such
    occurrence of the key, up to the end of that line, trimmed; so an
    identity read back never holds a line terminator nor starts or
    ends with white space. *)
Theorem marker_extraction :
  extractFingerprint None = None
  /\ (forall s, extractFingerprint (Some s) = None <-> ~ exists cap, marked s cap)
  /\ (forall s i,
        extractFingerprint (Some s) = Some i <->
        exists pre c r,
          s = pre ++ lit "fingerprint=" ++ c :: r
          /\ isLineTerminator c = false
          /\ leftmost keyedAt pre (lit "fingerprint=" ++ c :: r)
          /\ i = trim (upToLineEnd (c :: r)))
  /\ (forall b i,
        extractFingerprint b = Some i ->
        trimmed i /\ Forall (fun c => isLineTerminator c = false) i).
Proof.
  split; [reflexivity|]. split; [|split].
  - intros s. split.
    + intros Hn [cap Hm]. apply extractFingerprint_complete in Hm as [i Hi].
      congruence.
    + intros Hn. destruct (extractFingerprint (Some s)) as [i|] eqn:Hi; [|reflexivity].
      exfalso. apply Hn.
      apply extractFingerprint_sound in Hi as (s' & cap & [= <-] & Hm & _). eauto.
  - apply extractFingerprint_exact.
  - intros b i Hi.
    pose proof (extractFingerprint_sound b i Hi) as (s & cap & -> & Hm & ->).
    split; [apply trim_trimmed|].
    apply Forall_trim. destruct Hm as (_ & _ & _ & _ & Hcap). exact Hcap.
Qed.

Lemma marker_extraction_witness :
  extractFingerprint
    (Some (lit "x fingerprint=a.js|fix  " ++ [10] ++ lit "fingerprint=b"))
  = Some (lit "a.js|fix").
Proof.
  destruct marker_extraction as (_ & _ & H & _). apply H.
  exists (lit "x "), 97, (lit ".js|fix  " ++ [10] ++ lit "fingerprint=b").
  split; [reflexivity|]. split; [reflexivity|]. split; [|reflexivity].
  apply (leftmost_heads keyedAt (fun a => a =? 102)); [apply keyedAt_head|].
  reflexivity.
Defined.

(** * The pattern of the Octokit script, exactly *)

Lemma trimStart_split s :
  exists ws, s = ws ++ trimStart s /\ blank ws.
Proof.
  induction s as [|a s (ws & Hs & Hws)]; simpl.
  - exists []. split; [reflexivity|constructor].
  - destruct (isWhiteSpace a) eqn:Ha.
    + exists (a :: ws). split; [simpl; f_equal; exact Hs|].
      constructor; assumption.
    + exists []. split; [reflexivity|constructor].
Qed.

Lemma trimStart_blank s : blank s -> trimStart s = [].
Proof.
  induction 1 as [|a s Ha _ IH]; simpl; [reflexivity|]. rewrite Ha. exact IH.
Qed.

Lemma trim_blank s : blank s -> trim s = [].
Proof. intros H. unfold trim. rewrite (trimStart_blank s H). reflexivity. Qed.

Lemma not_space_not_terminator c :
  isWhiteSpace c = false -> isLineTerminator c = false.
Proof.
  unfold isWhiteSpace. intros H. apply orb_false_iff in H. apply H.
Qed.

(** The group "(.+)" takes the line from a character that is on it. *)
Lemma group_line ic c0 s cs :
  isLineTerminator c0 = false ->
  exists post,
    compile ic (Group 1 (Plus true (Cls Dot))) (MState (c0 :: s) cs) Some
    = Some (MState post (<[1%nat := upToLineEnd (c0 :: s)]> cs)).
Proof.
  intros Hc.
  destruct (upToLineEnd_split (c0 :: s)) as (post & Hs & Hf & Hp).
  exists post. set (cap := upToLineEnd (c0 :: s)) in *.
  assert (Hne : cap <> []) by (subst cap; simpl; rewrite Hc; discriminate).
  clearbody cap. rewrite Hs. cbn [compile rest caps].
  rewrite (greedy_run ic Dot _ post cs).
  - cbn [rest caps]. rewrite length_app.
    replace (length cap + length post - length post)%nat with (length cap) by lia.
    rewrite take_app_length. reflexivity.
  - destruct post as [|b post]; [constructor|]. simpl in *. rewrite Hp. reflexivity.
  - eauto.
  - eapply Forall_impl; [exact Hf|]. intros a Ha. simpl. rewrite Ha. reflexivity.
  - destruct cap; [contradiction|simpl; lia].
  - rewrite length_app. lia.
Qed.

Lemma todoReOcto_at z :
  is_Some (compile false todoReOcto (MState z ∅) Some) <-> Octo_markerAt z.
Proof.
  split.
  - intros [y Hy]. apply compile_sound in Hy as (y' & Hs & _).
    apply todoReOcto_sem in Hs as (ws & cap & Hx & _ & [Hne Hcap] & _).
    cbn [rest] in Hx. exists (ws ++ cap ++ rest y'). split; [exact Hx|].
    destruct cap as [|c cap]; [contradiction|].
    apply Forall_cons in Hcap as [Hc _].
    apply Exists_app. right. left. exact Hc.
  - intros (r & -> & Hex).
    destruct (trimStart_split r) as (ws & Hr & Hws).
    destruct (trimStart r) as [|c0 s] eqn:Ht.
    + rewrite app_nil_r in Hr. subst ws.
      apply Exists_exists in Hex as (x & Hx & Hnl).
      apply list_elem_of_split in Hx as (w1 & w2 & ->).
      apply Forall_app in Hws as [Hw1 _].
      apply (compile_complete false todoReOcto _ Some (fun _ => True))
        with (s' := w2); [intros y _; eauto| |constructor].
      apply (todoReOcto_accepts w1 [x] w2 Hw1).
      split; [discriminate|repeat constructor; exact Hnl].
    + assert (Hc0 : isWhiteSpace c0 = false)
        by (apply (trimStart_head r); rewrite Ht; reflexivity).
      rewrite Hr.
      apply (compile_complete false todoReOcto _ Some (fun _ => True))
        with (s' := s); [intros y _; eauto| |constructor].
      apply (todoReOcto_accepts ws [c0] s Hws).
      split; [discriminate|repeat constructor].
      apply not_space_not_terminator, Hc0.
Qed.

Lemma todoReOcto_value r :
  Exists (fun c => isLineTerminator c = false) r ->
  exists y cap,
    compile false todoReOcto (MState (lit "TODO:" ++ r) ∅) Some = Some y
    /\ caps y !! 1%nat = Some cap
    /\ trim cap = Octo_textOf r.
Proof.
  intros Hex.
  destruct (trimStart_split r) as (ws & Hr & Hws).
  unfold Octo_textOf.
  destruct (trimStart r) as [|c0 s] eqn:Ht.
  - rewrite app_nil_r in Hr. subst ws.
    destruct (proj2 (todoReOcto_at (lit "TODO:" ++ r))) as [y Hy];
      [exists r; auto|].
    pose proof Hy as Hy'.
    apply compile_sound in Hy' as (y' & Hs & [= ->]).
    apply todoReOcto_sem in Hs as (ws & cap & Hx & _ & _ & Hc).
    cbn [rest] in Hx. apply app_inv_head in Hx. rewrite Hx in Hws.
    apply Forall_app in Hws as [_ Hws]. apply Forall_app in Hws as [Hcap _].
    exists y, cap. split; [exact Hy|]. split; [exact Hc|].
    rewrite (trim_blank cap Hcap). reflexivity.
  - assert (Hc0 : isWhiteSpace c0 = false)
      by (apply (trimStart_head r); rewrite Ht; reflexivity).
    destruct (group_line false c0 s ∅ (not_space_not_terminator c0 Hc0))
      as (post & Hg).
    exists (MState post (<[1%nat := upToLineEnd (c0 :: s)]> ∅)),
           (upToLineEnd (c0 :: s)).
    split; [|split; [apply lookup_insert_eq|reflexivity]].
    rewrite Hr. unfold todoReOcto. cbn [compile].
    rewrite compile_lits. cbn [rest caps].
    rewrite (greedy_run false Space _ (c0 :: s) ∅).
    + exact Hg.
    + exact Hc0.
    + eexists. exact Hg.
    + exact Hws.
    + lia.
    + rewrite length_app. lia.
Qed.

(** A line yields an annotation in the Octokit script exactly when
    "TODO:" is followed somewhere by a character of the line; the
    annotation is that of the leftmost such place. *)
Lemma Octo_todoOfLine_exact p i line t :
  Octo.todoOfLine p i line = Some t <->
  exists pre r,
    line = pre ++ lit "TODO:" ++ r
    /\ Exists (fun c => isLineTerminator c = false) r
    /\ leftmost Octo_markerAt pre (lit "TODO:" ++ r)
    /\ t = Octo.Todo p (Octo_textOf r) (i + 1).
Proof.
  unfold Octo.todoOfLine. split.
  - destruct (exec false todoReOcto line) as [y|] eqn:He; [|discriminate].
    apply (exec_at false todoReOcto Octo_markerAt line y
             (fun _ z _ => todoReOcto_at z)) in He
      as (pre & z & -> & (r & -> & Hex) & Hl & Hy).
    destruct (todoReOcto_value r Hex) as (y' & cap & Hv & Hc & Htxt).
    rewrite Hv in Hy. injection Hy as <-.
    cbn [mbind option_bind]. unfold capture. rewrite Hc.
    cbn [mbind option_bind]. rewrite Htxt. intros [= <-].
    exists pre, r. auto.
  - intros (pre & r & -> & Hex & Hl & ->).
    destruct (todoReOcto_value r Hex) as (y' & cap & Hv & Hc & Htxt).
    assert (He : exec false todoReOcto (pre ++ lit "TODO:" ++ r) = Some y').
    { apply (exec_at false todoReOcto Octo_markerAt _ _
               (fun _ z _ => todoReOcto_at z)).
      exists pre, (lit "TODO:" ++ r). repeat split; auto. exists r; auto. }
    rewrite He. cbn [mbind option_bind]. unfold capture. rewrite Hc.
    cbn [mbind option_bind]. rewrite Htxt. reflexivity.
Qed.

(** * The pattern of the HTTPS script, exactly *)

Lemma startsWith_spec k s : startsWith k s = true <-> exists q, s = k ++ q.
Proof.
  unfold startsWith. rewrite bool_decide_eq_true. split.
  - intros H. exists (drop (length k) s). rewrite <- H at 1.
    symmetry. apply take_drop.
  - intros [q ->]. apply take_app_length.
Qed.

Lemma closes_atCloser s : closes s <-> atCloser s = true.
Proof.
  unfold closes, atCloser.
  rewrite !orb_true_iff, bool_decide_eq_true, !startsWith_spec. tauto.
Qed.

Lemma compile_seq ic r1 r2 x (c : cont) :
  compile ic (Seq r1 r2) x c = compile ic r1 x (fun y => compile ic r2 y c).
Proof. reflexivity. Qed.

Lemma compile_group ic n r x (c : cont) :
  compile ic (Group n r) x c
  = compile ic r x (fun y =>
      c (MState (rest y)
           (<[n := take (length (rest x) - length (rest y)) (rest x)]> (caps y)))).
Proof. reflexivity. Qed.

Lemma compile_plus ic g r x (c : cont) :
  compile ic (Plus g r) x c
  = compile ic r x (fun y =>
      repeatMatcher (S (length (rest x))) (compile ic r) 0 g y c).
Proof. reflexivity. Qed.

Lemma compile_star ic g r x (c : cont) :
  compile ic (Star g r) x c
  = repeatMatcher (2 + length (rest x)) (compile ic r) 0 g x c.
Proof. reflexivity. Qed.

Lemma compile_cls ic k a s cs (c : cont) :
  compile ic (Cls k) (MState (a :: s) cs) c
  = if inClass k a then c (MState s cs) else None.
Proof. reflexivity. Qed.

Lemma compile_ahead ic r x (c : cont) :
  compile ic (Ahead r) x c
  = match compile ic r x Some with
    | Some y => c (MState (rest x) (caps y))
    | None => None
    end.
Proof. reflexivity. Qed.

(** The lookahead of the pattern looks for a closer and takes nothing. *)
Lemma ahead_closers x (c : cont) :
  compile true (Ahead (Alt (lits (lit "-->")) (Alt (lits (lit "*/")) Eoi))) x c
  = if atCloser (rest x) then c x else None.
Proof.
  rewrite compile_ahead.
  destruct (compile true (Alt (lits (lit "-->")) (Alt (lits (lit "*/")) Eoi))
              x Some) as [y|] eqn:Hy.
  - apply compile_sound in Hy as (y' & Hs & [= <-]).
    apply closers_sem in Hs as [Hcl Hc].
    apply closes_atCloser in Hcl. rewrite Hcl, Hc. destruct x; reflexivity.
  - destruct (atCloser (rest x)) eqn:Hcl; [|reflexivity].
    apply closes_atCloser, closers_accepts in Hcl as [s2 Hs2].
    destruct (compile_complete true
                (Alt (lits (lit "-->")) (Alt (lits (lit "*/")) Eoi))
                x Some (fun _ => True)) with (s' := s2)
      as [y Hy']; [intros y _; eauto|exact Hs2|constructor|].
    rewrite Hy' in Hy. discriminate.
Qed.

(** A lazy run over a class stops at the first place where the
    continuation goes through. *)
Lemma lazy_run ic k (c : cont) (post : jsstr) cs :
  is_Some (c (MState post cs)) ->
  forall (cap : jsstr) fuel,
    Forall (fun a => inClass k a = true) cap ->
    (forall u v, cap = u ++ v -> v <> [] -> c (MState (v ++ post) cs) = None) ->
    (length cap < fuel)%nat ->
    repeatMatcher fuel (compile ic (Cls k)) 0 false (MState (cap ++ post) cs) c
    = c (MState post cs).
Proof.
  intros [z Hz]. induction cap as [|a cap IH]; intros fuel Hcap Hn Hfuel.
  - destruct fuel as [|fuel]; [simpl in Hfuel; lia|].
    cbn [repeatMatcher Nat.eqb negb app]. rewrite Hz. reflexivity.
  - destruct fuel as [|fuel]; [simpl in Hfuel; lia|].
    apply Forall_cons in Hcap as [Ha Hcap]. simpl in Hfuel.
    cbn [repeatMatcher Nat.eqb negb].
    rewrite (Hn [] (a :: cap) eq_refl) by discriminate.
    cbn [orElse app compile rest caps andb Nat.pred]. rewrite Ha.
    replace (length (cap ++ post) =? length (a :: cap ++ post))%nat with false
      by (symmetry; apply Nat.eqb_neq; simpl; lia).
    apply IH; [exact Hcap| |lia].
    intros u v -> Hv. apply (Hn (a :: u) v eq_refl Hv).
Qed.

Lemma upToCloser_split s :
  exists post,
    s = upToCloser s ++ post
    /\ atCloser post = true
    /\ forall u v, upToCloser s = u ++ v -> v <> [] -> atCloser (v ++ post) = false.
Proof.
  induction s as [|a s (post & Hs & Hp & Hn)].
  - exists []. repeat split. intros u v Huv Hv. destruct u, v; try discriminate.
    contradiction.
  - cbn [upToCloser]. destruct (atCloser (a :: s)) eqn:Ha.
    + exists (a :: s). repeat split; [exact Ha|].
      intros u v Huv Hv. destruct u, v; try discriminate. contradiction.
    + exists post. split; [simpl; f_equal; exact Hs|]. split; [exact Hp|].
      intros u v Huv Hv. destruct u as [|b u].
      * simpl in Huv. subst v. cbn [app]. rewrite <- Hs. exact Ha.
      * injection Huv as _ Huv. apply (Hn u v Huv Hv).
Qed.

(** The group "(.+?)" and the lookahead: from a character on, the text
    up to the first closer that comes after it. *)
Lemma group_closer c0 s cs :
  Forall (fun c => isLineTerminator c = false) (c0 :: s) ->
  exists post,
    compile true
      (Seq (Group 1 (Plus false (Cls Dot)))
           (Ahead (Alt (lits (lit "-->")) (Alt (lits (lit "*/")) Eoi))))
      (MState (c0 :: s) cs) Some
    = Some (MState post (<[1%nat := c0 :: upToCloser s]> cs)).
Proof.
  intros Hline. apply Forall_cons in Hline as [Hc0 Hs].
  destruct (upToCloser_split s) as (post & Hsp & Hp & Hn).
  exists post. set (cap := upToCloser s) in *. clearbody cap. subst s.
  apply Forall_app in Hs as [Hcap _].
  rewrite compile_seq, compile_group, compile_plus, compile_cls.
  cbn [rest caps]. unfold inClass at 1. rewrite Hc0. cbn [negb].
  set (K := fun y : mstate => _).
  assert (HK : forall v, K (MState v cs)
    = if atCloser v
      then Some (MState v (<[1%nat := take (length (c0 :: cap ++ post) - length v)
                                           (c0 :: cap ++ post)]> cs))
      else None).
  { intros v. subst K. cbv beta. rewrite ahead_closers. reflexivity. }
  rewrite (lazy_run true Dot K post cs).
  - rewrite HK, Hp. do 2 f_equal. f_equal.
    change (c0 :: cap ++ post) with ((c0 :: cap) ++ post).
    rewrite length_app.
    replace (length (c0 :: cap) + length post - length post)%nat
      with (length (c0 :: cap)) by lia.
    apply take_app_length.
  - rewrite HK, Hp. eauto.
  - eapply Forall_impl; [exact Hcap|]. intros a Ha. simpl. rewrite Ha. reflexivity.
  - intros u v Huv Hv. rewrite HK, (Hn u v Huv Hv). reflexivity.
  - simpl. rewrite length_app. lia.
Qed.

(** A greedy run over a class that the continuation refuses at the end
    of the input gives its last character back. *)
Lemma greedy_back ic k (c : cont) x cs :
  inClass k x = true ->
  c (MState [] cs) = None ->
  is_Some (c (MState [x] cs)) ->
  forall (w : jsstr) fuel,
    Forall (fun a => inClass k a = true) w ->
    (length w + 1 < fuel)%nat ->
    repeatMatcher fuel (compile ic (Cls k)) 0 true (MState (w ++ [x]) cs) c
    = c (MState [x] cs).
Proof.
  intros Hx Hnil [z Hz]. induction w as [|a w IH]; intros fuel Hw Hfuel.
  - destruct fuel as [|[|fuel]]; [simpl in Hfuel; lia..|].
    cbn [repeatMatcher Nat.eqb negb app andb Nat.pred length].
    rewrite compile_cls, Hx. cbn [rest length Nat.eqb andb].
    rewrite Hnil. reflexivity.
  - destruct fuel as [|fuel]; [simpl in Hfuel; lia|].
    apply Forall_cons in Hw as [Ha Hw]. simpl in Hfuel.
    cbn [repeatMatcher Nat.eqb negb app andb Nat.pred].
    rewrite compile_cls, Ha. cbn [rest].
    replace (length (w ++ [x]) =? length (a :: w ++ [x]))%nat with false
      by (symmetry; apply Nat.eqb_neq; simpl; lia).
    rewrite IH by (auto; lia). rewrite Hz. reflexivity.
Qed.

Lemma compile_lits_fold ic (w : jsstr) : forall (m s : jsstr) cs (c : cont),
  map (canonicalize ic) m = map (canonicalize ic) w ->
  compile ic (lits w) (MState (m ++ s) cs) c = c (MState s cs).
Proof.
  induction w as [|a w IH]; intros [|b m] s cs c Hm; try discriminate.
  - reflexivity.
  - injection Hm as Hb Hm.
    cbn [lits compile app rest caps]. rewrite Hb, N.eqb_refl. apply IH, Hm.
Qed.

Lemma compile_openers d s cs (c : cont) :
  isOpener d ->
  compile true
    (Alt (lits (lit "//"))
       (Alt (lits (lit "#")) (Alt (lits (lit "<!--")) (lits (lit "/*")))))
    (MState (d ++ s) cs) c
  = c (MState s cs).
Proof.
  intros [-> | [-> | [-> | ->]]]; cbn; destruct (c (MState s cs)); reflexivity.
Qed.

Lemma keyword_head kw :
  sameIgnoringCase kw (lit "TODO:") ->
  exists k0 kw', kw = k0 :: kw' /\ isWhiteSpace k0 = false.
Proof.
  unfold sameIgnoringCase. destruct kw as [|k0 kw']; [discriminate|].
  intros H. injection H as Hk _. exists k0, kw'. split; [reflexivity|].
  unfold asciiUpper in Hk. change (if (97 <=? 84) && (84 <=? 122) then 84 - 32 else 84) with 84 in Hk.
  assert (Hk0 : k0 = 116 \/ k0 = 84).
  { destruct (N.leb_spec 97 k0), (N.leb_spec k0 122); simpl in Hk;
      unfold char in *; lia. }
  destruct Hk0 as [-> | ->]; reflexivity.
Qed.

(** What comes after "TODO:" in the pattern: white space, the text and
    the lookahead. *)
Lemma todoReHttps_text r :
  r <> [] -> Forall (fun c => isLineTerminator c = false) r ->
  exists y cap,
    compile true
      (Seq (Star true (Cls Space))
         (Seq (Group 1 (Plus false (Cls Dot)))
            (Ahead (Alt (lits (lit "-->")) (Alt (lits (lit "*/")) Eoi)))))
      (MState r ∅) Some = Some y
    /\ caps y !! 1%nat = Some cap
    /\ trim cap = Https_textOf r.
Proof.
  intros Hne Hline.
  destruct (trimStart_split r) as (ws & Hr & Hws).
  unfold Https_textOf. destruct (trimStart r) as [|c0 s] eqn:Ht.
  - rewrite app_nil_r in Hr. subst ws.
    destruct r as [|x w _] using rev_ind; [contradiction|].
    apply Forall_app in Hline as [_ Hx]. apply Forall_cons in Hx as [Hx _].
    apply Forall_app in Hws as [Hw Hxs]. apply Forall_cons in Hxs as [Hxs _].
    destruct (group_closer x [] ∅) as (post & Hg); [repeat constructor; exact Hx|].
    exists (MState post (<[1%nat := [x]]> ∅)), [x].
    split; [|split; [apply lookup_insert_eq|]].
    + rewrite compile_seq, compile_star. cbn [rest].
      rewrite (greedy_back true Space _ x ∅).
      * exact Hg.
      * exact Hxs.
      * reflexivity.
      * eexists. exact Hg.
      * exact Hw.
      * rewrite length_app. simpl. lia.
    + apply trim_blank. repeat constructor. exact Hxs.
  - assert (Hc0 : isWhiteSpace c0 = false)
      by (apply (trimStart_head r); rewrite Ht; reflexivity).
    rewrite Hr in Hline. apply Forall_app in Hline as [_ Hline].
    destruct (group_closer c0 s ∅ Hline) as (post & Hg).
    exists (MState post (<[1%nat := c0 :: upToCloser s]> ∅)), (c0 :: upToCloser s).
    split; [|split; [apply lookup_insert_eq|reflexivity]].
    rewrite Hr, compile_seq, compile_star. cbn [rest].
    rewrite (greedy_run true Space _ (c0 :: s) ∅).
    + exact Hg.
    + exact Hc0.
    + eexists. exact Hg.
    + exact Hws.
    + lia.
    + rewrite length_app. lia.
Qed.

Lemma todoReHttps_value d ws kw r :
  isOpener d -> blank ws -> sameIgnoringCase kw (lit "TODO:") ->
  r <> [] -> Forall (fun c => isLineTerminator c = false) r ->
  exists y cap,
    compile true todoReHttps (MState (d ++ ws ++ kw ++ r) ∅) Some = Some y
    /\ caps y !! 1%nat = Some cap
    /\ trim cap = Https_textOf r.
Proof.
  intros Hd Hws Hkw Hne Hline.
  destruct (todoReHttps_text r Hne Hline) as (y & cap & Hy & Hc & Ht).
  destruct (keyword_head kw Hkw) as (k0 & kw' & Hk & Hk0).
  exists y, cap. split; [|split; assumption].
  unfold todoReHttps.
  rewrite compile_seq, compile_openers by exact Hd.
  rewrite compile_seq, compile_star. cbn [rest].
  assert (Hrest : compile true
            (Seq (lits (lit "TODO:"))
               (Seq (Star true (Cls Space))
                  (Seq (Group 1 (Plus false (Cls Dot)))
                     (Ahead (Alt (lits (lit "-->"))
                               (Alt (lits (lit "*/")) Eoi))))))
            (MState (kw ++ r) ∅) Some = Some y).
  { rewrite compile_seq, compile_lits_fold; [exact Hy|].
    rewrite !(map_ext _ _ canonicalize_asciiUpper). exact Hkw. }
  rewrite (greedy_run true Space _ (kw ++ r) ∅).
  - exact Hrest.
  - rewrite Hk. exact Hk0.
  - eexists. exact Hrest.
  - exact Hws.
  - lia.
  - rewrite length_app. lia.
Qed.

Lemma todoReHttps_at z :
  Forall (fun c => isLineTerminator c = false) z ->
  is_Some (compile true todoReHttps (MState z ∅) Some) <-> Https_markerAt z.
Proof.
  intros Hline. split.
  - intros [y Hy]. apply compile_sound in Hy as (y' & Hs & _).
    apply todoReHttps_sem in Hs
      as (d & ws1 & kw & ws2 & cap & Hx & Hd & Hws1 & Hkw & _ & [Hne _] & _).
    cbn [rest] in Hx. exists d, ws1, kw, (ws2 ++ cap ++ rest y').
    repeat split; auto.
    intros H. apply app_eq_nil in H as [_ H]. apply app_eq_nil in H as [H _].
    contradiction.
  - intros (d & ws & kw & r & -> & Hd & Hws & Hkw & Hne).
    destruct (todoReHttps_value d ws kw r Hd Hws Hkw Hne) as (y & _ & Hy & _).
    + do 3 (apply Forall_app in Hline as [_ Hline]). exact Hline.
    + eauto.
Qed.

(** A line without line terminator yields an annotation in the HTTPS
    script exactly when it holds a comment opener, white space or none,
    "TODO:" in any case and more; the annotation is that of the
    leftmost such place. *)
Lemma Https_todoOfLine_exact p line t :
  Forall (fun c => isLineTerminator c = false) line ->
  Https.todoOfLine p line = Some t <->
  exists pre d ws kw r,
    line = pre ++ d ++ ws ++ kw ++ r
    /\ isOpener d /\ blank ws /\ sameIgnoringCase kw (lit "TODO:")
    /\ r <> []
    /\ leftmost Https_markerAt pre (d ++ ws ++ kw ++ r)
    /\ t = Https.Todo (Https_textOf r) p (p ++ lit "|" ++ Https_textOf r).
Proof.
  intros Hline.
  assert (Hat : forall pre z, line = pre ++ z ->
            is_Some (compile true todoReHttps (MState z ∅) Some)
            <-> Https_markerAt z).
  { intros pre z ->. apply todoReHttps_at.
    apply Forall_app in Hline as [_ Hz]. exact Hz. }
  unfold Https.todoOfLine. split.
  - destruct (exec true todoReHttps line) as [y|] eqn:He; [|discriminate].
    apply (exec_at true todoReHttps Https_markerAt line y Hat) in He
      as (pre & z & -> & (d & ws & kw & r & -> & Hd & Hws & Hkw & Hne) & Hl & Hy).
    destruct (todoReHttps_value d ws kw r Hd Hws Hkw Hne)
      as (y' & cap & Hv & Hc & Htxt).
    { do 4 (apply Forall_app in Hline as [_ Hline]). exact Hline. }
    rewrite Hv in Hy. injection Hy as <-.
    cbn [mbind option_bind]. unfold capture. rewrite Hc.
    cbn [mbind option_bind]. rewrite Htxt. intros [= <-].
    exists pre, d, ws, kw, r. auto 10.
  - intros (pre & d & ws & kw & r & Hdec & Hd & Hws & Hkw & Hne & Hl & ->).
    destruct (todoReHttps_value d ws kw r Hd Hws Hkw Hne)
      as (y' & cap & Hv & Hc & Htxt).
    { rewrite Hdec in Hline.
      do 4 (apply Forall_app in Hline as [_ Hline]). exact Hline. }
    assert (He : exec true todoReHttps line = Some y').
    { apply (exec_at true todoReHttps Https_markerAt _ _ Hat).
      exists pre, (d ++ ws ++ kw ++ r). repeat split; auto.
      exists d, ws, kw, r. auto. }
    rewrite He. cbn [mbind option_bind]. unfold capture. rewrite Hc.
    cbn [mbind option_bind]. rewrite Htxt. reflexivity.
Qed.

Lemma Octo_markerAt_head u :
  Octo_markerAt u -> exists a, head u = Some a /\ (a =? 84) = true.
Proof. intros (r & -> & _). exists 84. split; reflexivity. Qed.

Lemma Https_markerAt_head u :
  Https_markerAt u ->
  exists a, head u = Some a /\ (a =? 47) || (a =? 35) || (a =? 60) = true.
Proof.
  intros (d & ws & kw & r & -> & [-> | [-> | [-> | ->]]] & _);
    eexists; split; reflexivity.
Qed.

Lemma trimmed_nil : trimmed [].
Proof. split; intros c; discriminate. Qed.

(** C6, amended.  In the HTTPS script a line without line terminator
    yields an annotation exactly when it holds a comment opener,
    optional white space, "TODO:" in any case and at least one more
    character; the annotation is taken at the leftmost such place and
    its text runs from the first character after the white space that
    follows "TODO:" up to the first markup or block closer that comes
    after that character, or to the end of the line.  In the Octokit
    script a line yields an annotation exactly when it holds "TODO:" as
    written followed by a character that is no line terminator; the
    annotation is taken at the leftmost such place and its text runs
    from the first character after the white space that follows
    "TODO:" up to the end of the line.  In both scripts a line yields
    at most one annotation and the stored text is trimmed. *)
Theorem C6_markers :
  (forall p line t,
     Forall (fun c => isLineTerminator c = false) line ->
     Https.todoOfLine p line = Some t <->
     exists pre d ws kw r,
       line = pre ++ d ++ ws ++ kw ++ r
       /\ isOpener d /\ blank ws /\ sameIgnoringCase kw (lit "TODO:")
       /\ r <> []
       /\ leftmost Https_markerAt pre (d ++ ws ++ kw ++ r)
       /\ t = Https.Todo (Https_textOf r) p (p ++ lit "|" ++ Https_textOf r))
  /\ (forall p i line t,
        Octo.todoOfLine p i line = Some t <->
        exists pre r,
          line = pre ++ lit "TODO:" ++ r
          /\ Exists (fun c => isLineTerminator c = false) r
          /\ leftmost Octo_markerAt pre (lit "TODO:" ++ r)
          /\ t = Octo.Todo p (Octo_textOf r) (i + 1))
  /\ (forall p content,
        (length (Https.todosOfContent p content)
         <= length (split_lines content))%nat
        /\ (length (Octo.todosOfContent p content)
            <= length (split_lines content))%nat)
  /\ (forall r, trimmed (Https_textOf r) /\ trimmed (Octo_textOf r)).
Proof.
  split; [|split; [|split]].
  - intros p line t Hline. apply Https_todoOfLine_exact, Hline.
  - apply Octo_todoOfLine_exact.
  - intros p content. split.
    + apply length_omap_le.
    + unfold Octo.todosOfContent.
      etransitivity; [apply length_omap_le|]. rewrite length_imap. lia.
  - intros r. split; [|apply trim_trimmed].
    unfold Https_textOf. destruct (trimStart r); [apply trimmed_nil|].
    apply trim_trimmed.
Qed.

Lemma C6_markers_witness :
  Https.todoOfLine (lit "a.js") (lit "x /* Todo: tidy up */ y")
  = Some (Https.Todo (lit "tidy up") (lit "a.js") (lit "a.js|tidy up"))
  /\ Octo.todoOfLine (lit "a.js") 0 (lit "x = 1 /* TODO: tidy up */")
     = Some (Octo.Todo (lit "a.js") (lit "tidy up */") 1).
Proof.
  destruct C6_markers as (HH & HO & _). split.
  - apply HH; [repeat constructor|].
    exists (lit "x "), (lit "/*"), (lit " "), (lit "Todo:"), (lit " tidy up */ y").
    split; [reflexivity|]. split; [unfold isOpener; auto|].
    split; [repeat constructor|]. split; [reflexivity|].
    split; [discriminate|]. split; [|reflexivity].
    apply (leftmost_heads Https_markerAt
             (fun a => (a =? 47) || (a =? 35) || (a =? 60)));
      [apply Https_markerAt_head|reflexivity].
  - apply HO.
    exists (lit "x = 1 /* "), (lit " tidy up */").
    split; [reflexivity|]. split; [left; reflexivity|]. split; [|reflexivity].
    apply (leftmost_heads Octo_markerAt (fun a => a =? 84));
      [apply Octo_markerAt_head|reflexivity].
Defined.
